(** * webscraper: the content-extraction engine of [html_parser.py]

    A shallow embedding of [HTMLParser]: the noise filter
    ([_prepare_content_soup], [_should_skip_element]), the candidate
    scorer ([_extract_content_blocks], [_build_block_info],
    [_score_block]), the schema strategy ([_extract_schema_block]), the
    wrapper around the readability summarizer ([_extract_main_content]),
    the arbiter ([_choose_main_content]) and the media/link derivers
    with the part of the assembler that reports them; then the
    metadata helpers ([_extract_meta], [_find_authors],
    [_split_meta_values]), the lists and tables of a fragment, the
    user agents, [clean_text] of [utils.py] and the naming of the
    output file in [scraper.py].

    Conventions of the embedding.
    - A Python [str] is a [string] of bytes; [str.split()], [str.lower()],
      [str.strip()] and [in] act on the ASCII range.
    - A Python [float] is an exact rational ([Q]); [round(x, n)] rounds
      half to even at [n] decimals.
    - The parsed document (the object [BeautifulSoup(html, 'lxml')]
      returns) is a [node], made of tags and text strings; parsing
      itself is outside the engine, and an HTML string the engine stores
      and parses again ([html], [summary_html]) is kept in parsed form.
    - [urljoin], [urlparse] and the readability summarizer are inputs.
    - The dictionary that travels through the arbiter is a
      [gmap string pyval]. *)

From Stdlib Require Import String Ascii List ZArith QArith Qround Qminmax Lqa Lia Bool.
From Stdlib Require Import DecimalString Sorting.Sorted.
From stdpp Require Import base gmap strings list fin_maps.

Local Open Scope string_scope.
Local Open Scope list_scope.

(** ** Python strings *)

Module Py.

(** [str.isspace] on one byte: TAB, LF, VT, FF, CR, FS, GS, RS, US, SPACE. *)
Definition isspace (c : ascii) : bool :=
  let n := nat_of_ascii c in
  (Nat.leb 9 n && Nat.leb n 13) || (Nat.leb 28 n && Nat.leb n 32).

(** [s.split()]: the maximal runs of non-space characters. [cur] holds
    the run being read, in reverse. *)
Fixpoint split_go (cur : list ascii) (s : string) : list string :=
  match s with
  | EmptyString =>
      match cur with
      | [] => []
      | _ => [string_of_list_ascii (List.rev cur)]
      end
  | String c s' =>
      if isspace c then
        match cur with
        | [] => split_go [] s'
        | _ => string_of_list_ascii (List.rev cur) :: split_go [] s'
        end
      else split_go (c :: cur) s'
  end.

Definition split (s : string) : list string := split_go [] s.

(** [sep.join(parts)] *)
Fixpoint join (sep : string) (parts : list string) : string :=
  match parts with
  | [] => ""
  | [p] => p
  | p :: rest => p ++ sep ++ join sep rest
  end.

(** [s.lower()] on the ASCII range. *)
Definition lower_ascii (c : ascii) : ascii :=
  let n := nat_of_ascii c in
  if Nat.leb 65 n && Nat.leb n 90 then ascii_of_nat (n + 32) else c.

Fixpoint lower (s : string) : string :=
  match s with
  | EmptyString => EmptyString
  | String c s' => String (lower_ascii c) (lower s')
  end.

(** [needle in hay] *)
Fixpoint contains (needle hay : string) : bool :=
  String.prefix needle hay ||
  match hay with
  | EmptyString => false
  | String _ hay' => contains needle hay'
  end.

(** [s.lstrip()], [s.rstrip()], [s.strip()] *)
Fixpoint lstrip (s : string) : string :=
  match s with
  | EmptyString => EmptyString
  | String c s' => if isspace c then lstrip s' else s
  end.

Fixpoint rstrip (s : string) : string :=
  match s with
  | EmptyString => EmptyString
  | String c s' =>
      match rstrip s' with
      | EmptyString => if isspace c then EmptyString else String c EmptyString
      | r => String c r
      end
  end.

Definition strip (s : string) : string := rstrip (lstrip s).

(** [s[:n]] *)
Fixpoint take (n : nat) (s : string) : string :=
  match n, s with
  | O, _ => EmptyString
  | _, EmptyString => EmptyString
  | S n', String c s' => String c (take n' s')
  end.

(** Truthiness of a string. *)
Definition nonempty (s : string) : bool :=
  match s with EmptyString => false | _ => true end.

(** [x or y] on strings. *)
Definition or_else (x y : string) : string := if nonempty x then x else y.

(** [round(x, ndigits)] for a float: to the nearest multiple of
    [10^-ndigits], a tie going to the even neighbour. *)
Definition round_half_even (x : Q) : Z :=
  let f := Qfloor x in
  let d := (x - inject_Z f)%Q in
  match (d ?= 1 # 2)%Q with
  | Lt => f
  | Gt => (f + 1)%Z
  | Eq => if Z.even f then f else (f + 1)%Z
  end.

Definition round (x : Q) (ndigits : nat) : Q :=
  let p := Z.pow 10 (Z.of_nat ndigits) in
  (inject_Z (round_half_even (x * inject_Z p)) / inject_Z p)%Q.

End Py.

(** [utils.clean_text] *)
Definition clean_text (text : string) : string :=
  if Py.nonempty text then Py.join " " (Py.split text) else "".

(** ** The parsed document *)

(** The value of an attribute: BeautifulSoup keeps [class] (and the other
    multi-valued attributes) as a list of tokens, the rest as a string. *)
Inductive attrval :=
  | AStr (s : string)
  | AList (l : list string).

(** A node of the tree: a text string or a tag with its attribute map
    (ordered, keys unique) and its children. *)
Unset Elimination Schemes.
Inductive node :=
  | Text (s : string)
  | Elem (name : string) (attrs : list (string * attrval)) (children : list node).
Set Elimination Schemes.

(** Induction over a tree: the property holds for a tag as soon as it
    holds for each of its children. *)
Section NodeInduction.
Variable P : node -> Prop.
Hypothesis on_text : forall s, P (Text s).
Hypothesis on_elem : forall name attrs cs, Forall P cs -> P (Elem name attrs cs).

Fixpoint node_ind (n : node) : P n :=
  match n with
  | Text s => on_text s
  | Elem name attrs cs =>
      on_elem name attrs cs
        ((fix children (l : list node) : Forall P l :=
            match l with
            | [] => @List.Forall_nil node P
            | c :: l' => @List.Forall_cons node P c l' (node_ind c) (children l')
            end) cs)
  end.
End NodeInduction.

Definition attr_map := list (string * attrval).

(** [attrs.get(key)] *)
Fixpoint attr_get (attrs : attr_map) (key : string) : option attrval :=
  match attrs with
  | [] => None
  | (k, v) :: rest => if String.eqb k key then Some v else attr_get rest key
  end.

(** [element.get(key) or ""] for an attribute the parser keeps as a
    string. A list there, which the parser builds for [class] and its
    like only, is read as the tokens joined by a space. *)
Definition attr_str (attrs : attr_map) (key : string) : string :=
  match attr_get attrs key with
  | Some (AStr s) => s
  | Some (AList l) => Py.join " " l
  | None => ""
  end.

Definition is_tag (n : node) : bool :=
  match n with Text _ => false | Elem _ _ _ => true end.

Definition tag_name (n : node) : string :=
  match n with Text _ => "" | Elem name _ _ => name end.

Definition tag_attrs (n : node) : attr_map :=
  match n with Text _ => [] | Elem _ attrs _ => attrs end.

Definition contents (n : node) : list node :=
  match n with Text _ => [] | Elem _ _ cs => cs end.

(** The tags below a node and the node itself, in document order. *)
Fixpoint self_and_descendants (n : node) : list node :=
  match n with
  | Text _ => []
  | Elem _ _ cs => n :: flat_map self_and_descendants cs
  end.

(** [tag.find_all(True)]: every tag below [n], in document order. *)
Definition descendants (n : node) : list node :=
  flat_map self_and_descendants (contents n).

Definition name_in (names : list string) (n : node) : bool :=
  existsb (String.eqb (tag_name n)) names.

(** [tag.find_all(names)] and [tag.find(names)] *)
Definition find_all (names : list string) (n : node) : list node :=
  List.filter (name_in names) (descendants n).

Definition find (names : list string) (n : node) : option node :=
  hd_error (find_all names n).

(** The text strings below a node, in document order. *)
Fixpoint strings_of (n : node) : list string :=
  match n with
  | Text s => [s]
  | Elem _ _ cs => flat_map strings_of cs
  end.

(** [tag.get_text()] *)
Definition get_text (n : node) : string := Py.join "" (strings_of n).

(** [tag.get_text(" ", strip=True)]: every string stripped, the empty
    ones dropped, the rest joined by one space. *)
Definition get_text_sep (n : node) : string :=
  Py.join " " (List.filter Py.nonempty (map Py.strip (strings_of n))).

(** A tag together with the way up: its ancestors, nearest first, each
    with the position the path leaves it through in its [contents]. *)
Definition crumbs := list (node * nat).

Fixpoint located_from (up : crumbs) (n : node) : list (node * crumbs) :=
  match n with
  | Text _ => []
  | Elem _ _ cs =>
      (n, up) ::
      (fix below (i : nat) (l : list node) : list (node * crumbs) :=
         match l with
         | [] => []
         | c :: l' => located_from ((n, i) :: up) c ++ below (S i) l'
         end) 0%nat cs
  end.

Fixpoint located_below (parent : node) (up : crumbs) (i : nat) (l : list node)
  : list (node * crumbs) :=
  match l with
  | [] => []
  | c :: l' => located_from ((parent, i) :: up) c ++ located_below parent up (S i) l'
  end.

(** [soup.find_all(True)], each tag with its way up to [soup]. *)
Definition located (soup : node) : list (node * crumbs) :=
  located_below soup [] 0%nat (contents soup).

(** ** Noise filter *)

Definition NOISE_KEYWORDS : list string :=
  [ "nav"; "menu"; "footer"; "header"; "subscribe"; "metered"; "paywall";
    "share"; "social"; "toolbar"; "breadcrumbs"; "breadcrumb"; "cookie";
    "banner"; "popup"; "modal"; "adv"; "advert"; "ads"; "sponsor";
    "related"; "recommend"; "newsletter"; "comment"; "comments"; "form-";
    "promo"; "utility"; "widget"; "sidebar"; "login"; "signup"; "consent";
    "gdpr"; "tracking"; "notification"; "overlay"; "player-controls";
    "gallery"; "carousel"; "slider"; "tags"; "taglist"; "pagination" ].

Definition ARTICLE_HINTS : list string :=
  [ "article"; "story"; "content"; "body"; "post"; "entry"; "main";
    "text"; "read"; "news"; "detail" ].

Definition NOISE_TAGS : list string := ["nav"; "header"; "footer"; "aside"].

Definition NOISE_ROLES : list string :=
  ["navigation"; "banner"; "complementary"; "contentinfo"; "search"].

Definition BAG_ATTRIBUTES : list string :=
  ["class"; "id"; "name"; "aria-label"; "data-track-label";
   "data-component"; "data-testid"].

(** What one attribute adds to the bag: the lower-cased non-empty tokens
    of a list, the lower-cased value of a non-empty string. *)
Definition bag_of_value (v : option attrval) : list string :=
  match v with
  | Some (AList l) => map Py.lower (List.filter Py.nonempty l)
  | Some (AStr s) => if Py.nonempty s then [Py.lower s] else []
  | None => []
  end.

(** The list [attributes] of [_should_skip_element]. *)
Definition attribute_bag (attrs : attr_map) : list string :=
  flat_map (fun key => bag_of_value (attr_get attrs key)) BAG_ATTRIBUTES.

(** [any(keyword in attrs for keyword in keywords)] *)
Definition mentions (keywords : list string) (attrs : string) : bool :=
  existsb (fun keyword => Py.contains keyword attrs) keywords.

(** The keyword test at the end of [_should_skip_element]. *)
Definition bag_is_noise (attributes : list string) : bool :=
  match attributes with
  | [] => false
  | _ =>
      let attrs := Py.join " " attributes in
      if mentions NOISE_KEYWORDS attrs then
        if mentions ARTICLE_HINTS attrs then false else true
      else false
  end.

Definition _should_skip_element (element : node) : bool :=
  match element with
  | Text _ => false
  | Elem name attrs _ =>
      if existsb (String.eqb name) NOISE_TAGS then true
      else
        let role := Py.lower (attr_str attrs "role") in
        if existsb (String.eqb role) NOISE_ROLES then true
        else bag_is_noise (attribute_bag attrs)
  end.

Definition STRIPPED_TAGS : list string :=
  ["script"; "style"; "noscript"; "iframe"; "svg"; "canvas"].

(** The place of a tag in the tree: the positions from it up to the
    root. It names the tag while the loops below run, whatever has been
    detached meanwhile. *)
Definition place_of (up : crumbs) : list nat := map snd up.

(** The tree once the tags at the places [decomposed] are detached, each
    with everything below it. *)
Fixpoint remains (decomposed : list (list nat)) (here : list nat) (n : node) : node :=
  match n with
  | Text s => Text s
  | Elem name attrs cs =>
      Elem name attrs
        ((fix below (i : nat) (l : list node) : list node :=
            match l with
            | [] => []
            | c :: l' =>
                if bool_decide (i :: here ∈ decomposed) then below (S i) l'
                else remains decomposed (i :: here) c :: below (S i) l'
            end) 0%nat cs)
  end.

Fixpoint remains_below (decomposed : list (list nat)) (here : list nat) (i : nat)
    (l : list node) : list node :=
  match l with
  | [] => []
  | c :: l' =>
      if bool_decide (i :: here ∈ decomposed) then remains_below decomposed here (S i) l'
      else remains decomposed (i :: here) c :: remains_below decomposed here (S i) l'
  end.

(** [for element in found: if p(element): element.decompose()], where
    [found] was listed before the loop starts. The state is the list of
    the places decomposed so far. A tag met after one of its ancestors
    was decomposed is detached already, and whatever the loop does with
    it leaves the tree as it is: its place lies below a place of the
    list. *)
Definition decompose_loop (p : node -> bool) (found : list (node * crumbs))
    (soup : node) : node :=
  let decomposed :=
    fold_left
      (fun decomposed '(element, up) =>
         if p element then place_of up :: decomposed else decomposed)
      found [] in
  remains decomposed [] soup.

(** [_prepare_content_soup], from the parsed document on: the first
    loop decomposes every script, style, noscript, iframe, svg and
    canvas; the second runs over the tags then left and decomposes those
    [_should_skip_element] accepts. *)
Definition _prepare_content_soup (soup : node) : node :=
  let soup :=
    decompose_loop (fun _ => true)
      (List.filter (fun e => name_in STRIPPED_TAGS (fst e)) (located soup)) soup in
  decompose_loop _should_skip_element (located soup) soup.

(** ** Candidate scorer *)

Definition str_of_nat (n : nat) : string := NilEmpty.string_of_uint (Nat.to_uint n).

Definition len (s : string) : Z := Z.of_nat (String.length s).

(** One step of the loop of [_compute_dom_path]: the descriptor of
    [current], whose parent (if any) heads [up]. *)
Definition dom_descriptor (current : node) (up : crumbs) : string :=
  let index :=
    match up with
    | [] => 0%nat
    | (parent, i) :: _ =>
        length (List.filter (fun sib => is_tag sib && String.eqb (tag_name sib) (tag_name current))
                  (firstn i (contents parent)))
    end in
  let identifier := attr_str (tag_attrs current) "id" in
  let cls :=
    match attr_get (tag_attrs current) "class" with
    | Some (AList class_attr) => Py.join "." (firstn 2 class_attr)
    | _ => ""
    end in
  tag_name current
  ++ (if Py.nonempty identifier then "#" ++ identifier
      else if Py.nonempty cls then "." ++ cls else "")
  ++ "[" ++ str_of_nat index ++ "]".

Fixpoint dom_path_parts (fuel : nat) (current : node) (up : crumbs) : list string :=
  match fuel with
  | O => []
  | S fuel' =>
      dom_descriptor current up ::
      match up with
      | [] => []
      | (parent, _) :: up' => dom_path_parts fuel' parent up'
      end
  end.

Definition _compute_dom_path (element : node) (up : crumbs) : string :=
  Py.join " > " (dom_path_parts 5 element up).

Module Block.
(** The dictionary [_build_block_info] returns; [html] is the tag whose
    serialisation the code stores and later parses again. *)
Record t := mk {
  id : string;
  tag : string;
  classes : list string;
  dom_path : string;
  heading : string;
  paragraphs : list string;
  html : node;
  text_preview : string;
  word_count : Z;
  link_density : Q;
  score : Q
}.
End Block.

Definition _score_block (word_count : Z) (link_density : Q) (paragraph_count : Z)
    (heading : string) : Q :=
  let heading_bonus := if Py.nonempty heading then 125 # 100 else 1%Q in
  let paragraph_bonus := (1 + inject_Z (Z.min paragraph_count 5) * (1 # 10))%Q in
  let link_penalty := (1 - Qmin link_density (9 # 10))%Q in
  (inject_Z word_count * heading_bonus * paragraph_bonus * link_penalty)%Q.

(** [[clean_text(p.get_text()) for p in found if clean_text(p.get_text())]] *)
Definition clean_texts (found : list node) : list string :=
  List.filter Py.nonempty (map (fun p => clean_text (get_text p)) found).

Definition class_list (attrs : attr_map) : list string :=
  match attr_get attrs "class" with
  | Some (AList l) => l
  | Some (AStr s) => [s]
  | None => []
  end.

(** [idx] is the index already formatted: the decimal of the position
    for the scorer, [schema_i] for the schema strategy. *)
Definition _build_block_info (element : node) (up : crumbs) (idx : string)
  : option Block.t :=
  if negb (is_tag element) then None else
  let text := clean_text (get_text_sep element) in
  let word_count := Z.of_nat (length (Py.split text)) in
  if (word_count <? 40)%Z then None else
  let link_text :=
    Py.join " " (map (fun a => clean_text (get_text_sep a)) (find_all ["a"] element)) in
  let link_density := (inject_Z (len link_text) / inject_Z (Z.max (len text) 1))%Q in
  let paragraphs := clean_texts (find_all ["p"] element) in
  let heading_text :=
    match find ["h1"; "h2"; "h3"] element with
    | Some heading => clean_text (get_text heading)
    | None => ""
    end in
  let score :=
    _score_block word_count link_density (Z.of_nat (length paragraphs)) heading_text in
  Some {| Block.id := "block_" ++ idx;
          Block.tag := tag_name element;
          Block.classes := class_list (tag_attrs element);
          Block.dom_path := _compute_dom_path element up;
          Block.heading := heading_text;
          Block.paragraphs := paragraphs;
          Block.html := element;
          Block.text_preview :=
            Py.take 280 text ++ (if (280 <? len text)%Z then "..." else "");
          Block.word_count := word_count;
          Block.link_density := Py.round link_density 3;
          Block.score := Py.round score 2 |}.

(** [candidates.sort(key=score, reverse=True)]: stable, so that of two
    blocks with one score the one found first stays first. *)
Fixpoint insert_by_score (b : Block.t) (sorted : list Block.t) : list Block.t :=
  match sorted with
  | [] => [b]
  | c :: rest =>
      if Qle_bool (Block.score c) (Block.score b) then b :: sorted
      else c :: insert_by_score b rest
  end.

Definition sort_by_score (candidates : list Block.t) : list Block.t :=
  fold_right insert_by_score [] candidates.

Definition enumerate {A} (l : list A) : list (nat * A) :=
  combine (seq 0 (length l)) l.

Definition STRUCTURAL_TAGS : list string := ["article"; "main"; "section"; "div"].

Definition _extract_content_blocks (soup : node) : list Block.t :=
  let found := List.filter (fun e => name_in STRUCTURAL_TAGS (fst e)) (located soup) in
  let candidates :=
    flat_map
      (fun '(idx, (element, up)) =>
         if _should_skip_element element then []
         else match _build_block_info element up (str_of_nat idx) with
              | Some block => [block]
              | None => []
              end)
      (enumerate found) in
  firstn 10 (sort_by_score candidates).

(** ** Schema strategy *)

Inductive selector :=
  | AttrEquals (key value : string)     (* [key="value"] *)
  | AttrContains (key value : string)   (* [key*="value"] *)
  | TagIs (name : string)               (* name *)
  | HasClass (cls : string).            (* .cls *)

Definition selector_matches (sel : selector) (element : node) : bool :=
  match sel with
  | AttrEquals key value =>
      match attr_get (tag_attrs element) key with
      | Some _ => String.eqb (attr_str (tag_attrs element) key) value
      | None => false
      end
  | AttrContains key value =>
      match attr_get (tag_attrs element) key with
      | Some _ => Py.nonempty value && Py.contains value (attr_str (tag_attrs element) key)
      | None => false
      end
  | TagIs name => String.eqb (tag_name element) name
  | HasClass cls =>
      match attr_get (tag_attrs element) "class" with
      | Some (AList l) => existsb (String.eqb cls) l
      | Some (AStr s) => existsb (String.eqb cls) (Py.split s)
      | None => false
      end
  end.

(** [soup.select_one(selector)]: the first match in document order. *)
Definition select_one (sel : selector) (soup : node) : option (node * crumbs) :=
  List.find (fun e => selector_matches sel (fst e)) (located soup).

Definition SCHEMA_SELECTORS : list selector :=
  [ AttrEquals "itemprop" "articleBody";
    AttrContains "itemtype" "Article";
    TagIs "article";
    AttrEquals "role" "main";
    HasClass "article-body";
    HasClass "story__content";
    HasClass "article__content" ].

Fixpoint schema_probe (soup : node) (selectors : list (nat * selector)) : option Block.t :=
  match selectors with
  | [] => None
  | (idx, sel) :: rest =>
      match select_one sel soup with
      | Some (element, up) =>
          if negb (_should_skip_element element) then
            match _build_block_info element up ("schema_" ++ str_of_nat idx) with
            | Some block => Some block
            | None => schema_probe soup rest
            end
          else schema_probe soup rest
      | None => schema_probe soup rest
      end
  end.

Definition _extract_schema_block (soup : node) : option Block.t :=
  schema_probe soup (enumerate SCHEMA_SELECTORS).

(** ** Readability strategy *)

(** The values the dictionaries of the engine hold. [PHtml] is an HTML
    string ([summary_html], [html]) in parsed form; such a string is
    the serialisation of a tag, hence never empty. *)
Inductive pyval :=
  | PStr (s : string)
  | PInt (n : Z)
  | PFloat (x : Q)
  | PList (l : list string)
  | PHtml (fragment : node).

(** Truthiness of a dictionary: it has a key. *)
Definition dict_truthy (d : gmap string pyval) : bool :=
  negb (Nat.eqb (size d) 0).

(** [d.setdefault(key, value)] *)
Definition setdefault (key : string) (value : pyval) (d : gmap string pyval)
  : gmap string pyval :=
  match d !! key with
  | Some _ => d
  | None => <[key := value]> d
  end.

(** A value the code goes on to use as a number; [None] is the
    [TypeError] any other kind of value raises. Then [d.get(key, default)]
    for such a use. *)
Definition number_of (v : pyval) : option Q :=
  match v with
  | PInt n => Some (inject_Z n)
  | PFloat x => Some x
  | _ => None
  end.

Definition get_number (d : gmap string pyval) (key : string) (default : pyval) : option Q :=
  match d !! key with
  | None => number_of default
  | Some v => number_of v
  end.

(** The same for a string, a list of strings and an HTML string. *)
Definition get_str (d : gmap string pyval) (key : string) (default : string) : option string :=
  match d !! key with
  | None => Some default
  | Some (PStr s) => Some s
  | Some _ => None
  end.

(** [d.get(key)] for a string that may be missing. *)
Definition get_opt_str (d : gmap string pyval) (key : string) : option (option string) :=
  match d !! key with
  | None => Some None
  | Some (PStr s) => Some (Some s)
  | Some _ => None
  end.

Definition get_list (d : gmap string pyval) (key : string) : option (list string) :=
  match d !! key with
  | None => Some []
  | Some (PList l) => Some l
  | Some _ => None
  end.

Definition get_html (d : gmap string pyval) (key : string) : option (option node) :=
  match d !! key with
  | None => Some None
  | Some (PHtml fragment) => Some (Some fragment)
  | Some _ => None
  end.

Definition NL2 : string := String (ascii_of_nat 10) (String (ascii_of_nat 10) EmptyString).

(** The result is the integer 0 or a float. *)
Definition _estimate_reading_time (word_count : Q) : pyval :=
  if Qle_bool word_count 0 then PInt 0
  else PFloat (Py.round (Qmax (word_count / 200) (1 # 10)) 2).

Module Readable.
(** What the summarizer hands back for a page: [summary()] in parsed
    form, [title()] and [short_title()]. *)
Record t := mk {
  summary : node;
  title : string;
  short_title : string
}.
End Readable.

(** The dictionary [_extract_main_content] returns when the summary has
    text. *)
Definition readability_result (document : Readable.t) (paragraphs : list string)
    (text : string) (word_count : Z) : gmap string pyval :=
  <["source" := PStr "readability"]>
  (<["title" := PStr (clean_text (Readable.title document))]>
  (<["short_title" := PStr (clean_text (Readable.short_title document))]>
  (<["summary_html" := PHtml (Readable.summary document)]>
  (<["text" := PStr text]>
  (<["paragraphs" := PList paragraphs]>
  (<["word_count" := PInt word_count]>
  (<["reading_time_minutes" := _estimate_reading_time (inject_Z word_count)]>
  (<["confidence" := PFloat (Qmin (95 # 100) ((6 # 10) + inject_Z word_count / 1500))]>
   ∅)))))))).

(** [_extract_main_content]; [None] is the summarizer raising, which the
    code catches. *)
Definition _extract_main_content (document : option Readable.t) : gmap string pyval :=
  match document with
  | None => ∅
  | Some document =>
      let summary_soup := Readable.summary document in
      let paragraphs := clean_texts (find_all ["p"; "li"] summary_soup) in
      let text := Py.strip (Py.join NL2 paragraphs) in
      if negb (Py.nonempty text) then ∅
      else readability_result document paragraphs text
             (Z.of_nat (length (Py.split text)))
  end.

(** ** Content arbiter *)

Definition heuristic_content (best : Block.t) (fallback_title : string)
  : gmap string pyval :=
  let text :=
    Py.or_else (Py.strip (Py.join NL2 (Block.paragraphs best))) (Block.text_preview best) in
  let word_count :=
    if (Block.word_count best =? 0)%Z then Z.of_nat (length (Py.split text))
    else Block.word_count best in
  <["source" := PStr "heuristic"]>
  (<["title" := PStr (Py.or_else (Block.heading best) fallback_title)]>
  (<["text" := PStr text]>
  (<["paragraphs" := PList (Block.paragraphs best)]>
  (<["word_count" := PInt word_count]>
  (<["score" := PFloat (Block.score best)]>
  (<["dom_path" := PStr (Block.dom_path best)]>
  (<["html" := PHtml (Block.html best)]>
  (<["reading_time_minutes" := _estimate_reading_time (inject_Z word_count)]>
  (<["confidence" :=
       PFloat (Qmin (85 # 100) ((4 # 10) + Qmin (Block.score best / 1500) (45 # 100)))]>
   ∅))))))))).

Definition unknown_content (fallback_title : string) : gmap string pyval :=
  <["source" := PStr "unknown"]>
  (<["title" := PStr fallback_title]>
  (<["text" := PStr ""]>
  (<["paragraphs" := PList []]>
  (<["word_count" := PInt 0]>
  (<["reading_time_minutes" := PInt 0]>
  (<["confidence" := PFloat (2 # 10)]> ∅)))))).

Definition _choose_main_content (readability_content : gmap string pyval)
    (blocks : list Block.t) (fallback_title : string) : option (gmap string pyval) :=
  readability_words ←
    (if dict_truthy readability_content
     then get_number readability_content "word_count" (PInt 0)
     else Some 0%Q);
  if dict_truthy readability_content && Qle_bool 80 readability_words then
    Some (setdefault "title" (PStr fallback_title) readability_content)
  else
    match blocks with
    | best :: _ => Some (heuristic_content best fallback_title)
    | [] =>
        Some (if dict_truthy readability_content then readability_content
              else unknown_content fallback_title)
    end.

(** ** Metadata, media and link derivers; the assembler *)

Module Link.
Record t := mk { text : string; href : string; is_external : bool; title : string }.
End Link.

Module Image.
Record t := mk { src : string; alt : string; title : string }.
End Image.

Module Media.
Record t := mk {
  hero_image : option string;
  gallery : list Image.t;
  videos : list string
}.
End Media.

Module Body.
Record t := mk {
  text : string;
  paragraphs : list string;
  word_count : Q;
  reading_time_minutes : Q;
  source : option string;
  html : option node
}.
End Body.

Module Stats.
Record t := mk {
  confidence : Q;
  paragraph_count : nat;
  has_media : bool;
  has_links : bool
}.
End Stats.

Module Article.
(** The article of [_build_article_section], without the entries read
    from the page alone ([subtitle], [section], [authors], the dates,
    [keywords], [tags]) and without [lists] and [tables]. *)
Record t := mk {
  title : string;
  excerpt : string;
  body : Body.t;
  media : Media.t;
  links : list Link.t;
  stats : Stats.t
}.
End Article.

Module Summary.
Record t := mk {
  id : string; heading : string; word_count : Z; score : Q; dom_path : string
}.
End Summary.

Module Context.
Record t := mk {
  headings : list (string * list string);
  related_links : list Link.t;
  candidates : list Summary.t
}.
End Context.

Module Parsed.
Record t := mk {
  title : string;
  base_url : string;
  domain : string;
  meta : gmap string string;
  article : Article.t;
  context : Context.t
}.
End Parsed.

(** [tag.string] *)
Fixpoint dot_string (n : node) : option string :=
  match n with
  | Text s => Some s
  | Elem _ _ [c] => dot_string c
  | Elem _ _ _ => None
  end.

Definition has_attr (key : string) (n : node) : bool :=
  match attr_get (tag_attrs n) key with Some _ => true | None => false end.

(** [a or b or ...] over the values of a map of strings. *)
Fixpoint first_truthy (meta : gmap string string) (keys : list string) : string :=
  match keys with
  | [] => ""
  | key :: rest =>
      match meta !! key with
      | Some v => if Py.nonempty v then v else first_truthy meta rest
      | None => first_truthy meta rest
      end
  end.

Definition _extract_meta (soup : node) : gmap string string :=
  fold_left
    (fun meta_tags tag =>
       let a := tag_attrs tag in
       if Py.nonempty (attr_str a "name") && Py.nonempty (attr_str a "content")
       then <[attr_str a "name" := attr_str a "content"]> meta_tags
       else if Py.nonempty (attr_str a "property") && Py.nonempty (attr_str a "content")
       then <[attr_str a "property" := attr_str a "content"]> meta_tags
       else if Py.nonempty (attr_str a "charset")
       then <["charset" := attr_str a "charset"]> meta_tags
       else meta_tags)
    (find_all ["meta"] soup) ∅.

Definition _extract_headings (soup : node) : list (string * list string) :=
  map (fun level =>
         let name := ("h" ++ str_of_nat level)%string in
         (name, map (fun h => clean_text (get_text h)) (find_all [name] soup)))
      (seq 1 6).

Definition _summarize_blocks (blocks : list Block.t) : list Summary.t :=
  map (fun b => Summary.mk (Block.id b) (Block.heading b) (Block.word_count b)
                  (Block.score b) (Block.dom_path b))
      (firstn 5 blocks).

Section Derivers.

(** [urllib.parse.urljoin] and [urlparse(url).netloc]. *)
Variable urljoin : string -> string -> string.
Variable netloc : string -> string.

(** The loop of [_extract_links]: [links] is the list built so far. *)
Fixpoint extract_links_loop (base_url : string) (limit : Z) (found : list node)
    (links : list Link.t) : list Link.t :=
  match found with
  | [] => links
  | link :: rest =>
      let href := attr_str (tag_attrs link) "href" in
      let absolute_url := urljoin base_url href in
      let links' :=
        links ++ [ Link.mk (clean_text (get_text link)) absolute_url
                     (negb (String.eqb (netloc base_url) (netloc absolute_url)))
                     (attr_str (tag_attrs link) "title") ] in
      if (limit <=? Z.of_nat (length links'))%Z then links'
      else extract_links_loop base_url limit rest links'
  end.

Definition _extract_links (soup : node) (base_url : string) (limit : Z) : list Link.t :=
  extract_links_loop base_url limit
    (List.filter (has_attr "href") (find_all ["a"] soup)) [].

(** [main_content.get('summary_html') or main_content.get('html')] *)
Definition content_fragment (main_content : gmap string pyval) : option (option node) :=
  summary_html ← get_html main_content "summary_html";
  match summary_html with
  | Some fragment => Some (Some fragment)
  | None => get_html main_content "html"
  end.

Definition _extract_links_from_main (main_content : gmap string pyval) (base_url : string)
  : option (list Link.t) :=
  html_fragment ← content_fragment main_content;
  match html_fragment with
  | None => Some []
  | Some soup => Some (_extract_links soup base_url 40)
  end.

Definition fragment_gallery (base_url : string) (fragment_soup : node) : list Image.t :=
  flat_map
    (fun img =>
       let src := Py.or_else (attr_str (tag_attrs img) "src")
                             (attr_str (tag_attrs img) "data-src") in
       if Py.nonempty src
       then [ Image.mk (urljoin base_url src)
                (clean_text (attr_str (tag_attrs img) "alt"))
                (clean_text (attr_str (tag_attrs img) "title")) ]
       else [])
    (find_all ["img"] fragment_soup).

Definition fragment_videos (base_url : string) (fragment_soup : node) : list string :=
  flat_map
    (fun video =>
       let src :=
         match find ["source"] video with
         | Some source => attr_str (tag_attrs source) "src"
         | None => attr_str (tag_attrs video) "src"
         end in
       if Py.nonempty src then [urljoin base_url src] else [])
    (find_all ["video"] fragment_soup).

(** [soup.find('iframe', attrs={'src': True})] *)
Definition find_iframe (soup : node) : option node :=
  hd_error (List.filter (has_attr "src") (find_all ["iframe"] soup)).

Definition _extract_article_media (main_content : gmap string pyval)
    (meta : gmap string string) (base_url : string) (soup : node) : option Media.t :=
  let hero := first_truthy meta ["og:image"; "twitter:image"; "image_thumb_src"] in
  let hero_image := if Py.nonempty hero then Some (urljoin base_url hero) else None in
  fragment ← content_fragment main_content;
  let gallery :=
    match fragment with
    | Some fragment_soup => fragment_gallery base_url fragment_soup
    | None => []
    end in
  let videos :=
    match fragment with
    | Some fragment_soup => fragment_videos base_url fragment_soup
    | None => []
    end in
  let videos :=
    match find_iframe soup with
    | Some iframe => videos ++ [urljoin base_url (attr_str (tag_attrs iframe) "src")]
    | None => videos
    end in
  Some (Media.mk hero_image (firstn 5 gallery) (firstn 3 videos)).

Definition list_truthy {A} (l : list A) : bool :=
  match l with [] => false | _ => true end.

Definition _build_article_section (readability_content : gmap string pyval)
    (blocks : list Block.t) (fallback_title : string) (meta : gmap string string)
    (content_soup : node) (base_url : string) : option Article.t :=
  main_content ← _choose_main_content readability_content blocks fallback_title;
  let metadata_title := first_truthy meta ["og:title"; "twitter:title"; "title"] in
  let metadata_excerpt := first_truthy meta ["description"; "og:description"] in
  media ← _extract_article_media main_content meta base_url content_soup;
  paragraphs ← get_list main_content "paragraphs";
  let excerpt_value :=
    Py.or_else metadata_excerpt (match paragraphs with p :: _ => p | [] => "" end) in
  article_links ← _extract_links_from_main main_content base_url;
  text ← get_str main_content "text" "";
  word_count ← get_number main_content "word_count" (PInt 0);
  reading_time ←
    get_number main_content "reading_time_minutes" (_estimate_reading_time word_count);
  source ← get_opt_str main_content "source";
  html ← content_fragment main_content;
  confidence ← get_number main_content "confidence" (PFloat (4 # 10));
  title ← get_str main_content "title" "";
  let body := Body.mk (Py.strip text) paragraphs word_count reading_time source html in
  let stats :=
    Stats.mk (Py.round confidence 2) (length paragraphs)
      (match Media.hero_image media with Some hero => Py.nonempty hero | None => false end
       || list_truthy (Media.videos media))
      (list_truthy article_links) in
  Some (Article.mk
          (Py.or_else title (Py.or_else metadata_title fallback_title))
          (if Py.nonempty excerpt_value then clean_text excerpt_value else "")
          body media article_links stats).

(** The loop of [_build_related_links]. *)
Fixpoint related_links_loop (seen : list string) (links : list Link.t)
    (related : list Link.t) : list Link.t :=
  match links with
  | [] => related
  | link :: rest =>
      if existsb (String.eqb (Link.href link)) seen || negb (Py.nonempty (Link.text link))
      then related_links_loop seen rest related
      else
        let related' := related ++ [link] in
        if (15 <=? length related')%nat then related'
        else related_links_loop seen rest related'
  end.

Definition _build_related_links (soup : node) (base_url : string)
    (primary_links : list Link.t) : list Link.t :=
  related_links_loop (map Link.href primary_links) (_extract_links soup base_url 60) [].

Definition _build_page_context (soup : node) (base_url : string)
    (article_section : Article.t) (blocks : list Block.t) : Context.t :=
  Context.mk (_extract_headings soup)
    (_build_related_links soup base_url (Article.links article_section))
    (_summarize_blocks blocks).

(** The list [content_blocks] of [parse_html] at the moment it is handed
    to [_build_article_section]. *)
Definition content_blocks (content_soup : node) : list Block.t :=
  let content_blocks := _extract_content_blocks content_soup in
  match _extract_schema_block content_soup with
  | Some schema_block => schema_block :: content_blocks
  | None => content_blocks
  end.

(** [clean_text(soup.title.string) if soup.title else ""] *)
Definition page_title (soup : node) : string :=
  match find ["title"] soup with
  | Some t => match dot_string t with Some s => clean_text s | None => "" end
  | None => ""
  end.

(** [parse_html] from the parsed page on: [soup] is what the parser
    makes of [html_content], [document] what the summarizer makes of it. *)
Definition parse_html (soup : node) (document : option Readable.t) (url : string)
  : option Parsed.t :=
  let content_soup := _prepare_content_soup soup in
  let title := page_title soup in
  let meta := _extract_meta soup in
  let readability_content := _extract_main_content document in
  let blocks := content_blocks content_soup in
  article_section ←
    _build_article_section readability_content blocks title meta content_soup url;
  Some (Parsed.mk title url (netloc url) meta article_section
          (_build_page_context content_soup url article_section blocks)).

End Derivers.

(** ** Further string operations *)

(** [s.split(sep)] for a separator of one character: the pieces between
    the separators, the empty ones included. *)
Fixpoint split_on_go (sep : ascii) (cur : list ascii) (s : string) : list string :=
  match s with
  | EmptyString => [string_of_list_ascii (List.rev cur)]
  | String c s' =>
      if Ascii.eqb c sep then string_of_list_ascii (List.rev cur) :: split_on_go sep [] s'
      else split_on_go sep (c :: cur) s'
  end.

Definition split_on (sep : ascii) (s : string) : list string := split_on_go sep [] s.

(** [s.lstrip(chars)], [s.rstrip(chars)], [s.strip(chars)], the set of
    characters given as a test. *)
Fixpoint lstrip_chars (p : ascii -> bool) (s : string) : string :=
  match s with
  | EmptyString => EmptyString
  | String c s' => if p c then lstrip_chars p s' else s
  end.

Fixpoint rstrip_chars (p : ascii -> bool) (s : string) : string :=
  match s with
  | EmptyString => EmptyString
  | String c s' =>
      match rstrip_chars p s' with
      | EmptyString => if p c then EmptyString else String c EmptyString
      | r => String c r
      end
  end.

Definition strip_chars (p : ascii -> bool) (s : string) : string :=
  rstrip_chars p (lstrip_chars p s).

(** [_split_meta_values] of [html_parser.py]; [None] is a missing value. *)
Definition _split_meta_values (value : option string) : list string :=
  match value with
  | None => []
  | Some value =>
      if Py.nonempty value
      then List.filter Py.nonempty (map Py.strip (split_on "," value))
      else []
  end.

(** ** The command line: [scraper.py] *)

(** The class [[A-Za-z0-9._-]] of [sanitize_slug]. *)
Definition slug_char (c : ascii) : bool :=
  let n := nat_of_ascii c in
  (Nat.leb 65 n && Nat.leb n 90) || (Nat.leb 97 n && Nat.leb n 122)
  || (Nat.leb 48 n && Nat.leb n 57)
  || Ascii.eqb c "." || Ascii.eqb c "_" || Ascii.eqb c "-".

(** [re.sub(r"[^A-Za-z0-9._-]+", "_", s)]: every maximal run of
    characters outside the class becomes one underscore. [in_run] tells
    that the character before was outside the class. *)
Fixpoint sub_runs (in_run : bool) (s : string) : string :=
  match s with
  | EmptyString => EmptyString
  | String c s' =>
      if slug_char c then String c (sub_runs false s')
      else if in_run then sub_runs true s'
      else String "_" (sub_runs true s')
  end.

Definition sanitize_slug (value : string) : string :=
  let trimmed := strip_chars (Ascii.eqb "/") value in
  if negb (Py.nonempty trimmed) then ""
  else
    let normalized := sub_runs false trimmed in
    Py.or_else (strip_chars (Ascii.eqb "_") normalized) "".

(** Where a result is written: the path given on the command line, or a
    file of the output directory. *)
Inductive output_path :=
  | CustomPath (path : string)
  | InDirectory (output_dir filename : string).

(** [determine_output_path]. [content_domain] is
    [data.get("content", {}).get("domain")], [url_netloc] and [url_path]
    are the two parts [urlparse(url)] gives, [ts] is the time stamp
    [datetime.now().strftime("%Y%m%d_%H%M%S")]. *)
Definition determine_output_path (custom_output : option string) (output_dir : string)
    (content_domain : option string) (url_netloc url_path ts : string) (index : nat)
  : output_path :=
  let in_directory :=
    let domain :=
      Py.or_else (default "" content_domain) (Py.or_else url_netloc "output") in
    let slug := Py.or_else (sanitize_slug url_path) "page" in
    InDirectory output_dir
      ("scrape_" ++ sanitize_slug domain ++ "_" ++ slug ++ "_" ++ ts ++ "_"
       ++ str_of_nat index ++ ".json") in
  match custom_output with
  | Some custom => if Py.nonempty custom then CustomPath custom else in_directory
  | None => in_directory
  end.

(** ** Authors, lists, tables and user agents *)

(** [soup.select(selectors)]: the tags one of the selectors matches, in
    document order. *)
Definition select (selectors : list selector) (soup : node) : list node :=
  List.filter (fun element => existsb (fun sel => selector_matches sel element) selectors)
    (descendants soup).

Definition AUTHOR_SELECTORS : list selector :=
  [ AttrEquals "itemprop" "author";
    HasClass "author-name";
    HasClass "byline";
    AttrEquals "rel" "author" ].

(** [list(dict.fromkeys(items))]: the keys of a dictionary keep the
    order in which they came in first. *)
Fixpoint fromkeys_loop (keys items : list string) : list string :=
  match items with
  | [] => keys
  | item :: rest =>
      if existsb (String.eqb item) keys then fromkeys_loop keys rest
      else fromkeys_loop (keys ++ [item]) rest
  end.

Definition fromkeys (items : list string) : list string := fromkeys_loop [] items.

Definition _find_authors (soup : node) (meta : gmap string string) : list string :=
  let meta_candidates :=
    [meta !! "author"; meta !! "article:author"; meta !! "parsely-author"] in
  let authors :=
    flat_map
      (fun candidate =>
         match candidate with
         | Some candidate =>
             if Py.nonempty candidate
             then List.filter Py.nonempty (map Py.strip (split_on "," candidate))
             else []
         | None => []
         end)
      meta_candidates in
  if list_truthy authors then fromkeys authors
  else
    fromkeys
      (flat_map
         (fun element =>
            let text := clean_text (get_text element) in
            if Py.nonempty text && negb (existsb (String.eqb (Py.lower text)) ["di"; "by"])
            then [text] else [])
         (select AUTHOR_SELECTORS soup)).

Module Lists.
Record t := mk { ul : list (list string); ol : list (list string) }.
End Lists.

(** The comprehension of [_extract_lists]. *)
Definition list_items (l : node) : list string :=
  List.filter Py.nonempty (map (fun li => clean_text (get_text li)) (find_all ["li"] l)).

(** [_extract_lists]; [None] is an empty fragment, [Some] the fragment
    in parsed form. *)
Definition _extract_lists (html_fragment : option node) : Lists.t :=
  match html_fragment with
  | None => Lists.mk [] []
  | Some soup =>
      let lists_of name :=
        flat_map
          (fun l => let items := list_items l in if list_truthy items then [items] else [])
          (find_all [name] soup) in
      Lists.mk (lists_of "ul") (lists_of "ol")
  end.

Module Table.
Record t := mk { id : nat; headers : list string; rows : list (list string) }.
End Table.

Definition _extract_tables (html_fragment : option node) : list Table.t :=
  match html_fragment with
  | None => []
  | Some soup =>
      map
        (fun '(i, table) =>
           Table.mk i
             (map (fun h => clean_text (get_text h)) (find_all ["th"] table))
             (flat_map
                (fun row =>
                   let row_data :=
                     map (fun cell => clean_text (get_text cell))
                       (find_all ["td"; "th"] row) in
                   if list_truthy row_data then [row_data] else [])
                (find_all ["tr"] table)))
        (enumerate (find_all ["table"] soup))
  end.

Definition REALISTIC_USER_AGENTS : list string :=
  [ "Mozilla/5.0 (Windows NT 10.0; Win64; x64) AppleWebKit/537.36 (KHTML, like Gecko) Chrome/124.0.0.0 Safari/537.36";
    "Mozilla/5.0 (Macintosh; Intel Mac OS X 13_5) AppleWebKit/605.1.15 (KHTML, like Gecko) Version/17.0 Safari/605.1.15";
    "Mozilla/5.0 (X11; Linux x86_64) AppleWebKit/537.36 (KHTML, like Gecko) Chrome/123.0.6312.86 Safari/537.36";
    "Mozilla/5.0 (Windows NT 10.0; Win64; x64; rv:124.0) Gecko/20100101 Firefox/124.0";
    "Mozilla/5.0 (Macintosh; Intel Mac OS X 13_6) AppleWebKit/537.36 (KHTML, like Gecko) Chrome/123.0.0.0 Safari/537.36" ].

(** The argument [user_agent] of the parser: a string, a sequence, whose
    items are strings or something else ([None] here), or a value that
    is neither. *)
Inductive user_agent_arg :=
  | OneUserAgent (user_agent : string)
  | UserAgents (items : list (option string))
  | NoUserAgent.

Definition _normalize_user_agents (user_agent : user_agent_arg) : list string :=
  let ua_list :=
    match user_agent with
    | OneUserAgent user_agent =>
        if Py.nonempty (Py.strip user_agent) then [Py.strip user_agent] else []
    | UserAgents items =>
        flat_map
          (fun ua =>
             match ua with
             | Some ua => if Py.nonempty (Py.strip ua) then [Py.strip ua] else []
             | None => []
             end)
          items
    | NoUserAgent => []
    end in
  if list_truthy ua_list then ua_list else REALISTIC_USER_AGENTS.

(** ** Notions used in the statements *)

(** The tree without the tags [p] accepts and without what is below
    them. *)
Fixpoint decompose_all (p : node -> bool) (n : node) : node :=
  match n with
  | Text s => Text s
  | Elem name attrs cs =>
      Elem name attrs
        (flat_map (fun c => if p c then [] else [decompose_all p c]) cs)
  end.

(** A predicate that reads the name and the attributes of a tag only. *)
Definition shallow (p : node -> bool) : Prop :=
  forall name attrs cs cs', p (Elem name attrs cs) = p (Elem name attrs cs').

(** A list of places that holds, below a tag, exactly the places of the
    tags [p] accepts. *)
Definition marks (p : node -> bool) (decomposed : list (list nat))
    (listed : list (node * crumbs)) (here : list nat) (i : nat) : Prop :=
  (forall q k, q ∈ decomposed -> (i <= k)%nat -> (k :: here) `suffix_of` q ->
     exists e up', In (e, up') listed /\ p e = true /\ place_of up' = q)
  /\ (forall e up', In (e, up') listed -> p e = true -> place_of up' ∈ decomposed).

(** The number of words of the whitespace-collapsed visible text. *)
Definition visible_words (element : node) : Z :=
  Z.of_nat (length (Py.split (clean_text (get_text_sep element)))).

(** The origin of a candidate: a tag of the tree, not skipped, which
    [_build_block_info] turned into the block. *)
Definition built_from (soup : node) (block : Block.t) : Prop :=
  exists element up idx,
    In (element, up) (located soup)
    /\ _should_skip_element element = false
    /\ _build_block_info element up idx = Some block.

(** The three dictionaries the arbiter can return on the output of
    [_extract_main_content]. *)
Inductive chosen_content (blocks : list Block.t) (fallback_title : string)
  : gmap string pyval -> Prop :=
  | chosen_readability document paragraphs text word_count :
      (0 <= word_count)%Z ->
      chosen_content blocks fallback_title
        (readability_result document paragraphs text word_count)
  | chosen_heuristic best rest :
      blocks = best :: rest ->
      chosen_content blocks fallback_title (heuristic_content best fallback_title)
  | chosen_unknown :
      blocks = [] ->
      chosen_content blocks fallback_title (unknown_content fallback_title).

(** A word: not empty, no white space in it. *)
Definition is_word (w : string) : Prop :=
  w <> "" /\ forall c, In c (list_ascii_of_string w) -> Py.isspace c = false.

(** Nothing to strip at the left end. *)
Definition left_clean (p : ascii -> bool) (s : string) : Prop :=
  match s with
  | EmptyString => True
  | String c _ => p c = false
  end.

(** An entry as [_split_meta_values] returns them: not empty, stripped,
    without comma. *)
Definition is_entry (item : string) : Prop :=
  item <> "" /\ Py.strip item = item
  /\ forall c, In c (list_ascii_of_string item) -> Ascii.eqb c "," = false.

(** Made of the characters a slug may have. *)
Definition slug_safe (s : string) : Prop :=
  forall c, In c (list_ascii_of_string s) -> slug_char c = true.

(** Ranked: no block scores less than one that follows it. *)
Definition ranked (blocks : list Block.t) : Prop :=
  StronglySorted (fun a b => (Block.score b <= Block.score a)%Q) blocks.

(** The tags the scorer turns into a block. *)
Definition is_candidate (e : node * crumbs) : bool :=
  name_in STRUCTURAL_TAGS (fst e) && negb (_should_skip_element (fst e))
  && (40 <=? visible_words (fst e))%Z.

(** A paragraph as the engine keeps them: clean and not empty. *)
Definition is_paragraph (p : string) : Prop := p <> "" /\ clean_text p = p.

(** The confidence the arbiter gives a block of a given score, and the
    one [_extract_main_content] gives a summary of a given word count. *)
Definition heuristic_confidence (score : Q) : Q :=
  Qmin (85 # 100) ((4 # 10) + Qmin (score / 1500) (45 # 100)).

Definition readability_confidence (word_count : Z) : Q :=
  Qmin (95 # 100) ((6 # 10) + inject_Z word_count / 1500).

(** The entry [_extract_links] makes of an anchor. *)
Definition anchor_link (urljoin : string -> string -> string) (netloc : string -> string)
    (base_url : string) (link : node) : Link.t :=
  let absolute_url := urljoin base_url (attr_str (tag_attrs link) "href") in
  Link.mk (clean_text (get_text link)) absolute_url
    (negb (String.eqb (netloc base_url) (netloc absolute_url)))
    (attr_str (tag_attrs link) "title").

(** The links [_build_related_links] does not pass over. *)
Definition related_candidate (seen : list string) (link : Link.t) : bool :=
  negb (existsb (String.eqb (Link.href link)) seen || negb (Py.nonempty (Link.text link))).

(** The entry [_extract_meta] takes from a meta tag, if it takes one. *)
Definition meta_entry (tag : node) : option (string * string) :=
  let a := tag_attrs tag in
  if Py.nonempty (attr_str a "name") && Py.nonempty (attr_str a "content")
  then Some (attr_str a "name", attr_str a "content")
  else if Py.nonempty (attr_str a "property") && Py.nonempty (attr_str a "content")
  then Some (attr_str a "property", attr_str a "content")
  else if Py.nonempty (attr_str a "charset")
  then Some ("charset", attr_str a "charset")
  else None.

(** One turn of the loop of [_extract_meta]. *)
Definition meta_step (meta_tags : gmap string string) (tag : node) : gmap string string :=
  match meta_entry tag with
  | Some (key, value) => <[key := value]> meta_tags
  | None => meta_tags
  end.

(** A way up that starts at [child]: each entry is the parent of the tag
    before it, with the position of that tag among its contents. *)
Fixpoint way_up (child : node) (up : crumbs) : Prop :=
  match up with
  | [] => True
  | (parent, i) :: up' => nth_error (contents parent) i = Some child /\ way_up parent up'
  end.

(** The tags a candidate block can come from: the tags the scorer
    looks at and the tags a selector of the schema strategy matches. *)
Definition candidate_tag (element : node) : bool :=
  name_in STRUCTURAL_TAGS element
  || existsb (fun sel => selector_matches sel element) SCHEMA_SELECTORS.

(** ** Sample pages *)

(** [n] words. *)
Fixpoint lorem (n : nat) : string :=
  match n with
  | O => ""
  | S n' => "word " ++ lorem n'
  end.

(** [inner] wrapped in [n] divs. *)
Definition nest (n : nat) (inner : node) : node :=
  Nat.iter n (fun c => Elem "div" [] [c]) inner.

Definition page (body : list node) : node :=
  Elem "[document]" [] [Elem "html" [] [Elem "body" [] body]].

(** A page of ten nested divs around an article of 40 words. *)
Definition crowded_page : node :=
  page [nest 10 (Elem "article" [] [Elem "p" [] [Text (lorem 40)]])].

(** The two functions of [urllib] on the URLs of the samples: every
    reference there is absolute already, and all are on one host. *)
Definition sample_urljoin (base url : string) : string := url.
Definition sample_netloc (url : string) : string := "example.com".

(** A summary of three words. *)
Definition short_summary : Readable.t :=
  Readable.mk (Elem "[document]" [] [Elem "p" [] [Text "just three words"]]) "Title" "Title".

(** A page whose only text is that paragraph. *)
Definition short_page : node := page [Elem "p" [] [Text "just three words"]].

(** A page with one paragraph of 40 words, of class [article-body], and
    no article, main, section or div. *)
Definition schema_only_page : node :=
  page [Elem "p" [("class", AList ["article-body"])] [Text (lorem 40)]].

(** A page of two divs of 30 words each: 60 words in all, and no tag a
    candidate can come from has 40. *)
Definition two_divs_page : node :=
  page [Elem "div" [] [Text (lorem 30)]; Elem "div" [] [Text (lorem 30)]].

(** A page with an iframe that has a src, next to a short paragraph. *)
Definition iframe_page : node :=
  page [ Elem "iframe" [("src", AStr "https://player.example.com/embed/1")] [];
         Elem "p" [] [Text "just three words"] ].

(** ** Tactics *)

Ltac q_compare_facts :=
  repeat match goal with
  | H : (_ ?= _)%Q = Eq |- _ => apply (proj2 (Qeq_alt _ _)) in H
  | H : (_ ?= _)%Q = Lt |- _ => apply (proj2 (Qlt_alt _ _)) in H
  | H : (_ ?= _)%Q = Gt |- _ => apply (proj2 (Qgt_alt _ _)) in H
  end.

(** Linear arithmetic once the divisions by 1500 are written as
    products. *)
Ltac q_linear :=
  unfold Qdiv in *; change (/ 1500)%Q with (1 # 1500)%Q in *; lra.

(** Membership in a literal made of slug characters. *)
Ltac slug_literal :=
  let c := fresh "c" in
  let Hc := fresh "Hc" in
  intros c Hc; simpl in Hc;
  repeat (destruct Hc as [<- | Hc]; [reflexivity|]); destruct Hc.

(** * Properties *)

(** ** Trees *)

Lemma descendants_elem name attrs cs :
  descendants (Elem name attrs cs) = flat_map self_and_descendants cs.
Proof. reflexivity. Qed.

Lemma self_and_descendants_tag n e :
  In e (self_and_descendants n) -> is_tag e = true.
Proof.
  induction n as [s | name attrs cs IH] using node_ind; simpl; [tauto|].
  intros [<- | Hin]; [reflexivity|].
  apply in_flat_map in Hin as (c & Hc & He).
  rewrite List.Forall_forall in IH. eauto.
Qed.

Lemma shallow_should_skip : shallow _should_skip_element.
Proof. intros name attrs cs cs'. reflexivity. Qed.

Lemma shallow_name_in names : shallow (name_in names).
Proof. intros name attrs cs cs'. reflexivity. Qed.

Lemma decompose_children_cons (p : node -> bool) c cs :
  flat_map (fun c => if p c then [] else [decompose_all p c]) (c :: cs)
  = (if p c then [] else [decompose_all p c])
    ++ flat_map (fun c => if p c then [] else [decompose_all p c]) cs.
Proof. reflexivity. Qed.

(** What is left after [decompose_all p] is a tag the tree had, up to
    its children, and one [p] rejects. *)
Lemma decompose_all_descendants p q n :
  shallow q ->
  Forall (fun e => q e = false) (self_and_descendants n) ->
  Forall (fun e => q e = false) (self_and_descendants (decompose_all p n)).
Proof.
  intros Hq.
  induction n as [s | name attrs cs IH] using node_ind; simpl; [constructor|].
  intros H. inversion H as [|? ? Hself Hrest]; subst.
  constructor; [rewrite <- Hself; apply Hq|].
  clear Hself H.
  induction cs as [|c cs IHcs]; [constructor|].
  simpl in Hrest. apply Forall_app in Hrest as [Hc Hcs].
  inversion IH as [|? ? IHc IHrest]; subst.
  rewrite decompose_children_cons, flat_map_app.
  apply Forall_app. split; [|auto].
  destruct (p c); simpl; [constructor|].
  rewrite app_nil_r. auto.
Qed.

Lemma decompose_all_clean p n :
  shallow p ->
  Forall (fun e => p e = false) (descendants (decompose_all p n)).
Proof.
  intros Hp.
  induction n as [s | name attrs cs IH] using node_ind; simpl; [constructor|].
  rewrite descendants_elem.
  induction cs as [|c cs IHcs]; [constructor|].
  inversion IH as [|? ? IHc IHrest]; subst.
  rewrite decompose_children_cons, flat_map_app.
  apply Forall_app. split; [|auto].
  destruct (p c) eqn:Hpc; simpl; [constructor|].
  rewrite app_nil_r.
  destruct c as [s | cname cattrs ccs]; simpl; [constructor|].
  constructor.
  - rewrite <- Hpc. apply Hp.
  - exact IHc.
Qed.

Lemma decompose_all_id p n :
  (forall s, p (Text s) = false) ->
  Forall (fun e => p e = false) (descendants n) ->
  decompose_all p n = n.
Proof.
  intros Htext.
  induction n as [s | name attrs cs IH] using node_ind; simpl; [reflexivity|].
  intros H. f_equal. rewrite descendants_elem in H.
  induction cs as [|c cs IHcs]; [reflexivity|].
  simpl in H. apply Forall_app in H as [Hc Hcs].
  inversion IH as [|? ? IHc IHrest]; subst.
  assert (Hpc : p c = false).
  { destruct c; [apply Htext|]. simpl in Hc. inversion Hc; auto. }
  rewrite decompose_children_cons, Hpc. simpl. f_equal; [|auto].
  apply IHc. destruct c; simpl in *; [constructor|].
  inversion Hc; auto.
Qed.

Lemma decompose_all_keeps p q n :
  shallow q ->
  Forall (fun e => q e = false) (descendants n) ->
  Forall (fun e => q e = false) (descendants (decompose_all p n)).
Proof.
  intros Hq. destruct n as [s | name attrs cs]; simpl; [constructor|].
  rewrite !descendants_elem.
  induction cs as [|c cs IHcs]; [constructor|].
  intros H. simpl in H. apply Forall_app in H as [Hc Hcs].
  rewrite decompose_children_cons, flat_map_app.
  apply Forall_app. split; [|auto].
  destruct (p c); simpl; [constructor|].
  rewrite app_nil_r. apply decompose_all_descendants; assumption.
Qed.

Lemma located_from_elem up name attrs cs :
  located_from up (Elem name attrs cs)
  = (Elem name attrs cs, up) :: located_below (Elem name attrs cs) up 0 cs.
Proof.
  simpl. f_equal. generalize (Elem name attrs cs) as parent. generalize 0%nat.
  induction cs as [|c cs IH]; intros i parent; simpl; [reflexivity|].
  f_equal. apply IH.
Qed.

Lemma located_from_fst up n : map fst (located_from up n) = self_and_descendants n.
Proof.
  revert up. induction n as [s | name attrs cs IH] using node_ind; intros up; [reflexivity|].
  rewrite located_from_elem. simpl. f_equal.
  generalize 0%nat. generalize (Elem name attrs cs) as parent.
  induction cs as [|c cs IHcs]; intros parent i; simpl; [reflexivity|].
  inversion IH as [|? ? IHc IHrest]; subst.
  rewrite map_app, IHc. f_equal. apply IHcs, IHrest.
Qed.

Lemma located_below_fst parent up i cs :
  map fst (located_below parent up i cs) = flat_map self_and_descendants cs.
Proof.
  revert i. induction cs as [|c cs IH]; intros i; simpl; [reflexivity|].
  rewrite map_app, located_from_fst, IH. reflexivity.
Qed.

(** The tags [located] walks are those of [find_all(True)], in order. *)
Lemma located_fst soup : map fst (located soup) = descendants soup.
Proof. apply located_below_fst. Qed.

Lemma located_in_descendants soup e up :
  In (e, up) (located soup) -> In e (descendants soup).
Proof.
  intros H. rewrite <- located_fst. apply (in_map fst) in H. exact H.
Qed.

(** ** The loops of the noise filter *)

Lemma remains_elem decomposed here name attrs cs :
  remains decomposed here (Elem name attrs cs)
  = Elem name attrs (remains_below decomposed here 0 cs).
Proof.
  simpl. f_equal. generalize 0%nat.
  induction cs as [|c cs IH]; intros i; simpl; [reflexivity|].
  rewrite IH. reflexivity.
Qed.

Lemma suffix_refl (q : list nat) : q `suffix_of` q.
Proof. exists []. reflexivity. Qed.

Lemma suffix_trans (a b c : list nat) :
  a `suffix_of` b -> b `suffix_of` c -> a `suffix_of` c.
Proof. intros [x ->] [y ->]. exists (y ++ x). apply app_assoc. Qed.

(** Two children of one tag that are both above a place are the same
    child. *)
Lemma suffix_same_child (k j : nat) (here q : list nat) :
  (k :: here) `suffix_of` q -> (j :: here) `suffix_of` q -> k = j.
Proof.
  intros [x ->] [y Hy].
  apply app_inj_2 in Hy as [_ [= ->]]; reflexivity.
Qed.

Lemma suffix_not_longer (k : nat) (here q : list nat) :
  (k :: q) `suffix_of` here -> here `suffix_of` q -> False.
Proof.
  intros H1 H2. apply suffix_length in H1. apply suffix_length in H2.
  simpl in H1. lia.
Qed.

(** The places of the tags listed from a tag: its own, and places below
    one of its children. *)
Lemma located_places :
  forall n up e up',
    In (e, up') (located_from up n) ->
    (e, up') = (n, up)
    \/ exists k, (k :: place_of up) `suffix_of` place_of up'.
Proof.
  induction n as [s | name attrs cs IH] using node_ind; intros up e up' Hin; [destruct Hin|].
  rewrite located_from_elem in Hin. destruct Hin as [Heq | Hin]; [left; congruence|].
  right. revert Hin. generalize 0%nat. generalize (Elem name attrs cs) as parent.
  induction cs as [|c cs IHcs]; intros parent i Hin; [destruct Hin|].
  inversion IH as [|? ? IHc IHrest]; subst.
  simpl in Hin. apply in_app_or in Hin as [Hin | Hin].
  - apply IHc in Hin as [[= -> ->] | [k Hk]].
    + exists i. apply suffix_refl.
    + exists i. simpl in Hk. eapply suffix_trans; [|exact Hk].
      apply suffix_cons_r, suffix_refl.
  - apply (IHcs IHrest parent (S i) Hin).
Qed.

Lemma located_below_places parent up :
  forall cs i e up',
    In (e, up') (located_below parent up i cs) ->
    exists k, (i <= k)%nat /\ (k :: place_of up) `suffix_of` place_of up'.
Proof.
  induction cs as [|c cs IH]; intros i e up' Hin; [destruct Hin|].
  simpl in Hin. apply in_app_or in Hin as [Hin | Hin].
  - exists i. split; [lia|].
    apply located_places in Hin as [[= -> ->] | [k Hk]]; [apply suffix_refl|].
    simpl in Hk. eapply suffix_trans; [|exact Hk]. apply suffix_cons_r, suffix_refl.
  - apply IH in Hin as (k & Hle & Hk). exists k. split; [lia | exact Hk].
Qed.

Lemma remains_decompose_all p decomposed :
  (forall s, p (Text s) = false) ->
  forall n up,
    marks p decomposed (located_below n up 0 (contents n)) (place_of up) 0 ->
    remains decomposed (place_of up) n = decompose_all p n.
Proof.
  intros Htext.
  induction n as [s | name attrs cs IH] using node_ind; intros up Hmarks; [reflexivity|].
  rewrite remains_elem. simpl decompose_all. f_equal.
  simpl contents in Hmarks. revert Hmarks.
  generalize 0%nat. generalize (Elem name attrs cs) as parent.
  induction cs as [|c cs IHcs]; intros parent i [Hfrom Hto]; [reflexivity|].
  inversion IH as [|? ? IHc IHrest]; subst.
  assert (Hrest : marks p decomposed (located_below parent up (S i) cs) (place_of up) (S i)).
  { split.
    - intros q k Hq Hk Hsuffix.
      destruct (Hfrom q k Hq ltac:(lia) Hsuffix) as (e & up' & Hin & Hp & Hplace).
      simpl in Hin. apply in_app_or in Hin as [Hin | Hin]; [|eauto].
      exfalso. subst q.
      assert (Hi : (i :: place_of up) `suffix_of` place_of up').
      { apply located_places in Hin as [[= -> ->] | [j Hj]]; [apply suffix_refl|].
        simpl in Hj. eapply suffix_trans; [|exact Hj]. apply suffix_cons_r, suffix_refl. }
      pose proof (suffix_same_child _ _ _ _ Hsuffix Hi). lia.
    - intros e up' Hin Hp. apply (Hto e up'); [|exact Hp].
      simpl. apply in_or_app. now right. }
  simpl remains_below. rewrite decompose_children_cons.
  destruct (p c) eqn:Hpc.
  - (* the child is decomposed *)
    assert (Hc : c = Elem (tag_name c) (tag_attrs c) (contents c)).
    { destruct c; [rewrite Htext in Hpc; discriminate | reflexivity]. }
    rewrite bool_decide_eq_true_2; [apply (IHcs IHrest parent (S i) Hrest)|].
    apply (Hto c ((parent, i) :: up)); [|exact Hpc].
    simpl. apply in_or_app. left. rewrite Hc, located_from_elem. now left.
  - (* the child stays *)
    rewrite bool_decide_eq_false_2.
    + simpl. f_equal; [|apply (IHcs IHrest parent (S i) Hrest)].
      apply (IHc ((parent, i) :: up)). split.
      * intros q k Hq _ Hsuffix.
        assert (Hi : (i :: place_of up) `suffix_of` q).
        { eapply suffix_trans; [|exact Hsuffix]. apply suffix_cons_r, suffix_refl. }
        destruct (Hfrom q i Hq ltac:(lia) Hi) as (e & up' & Hin & Hp & Hplace).
        simpl in Hin. apply in_app_or in Hin as [Hin | Hin].
        -- destruct c as [s | cname cattrs ccs]; [destruct Hin|].
           rewrite located_from_elem in Hin. destruct Hin as [[= <- <-] | Hin]; [|eauto].
           exfalso. subst q. simpl in Hsuffix.
           apply (suffix_not_longer _ _ _ Hsuffix), suffix_refl.
        -- exfalso. apply located_below_places in Hin as (j & Hle & Hj).
           rewrite Hplace in Hj. pose proof (suffix_same_child _ _ _ _ Hi Hj). lia.
      * intros e up' Hin Hp. apply (Hto e up'); [|exact Hp].
        simpl. apply in_or_app. left.
        destruct c as [s | cname cattrs ccs]; [destruct Hin|].
        rewrite located_from_elem. now right.
    + intros Hq.
      destruct (Hfrom _ i Hq ltac:(lia) (suffix_refl _)) as (e & up' & Hin & Hp & Hplace).
      simpl in Hin. apply in_app_or in Hin as [Hin | Hin].
      * apply located_places in Hin as [[= -> ->] | [j Hj]]; [congruence|].
        rewrite Hplace in Hj. simpl in Hj.
        apply (suffix_not_longer _ _ _ Hj), suffix_refl.
      * apply located_below_places in Hin as (j & Hle & Hj).
        rewrite Hplace in Hj. pose proof (suffix_same_child _ _ _ _ Hj (suffix_refl _)). lia.
Qed.

Lemma decompose_loop_places (p : node -> bool) (found : list (node * crumbs)) acc q :
  q ∈ fold_left
        (fun decomposed '(element, up) =>
           if p element then place_of up :: decomposed else decomposed)
        found acc
  <-> q ∈ acc \/ exists e up, In (e, up) found /\ p e = true /\ place_of up = q.
Proof.
  revert acc. induction found as [|[e up] found IH]; intros acc; simpl.
  - split; [auto | intros [H | (? & ? & [] & _)]; exact H].
  - rewrite IH. destruct (p e) eqn:Hp.
    + rewrite elem_of_cons. split.
      * intros [[Hq | H] | (e' & up' & Hin & Hp' & Hq)]; [|auto|eauto 10].
        right. exists e, up. auto.
      * intros [H | (e' & up' & [Heq | Hin] & Hp' & Hq)]; [auto| |eauto 10].
        injection Heq as <- <-. auto.
    + split.
      * intros [H | (e' & up' & Hin & Hp' & Hq)]; [auto | eauto 10].
      * intros [H | (e' & up' & [Heq | Hin] & Hp' & Hq)]; [auto| |eauto 10].
        injection Heq as <- <-. congruence.
Qed.

(** The loop over the tags listed beforehand, among which those [keep]
    selects are decomposed when [p] accepts them, detaches the tags that
    pass both tests, each with what is below it. *)
Lemma decompose_loop_all (p keep : node -> bool) soup :
  (forall s, p (Text s) && keep (Text s) = false) ->
  decompose_loop p (List.filter (fun e => keep (fst e)) (located soup)) soup
  = decompose_all (fun e => p e && keep e) soup.
Proof.
  intros Htext. unfold decompose_loop.
  apply (remains_decompose_all _ _ Htext soup []). split.
  - intros q k Hq _ _. apply decompose_loop_places in Hq as [Hq | (e & up & Hin & Hp & Hplace)].
    + inversion Hq.
    + apply filter_In in Hin as [Hin Hkeep]. simpl in Hkeep.
      exists e, up. rewrite Hp, Hkeep. auto.
  - intros e up' Hin Hp. apply andb_true_iff in Hp as [Hp Hkeep].
    apply decompose_loop_places. right. exists e, up'.
    split; [apply filter_In; auto | auto].
Qed.

Lemma filter_all {A} (l : list A) : List.filter (fun _ => true) l = l.
Proof. induction l as [|x l IH]; simpl; [reflexivity | now rewrite IH]. Qed.

Lemma decompose_all_ext (p q : node -> bool) n :
  (forall e, p e = q e) -> decompose_all p n = decompose_all q n.
Proof.
  intros Hpq. induction n as [s | name attrs cs IH] using node_ind; simpl; [reflexivity|].
  f_equal. induction cs as [|c cs IHcs]; [reflexivity|].
  inversion IH as [|? ? IHc IHrest]; subst.
  rewrite !decompose_children_cons, Hpq, IHc, (IHcs IHrest). reflexivity.
Qed.

(** What the two loops of [_prepare_content_soup] leave. *)
Lemma prepare_content_soup_all soup :
  _prepare_content_soup soup
  = decompose_all _should_skip_element (decompose_all (name_in STRIPPED_TAGS) soup).
Proof.
  unfold _prepare_content_soup. cbn zeta.
  rewrite (decompose_loop_all (fun _ => true) (name_in STRIPPED_TAGS)); [|reflexivity].
  rewrite (decompose_all_ext _ (name_in STRIPPED_TAGS)); [|reflexivity].
  rewrite <- (filter_all (located (decompose_all (name_in STRIPPED_TAGS) soup))).
  rewrite (decompose_loop_all _should_skip_element (fun _ => true)); [|reflexivity].
  apply decompose_all_ext. intros e. apply andb_true_r.
Qed.

(** ** Noise filter *)

Lemma prepared_is_clean soup :
  Forall (fun e => _should_skip_element e = false)
    (descendants (_prepare_content_soup soup))
  /\ Forall (fun e => name_in STRIPPED_TAGS e = false)
       (descendants (_prepare_content_soup soup)).
Proof.
  rewrite prepare_content_soup_all. split.
  - apply decompose_all_clean, shallow_should_skip.
  - apply decompose_all_keeps; [apply shallow_name_in|].
    apply decompose_all_clean, shallow_name_in.
Qed.

(** C7. Noise-filter idempotence: in the tree [_prepare_content_soup]
    returns, the removal predicate is false on every tag (so the second
    test in [_extract_content_blocks] skips nothing) and none of the tags
    removed unconditionally is left; filtering that tree again gives the
    same tree. *)
Theorem noise_filter_idempotent (soup : node) :
  Forall (fun e => _should_skip_element e = false /\ name_in STRIPPED_TAGS e = false)
    (descendants (_prepare_content_soup soup))
  /\ _prepare_content_soup (_prepare_content_soup soup) = _prepare_content_soup soup.
Proof.
  destruct (prepared_is_clean soup) as [Hskip Hstrip].
  split.
  - rewrite List.Forall_forall in *. intros e He. split; auto.
  - rewrite (prepare_content_soup_all (_prepare_content_soup soup)).
    rewrite (decompose_all_id (name_in STRIPPED_TAGS)); [|reflexivity|exact Hstrip].
    apply decompose_all_id; [reflexivity|exact Hskip].
Qed.

(** C5, as amended. Hint overrides noise: a tag that is not nav, header,
    footer or aside and whose role is not one of the five noise roles is
    kept by the removal predicate whenever its lower-cased attribute bag
    mentions both a noise keyword and an article hint. *)
Theorem hint_overrides_noise (name : string) (attrs : attr_map) (cs : list node) :
  existsb (String.eqb name) NOISE_TAGS = false ->
  existsb (String.eqb (Py.lower (attr_str attrs "role"))) NOISE_ROLES = false ->
  mentions NOISE_KEYWORDS (Py.join " " (attribute_bag attrs)) = true ->
  mentions ARTICLE_HINTS (Py.join " " (attribute_bag attrs)) = true ->
  _should_skip_element (Elem name attrs cs) = false.
Proof.
  intros Htag Hrole Hnoise Hhint. unfold _should_skip_element.
  rewrite Htag, Hrole. unfold bag_is_noise.
  destruct (attribute_bag attrs); [reflexivity|].
  rewrite Hnoise, Hhint. reflexivity.
Qed.

(** The element of the spec's example: a div of class
    [sidebar article-body] is not removed. *)
Lemma hint_overrides_noise_witness :
  _should_skip_element
    (Elem "div" [("class", AList ["sidebar"; "article-body"])] [Text "x"]) = false.
Proof.
  apply (hint_overrides_noise "div" [("class", AList ["sidebar"; "article-body"])] [Text "x"]);
    reflexivity.
Defined.

(** C5, as stated, fails: an aside whose class mentions both a noise
    keyword (sidebar) and a hint (article, body) is removed, the tag test
    coming first; so is a div of that class with role navigation. *)
Lemma hint_does_not_override_noise_tag :
  let attrs := [("class", AList ["sidebar"; "article-body"])] in
  mentions NOISE_KEYWORDS (Py.join " " (attribute_bag attrs)) = true
  /\ mentions ARTICLE_HINTS (Py.join " " (attribute_bag attrs)) = true
  /\ _should_skip_element (Elem "aside" attrs []) = true
  /\ _should_skip_element (Elem "div" (("role", AStr "navigation") :: attrs) []) = true.
Proof. repeat split; reflexivity. Qed.

(** ** Rounding *)

Lemma round_half_even_bounds x :
  (Qfloor x <= Py.round_half_even x <= Qfloor x + 1)%Z.
Proof.
  unfold Py.round_half_even.
  destruct (x - inject_Z (Qfloor x) ?= 1 # 2)%Q; [destruct (Z.even _)| |]; lia.
Qed.

Lemma round_half_even_comp x y : (x == y)%Q -> Py.round_half_even x = Py.round_half_even y.
Proof.
  intros H. unfold Py.round_half_even.
  rewrite (Qfloor_comp _ _ H).
  assert (Hd : (x - inject_Z (Qfloor y) == y - inject_Z (Qfloor y))%Q) by (rewrite H; reflexivity).
  rewrite (Qcompare_comp _ _ Hd (1 # 2) (1 # 2) (Qeq_refl _)). reflexivity.
Qed.

Lemma round_half_even_inject k : Py.round_half_even (inject_Z k) = k.
Proof.
  unfold Py.round_half_even. rewrite Qfloor_Z.
  assert (H : (inject_Z k - inject_Z k ?= 1 # 2)%Q = Lt).
  { apply (proj1 (Qlt_alt _ _)). generalize (inject_Z k). intros q. lra. }
  rewrite H. reflexivity.
Qed.

Lemma round_half_even_mono x y :
  (x <= y)%Q -> (Py.round_half_even x <= Py.round_half_even y)%Z.
Proof.
  intros Hxy.
  pose proof (Qfloor_resp_le _ _ Hxy) as Hf.
  destruct (Z.eq_dec (Qfloor x) (Qfloor y)) as [Heq | Hne].
  - unfold Py.round_half_even. rewrite Heq.
    destruct (y - inject_Z (Qfloor y) ?= 1 # 2)%Q eqn:Hy;
      destruct (x - inject_Z (Qfloor y) ?= 1 # 2)%Q eqn:Hx;
      try destruct (Z.even (Qfloor y)); try lia;
      q_compare_facts; generalize dependent (inject_Z (Qfloor y)); intros; lra.
  - pose proof (round_half_even_bounds x). pose proof (round_half_even_bounds y). lia.
Qed.

Lemma pow10_pos n : (0 < inject_Z (10 ^ Z.of_nat n))%Q.
Proof.
  assert (0 < 10 ^ Z.of_nat n)%Z by (apply Z.pow_pos_nonneg; lia).
  unfold Qlt. simpl. lia.
Qed.

Lemma round_mono x y n : (x <= y)%Q -> (Py.round x n <= Py.round y n)%Q.
Proof.
  intros Hxy. unfold Py.round.
  pose proof (pow10_pos n) as Hp.
  apply Qmult_le_compat_r.
  - rewrite <- Zle_Qle. apply round_half_even_mono.
    apply Qmult_le_compat_r; [assumption | apply Qlt_le_weak, Hp].
  - apply Qinv_le_0_compat, Qlt_le_weak, Hp.
Qed.

(** A multiple of [10^-n] is left as it is. *)
Lemma round_fixed k n :
  (Py.round (inject_Z k / inject_Z (10 ^ Z.of_nat n)) n
   == inject_Z k / inject_Z (10 ^ Z.of_nat n))%Q.
Proof.
  unfold Py.round. pose proof (pow10_pos n) as Hp.
  rewrite (round_half_even_comp _ (inject_Z k)); [rewrite round_half_even_inject; reflexivity|].
  field. intros H0. rewrite H0 in Hp. apply (Qlt_irrefl 0), Hp.
Qed.

Lemma round2_ge k x : (k # 100 <= x)%Q -> (k # 100 <= Py.round x 2)%Q.
Proof.
  intros H. rewrite (Qmake_Qdiv k 100) in *.
  rewrite <- (round_fixed k 2). apply round_mono, H.
Qed.

Lemma round2_le k x : (x <= k # 100)%Q -> (Py.round x 2 <= k # 100)%Q.
Proof.
  intros H. rewrite (Qmake_Qdiv k 100) in *.
  rewrite <- (round_fixed k 2). apply round_mono, H.
Qed.

Lemma round2_nonneg x : (0 <= x)%Q -> (0 <= Py.round x 2)%Q.
Proof.
  intros H. pose proof (round2_ge 0 x) as Hr.
  assert (E : (0 # 100 == 0)%Q) by reflexivity.
  rewrite E in Hr. auto.
Qed.

(** ** Block score *)

Lemma score_block_factor_nonneg word_count paragraph_count heading :
  (0 <= word_count)%Z -> (0 <= paragraph_count)%Z ->
  (0 <= inject_Z word_count * (if Py.nonempty heading then 125 # 100 else 1)
        * (1 + inject_Z (Z.min paragraph_count 5) * (1 # 10)))%Q.
Proof.
  intros Hw Hp.
  assert (0 <= inject_Z word_count)%Q by (rewrite Zle_Qle in Hw; exact Hw).
  assert (0 <= inject_Z (Z.min paragraph_count 5))%Q.
  { assert (Hm : (0 <= Z.min paragraph_count 5)%Z) by lia. rewrite Zle_Qle in Hm. exact Hm. }
  apply Qmult_le_0_compat; [apply Qmult_le_0_compat|]; [assumption| |lra].
  destruct (Py.nonempty heading); lra.
Qed.

(** C6. Link-density monotonicity: with the word count, the paragraph
    count and the heading fixed, a larger link density never gives a
    larger score, and from 0.9 on the score no longer changes; the same
    order holds between the scores rounded to two decimals, which is what
    a block stores. *)
Theorem score_antitone_in_link_density
    (word_count paragraph_count : Z) (heading : string) (d1 d2 : Q) :
  (0 <= word_count)%Z -> (0 <= paragraph_count)%Z -> (d1 <= d2)%Q ->
  (_score_block word_count d2 paragraph_count heading
   <= _score_block word_count d1 paragraph_count heading)%Q
  /\ ((9 # 10 <= d1)%Q ->
      (_score_block word_count d2 paragraph_count heading
       == _score_block word_count d1 paragraph_count heading)%Q)
  /\ (Py.round (_score_block word_count d2 paragraph_count heading) 2
      <= Py.round (_score_block word_count d1 paragraph_count heading) 2)%Q.
Proof.
  intros Hw Hp Hd.
  assert (Hle : (_score_block word_count d2 paragraph_count heading
                 <= _score_block word_count d1 paragraph_count heading)%Q);
    [|split; [exact Hle | split; [|apply round_mono, Hle]]];
    unfold _score_block;
    pose proof (score_block_factor_nonneg word_count paragraph_count heading Hw Hp) as Hc;
    set (c := (inject_Z word_count * _ * _)%Q) in *.
  - rewrite !(Qmult_comm c). apply Qmult_le_compat_r; [|exact Hc].
    destruct (Q.min_spec d1 (9 # 10)) as [[? ->] | [? ->]];
      destruct (Q.min_spec d2 (9 # 10)) as [[? ->] | [? ->]]; lra.
  - intros H9.
    destruct (Q.min_spec d1 (9 # 10)) as [[? E1] | [? E1]];
      destruct (Q.min_spec d2 (9 # 10)) as [[? E2] | [? E2]];
      rewrite E1, E2; try lra; try reflexivity.
Qed.

Lemma score_antitone_in_link_density_witness :
  (_score_block 100 (5 # 10) 3 "Heading" <= _score_block 100 (1 # 10) 3 "Heading")%Q.
Proof.
  apply (score_antitone_in_link_density 100 3 "Heading" (1 # 10) (5 # 10));
    [lia | lia | unfold Qle; simpl; lia].
Defined.

(** ** Candidate blocks *)

Lemma build_block_info_some element up idx block :
  _build_block_info element up idx = Some block ->
  is_tag element = true
  /\ (40 <= visible_words element)%Z
  /\ Block.word_count block = visible_words element
  /\ Block.html block = element
  /\ exists link_density paragraph_count,
       (0 <= paragraph_count)%Z
       /\ Block.score block
          = Py.round (_score_block (visible_words element) link_density paragraph_count
                        (Block.heading block)) 2.
Proof.
  unfold _build_block_info, visible_words.
  destruct (is_tag element); simpl; [|discriminate].
  destruct (Z.ltb_spec (Z.of_nat (length (Py.split (clean_text (get_text_sep element))))) 40);
    [discriminate|].
  intros [= <-]. simpl. repeat split; try assumption.
  eexists _, _. split; [|reflexivity]. lia.
Qed.

Lemma build_block_info_none element up idx :
  (visible_words element < 40)%Z -> _build_block_info element up idx = None.
Proof.
  unfold _build_block_info, visible_words. intros H.
  destruct (is_tag element); simpl; [|reflexivity].
  destruct (Z.ltb_spec (Z.of_nat (length (Py.split (clean_text (get_text_sep element))))) 40);
    [reflexivity | lia].
Qed.

Lemma insert_by_score_in b x sorted :
  In x (insert_by_score b sorted) -> x = b \/ In x sorted.
Proof.
  induction sorted as [|c rest IH]; simpl.
  - intros [<- | []]. now left.
  - destruct (Qle_bool _ _); simpl.
    + intros [<- | H]; [now left | now right].
    + intros [<- | H]; [right; now left|].
      destruct (IH H); [now left | right; now right].
Qed.

Lemma sort_by_score_in x candidates :
  In x (sort_by_score candidates) -> In x candidates.
Proof.
  induction candidates as [|b rest IH]; simpl; [tauto|].
  intros H. apply insert_by_score_in in H as [-> | H]; [now left | right; auto].
Qed.

Lemma firstn_in {A} n (l : list A) x : In x (firstn n l) -> In x l.
Proof.
  intros H. rewrite <- (firstn_skipn n l). apply in_or_app. now left.
Qed.

Lemma enumerate_in {A} (l : list A) i x : In (i, x) (enumerate l) -> In x l.
Proof. apply in_combine_r. Qed.

Lemma extract_content_blocks_built soup block :
  In block (_extract_content_blocks soup) -> built_from soup block.
Proof.
  unfold _extract_content_blocks. intros H.
  apply firstn_in in H. apply sort_by_score_in in H.
  apply in_flat_map in H as ([idx [element up]] & Hin & Hb).
  apply enumerate_in in Hin. apply filter_In in Hin as [Hin _].
  destruct (_should_skip_element element) eqn:Hskip; [destruct Hb|].
  destruct (_build_block_info element up (str_of_nat idx)) eqn:Hbuild; [|destruct Hb].
  destruct Hb as [<- | []]. exists element, up, (str_of_nat idx). auto.
Qed.

Lemma schema_probe_built soup selectors block :
  schema_probe soup selectors = Some block -> built_from soup block.
Proof.
  induction selectors as [|[idx sel] rest IH]; simpl; [discriminate|].
  destruct (select_one sel soup) as [[element up]|] eqn:Hsel; [|exact IH].
  destruct (_should_skip_element element) eqn:Hskip; simpl; [exact IH|].
  destruct (_build_block_info element up ("schema_" ++ str_of_nat idx)) eqn:Hbuild; [|exact IH].
  intros [= <-]. apply find_some in Hsel as [Hin _].
  exists element, up, ("schema_" ++ str_of_nat idx)%string. auto.
Qed.

Lemma content_blocks_built soup block :
  In block (content_blocks soup) -> built_from soup block.
Proof.
  unfold content_blocks.
  destruct (_extract_schema_block soup) as [schema_block|] eqn:Hs.
  - intros [<- | H].
    + apply (schema_probe_built _ _ _ Hs).
    + apply extract_content_blocks_built, H.
  - apply extract_content_blocks_built.
Qed.

(** C4. Candidate word-count invariant: a block [_build_block_info]
    produces counts at least 40 words, namely the words of the element's
    whitespace-collapsed visible text; with fewer than 40 words no block
    is produced; hence every block of the candidate scorer and the block
    of the schema strategy count at least 40 words. *)
Theorem candidate_word_count_invariant :
  (forall element up idx block,
      _build_block_info element up idx = Some block ->
      Block.word_count block = visible_words element
      /\ (40 <= Block.word_count block)%Z)
  /\ (forall element up idx,
        (visible_words element < 40)%Z -> _build_block_info element up idx = None)
  /\ (forall soup block,
        In block (_extract_content_blocks soup) -> (40 <= Block.word_count block)%Z)
  /\ (forall soup block,
        _extract_schema_block soup = Some block -> (40 <= Block.word_count block)%Z).
Proof.
  assert (Hb : forall element up idx block,
             _build_block_info element up idx = Some block ->
             Block.word_count block = visible_words element
             /\ (40 <= Block.word_count block)%Z).
  { intros element up idx block H.
    apply build_block_info_some in H as (_ & H40 & -> & _). auto. }
  split; [exact Hb|]. split; [exact build_block_info_none|]. split.
  - intros soup block H.
    apply extract_content_blocks_built in H as (element & up & idx & _ & _ & H).
    apply (Hb _ _ _ _ H).
  - intros soup block H.
    apply schema_probe_built in H as (element & up & idx & _ & _ & H).
    apply (Hb _ _ _ _ H).
Qed.

(** ** Arbiter *)

Lemma dict_truthy_empty : dict_truthy ∅ = false.
Proof. reflexivity. Qed.

Lemma dict_truthy_lookup (d : gmap string pyval) key v :
  d !! key = Some v -> dict_truthy d = true.
Proof.
  intros H. unfold dict_truthy.
  destruct (Nat.eqb_spec (size d) 0) as [Hsize | Hsize]; [|reflexivity].
  apply map_size_empty_iff in Hsize. subst d.
  rewrite lookup_empty in H. discriminate.
Qed.

Lemma setdefault_other key key' v (d : gmap string pyval) :
  key <> key' -> setdefault key v d !! key' = d !! key'.
Proof.
  intros Hne. unfold setdefault.
  destruct (d !! key); [reflexivity|]. apply lookup_insert_ne, Hne.
Qed.

Lemma setdefault_key key v (d : gmap string pyval) :
  setdefault key v d !! key = Some (default v (d !! key)).
Proof.
  unfold setdefault. destruct (d !! key) eqn:H; simpl; [exact H|].
  apply lookup_insert_eq.
Qed.

(** What [_extract_main_content] returns: nothing, or the readability
    dictionary of a summary with at least one word. *)
Lemma extract_main_content_cases document :
  _extract_main_content document = ∅
  \/ exists d paragraphs text word_count,
       _extract_main_content document = readability_result d paragraphs text word_count
       /\ (0 <= word_count)%Z.
Proof.
  destruct document as [d|]; simpl; [|now left].
  destruct (Py.nonempty _); simpl; [|now left].
  right. eexists _, _, _, _. split; [reflexivity | lia].
Qed.

(** C1. Waterfall priority: whenever the readability output is not empty
    and counts at least 80 words, the arbiter returns that output,
    whatever the candidate blocks and their scores are; the fallback
    title is stored under [title] if that key is missing and nothing
    else changes; for an output of [_extract_main_content], which has the
    key, the result is the output itself, of source [readability]. *)
Theorem readability_wins_arbitration
    (rc : gmap string pyval) (blocks : list Block.t) (fallback_title : string) (w : Q) :
  dict_truthy rc = true ->
  get_number rc "word_count" (PInt 0) = Some w ->
  (80 <= w)%Q ->
  _choose_main_content rc blocks fallback_title
  = Some (setdefault "title" (PStr fallback_title) rc)
  /\ setdefault "title" (PStr fallback_title) rc !! "title"
     = Some (default (PStr fallback_title) (rc !! "title"))
  /\ (forall key, key <> "title" ->
        setdefault "title" (PStr fallback_title) rc !! key = rc !! key)
  /\ (forall document,
        rc = _extract_main_content document ->
        _choose_main_content rc blocks fallback_title = Some rc
        /\ rc !! "source" = Some (PStr "readability")).
Proof.
  intros Htruthy Hwords Hle.
  assert (Hchoose : _choose_main_content rc blocks fallback_title
                    = Some (setdefault "title" (PStr fallback_title) rc)).
  { unfold _choose_main_content. rewrite Htruthy, Hwords. simpl.
    apply Qle_bool_iff in Hle. rewrite Hle. reflexivity. }
  split; [exact Hchoose|]. split; [apply setdefault_key|].
  split; [intros key Hne; apply setdefault_other; congruence|].
  intros document ->.
  destruct (extract_main_content_cases document) as [He | (d & ps & text & wc & He & _)];
    rewrite He in *; [rewrite dict_truthy_empty in Htruthy; discriminate|].
  split; [|reflexivity].
  rewrite Hchoose. reflexivity.
Qed.

(** A div of 40 words gives a block of 40 words. *)
Lemma candidate_word_count_invariant_witness :
  match _build_block_info (Elem "div" [] [Text (lorem 40)]) [] "0" with
  | Some block => (40 <= Block.word_count block)%Z
  | None => False
  end.
Proof.
  destruct (_build_block_info (Elem "div" [] [Text (lorem 40)]) [] "0") as [block|] eqn:H.
  - apply (proj1 candidate_word_count_invariant _ _ _ _ H).
  - vm_compute in H. discriminate.
Defined.

(** A summary of eighty words against a block of score one million. *)
Lemma readability_wins_arbitration_witness :
  let rc :=
    _extract_main_content
      (Some (Readable.mk (Elem "[document]" [] [Elem "p" [] [Text (lorem 80)]]) "T" "T")) in
  let block :=
    Block.mk "block_0" "div" [] "div[0]" "Heading" [lorem 40] (Elem "div" [] [])
      (lorem 40) 40 0 (1000000 # 1) in
  _choose_main_content rc [block] "fallback" = Some (setdefault "title" (PStr "fallback") rc).
Proof.
  intros rc block.
  apply (readability_wins_arbitration rc [block] "fallback" (inject_Z 80));
    [vm_compute; reflexivity | vm_compute; reflexivity | apply Qle_refl].
Defined.

Lemma choose_without_readability blocks fallback_title :
  _choose_main_content ∅ blocks fallback_title
  = Some match blocks with
         | best :: _ => heuristic_content best fallback_title
         | [] => unknown_content fallback_title
         end.
Proof. destruct blocks; reflexivity. Qed.

Lemma choose_short_readability rc blocks fallback_title w :
  dict_truthy rc = true ->
  get_number rc "word_count" (PInt 0) = Some w ->
  (w < 80)%Q ->
  _choose_main_content rc blocks fallback_title
  = Some match blocks with
         | best :: _ => heuristic_content best fallback_title
         | [] => rc
         end.
Proof.
  intros Htruthy Hwords Hlt. unfold _choose_main_content.
  rewrite Htruthy, Hwords. simpl.
  destruct (Qle_bool 80 w) eqn:Hle; [apply Qle_bool_iff in Hle; lra|].
  destruct blocks; reflexivity.
Qed.

Lemma flat_map_nil {A B} (f : A -> list B) l :
  (forall x, In x l -> f x = []) -> flat_map f l = [].
Proof.
  induction l as [|x l IH]; simpl; intros H; [reflexivity|].
  rewrite (H x), IH; auto.
Qed.

(** No structural tag and no tag a schema selector matches with 40
    words, no candidate: neither from the scorer nor from the schema
    strategy. *)
Lemma content_blocks_empty soup :
  (forall element,
      In element (descendants soup) -> candidate_tag element = true ->
      (visible_words element < 40)%Z) ->
  _extract_content_blocks soup = []
  /\ _extract_schema_block soup = None
  /\ content_blocks soup = [].
Proof.
  intros Hshort.
  assert (Hscorer : _extract_content_blocks soup = []).
  { unfold _extract_content_blocks. rewrite flat_map_nil; [reflexivity|].
    intros [idx [element up]] Hin.
    apply enumerate_in, filter_In in Hin as [Hin Hname]. cbn [fst] in Hname.
    apply located_in_descendants, Hshort in Hin;
      [|unfold candidate_tag; rewrite Hname; reflexivity].
    rewrite (build_block_info_none _ _ _ Hin). now destruct (_should_skip_element element). }
  assert (Hprobe : forall selectors,
            (forall idx sel, In (idx, sel) selectors -> In sel SCHEMA_SELECTORS) ->
            schema_probe soup selectors = None).
  { induction selectors as [|[idx sel] rest IH]; intros Hsels; [reflexivity|].
    assert (Hrest : schema_probe soup rest = None)
      by (apply IH; intros i s' Hi; apply (Hsels i); now right).
    cbn [schema_probe].
    destruct (select_one sel soup) as [[element up]|] eqn:Hsel; [|exact Hrest].
    apply find_some in Hsel as [Hin Hmatch]. cbn [fst] in Hmatch.
    apply located_in_descendants, Hshort in Hin.
    - rewrite (build_block_info_none _ _ _ Hin). now destruct (negb _).
    - unfold candidate_tag. apply orb_true_iff. right.
      apply existsb_exists. exists sel. split; [|exact Hmatch].
      apply (Hsels idx). now left. }
  assert (Hschema : _extract_schema_block soup = None).
  { apply Hprobe. intros idx sel Hin. apply (enumerate_in _ _ _ Hin). }
  unfold content_blocks. rewrite Hscorer, Hschema. auto.
Qed.

(** C3, as amended. Schema-strategy insertion: a block of the schema
    strategy is put at position 0 of the list the scorer returned, which
    was sorted and cut to 10 before; the list handed to the arbiter thus
    has at most 11 blocks, and the arbiter, when it comes to the blocks,
    takes the schema block whatever its score. *)
Theorem schema_block_heads_candidates (soup : node) (schema_block : Block.t) :
  _extract_schema_block soup = Some schema_block ->
  content_blocks soup = schema_block :: _extract_content_blocks soup
  /\ (length (_extract_content_blocks soup) <= 10)%nat
  /\ (length (content_blocks soup) <= 11)%nat
  /\ (forall fallback_title,
        _choose_main_content ∅ (content_blocks soup) fallback_title
        = Some (heuristic_content schema_block fallback_title))
  /\ (forall rc w fallback_title,
        dict_truthy rc = true -> get_number rc "word_count" (PInt 0) = Some w -> (w < 80)%Q ->
        _choose_main_content rc (content_blocks soup) fallback_title
        = Some (heuristic_content schema_block fallback_title)).
Proof.
  intros Hschema.
  assert (Hlen : (length (_extract_content_blocks soup) <= 10)%nat)
    by apply firstn_le_length.
  assert (Hblocks : content_blocks soup = schema_block :: _extract_content_blocks soup)
    by (unfold content_blocks; now rewrite Hschema).
  rewrite Hblocks. simpl.
  repeat split; [exact Hlen | lia |].
  intros rc w fallback_title Htruthy Hwords Hlt.
  now rewrite (choose_short_readability _ _ _ _ Htruthy Hwords Hlt).
Qed.

Lemma schema_block_heads_candidates_witness :
  exists schema_block,
    _extract_schema_block (_prepare_content_soup crowded_page) = Some schema_block
    /\ content_blocks (_prepare_content_soup crowded_page)
       = schema_block :: _extract_content_blocks (_prepare_content_soup crowded_page).
Proof.
  eexists. split; [vm_compute; reflexivity|].
  eapply (schema_block_heads_candidates (_prepare_content_soup crowded_page)).
  vm_compute. reflexivity.
Defined.

(** C3, as stated, fails: on [crowded_page] the scorer returns 10 blocks,
    the schema strategy one more, and the list handed to the arbiter has
    11 blocks. *)
Lemma schema_block_exceeds_ten :
  length (_extract_content_blocks (_prepare_content_soup crowded_page)) = 10%nat
  /\ option_map Block.id (_extract_schema_block (_prepare_content_soup crowded_page))
     = Some "block_schema_2"
  /\ length (content_blocks (_prepare_content_soup crowded_page)) = 11%nat
  /\ ~ (length (content_blocks (_prepare_content_soup crowded_page)) <= 10)%nat.
Proof.
  assert (H : length (content_blocks (_prepare_content_soup crowded_page)) = 11%nat)
    by (vm_compute; reflexivity).
  repeat split; try (vm_compute; reflexivity); try exact H.
  rewrite H. lia.
Qed.

(** ** Derivers and assembler *)

Section Pipeline.

Variable urljoin : string -> string -> string.
Variable netloc : string -> string.

Lemma extract_links_loop_length base_url limit found links :
  (Z.of_nat (length links) < limit)%Z ->
  (Z.of_nat (length (extract_links_loop urljoin netloc base_url limit found links)) <= limit)%Z.
Proof.
  revert links. induction found as [|link rest IH]; intros links Hlt; simpl; [lia|].
  match goal with |- context [(limit <=? ?n)%Z] => destruct (Z.leb_spec limit n) as [Hfull | Hroom] end.
  - rewrite length_app in *. simpl in *. lia.
  - apply IH, Hroom.
Qed.

Lemma extract_links_length soup base_url limit :
  (0 < limit)%Z ->
  (Z.of_nat (length (_extract_links urljoin netloc soup base_url limit)) <= limit)%Z.
Proof. intros H. apply extract_links_loop_length. simpl. exact H. Qed.

Lemma extract_links_from_main_length main_content base_url links :
  _extract_links_from_main urljoin netloc main_content base_url = Some links ->
  (length links <= 40)%nat.
Proof.
  unfold _extract_links_from_main.
  destruct (content_fragment main_content) as [[soup|]|]; simpl; [| |discriminate].
  - intros [= <-]. pose proof (extract_links_length soup base_url 40). lia.
  - intros [= <-]. simpl. lia.
Qed.

Lemma extract_article_media_some main_content meta base_url soup media :
  _extract_article_media urljoin main_content meta base_url soup = Some media ->
  (length (Media.gallery media) <= 5)%nat
  /\ (length (Media.videos media) <= 3)%nat
  /\ exists fragment,
       content_fragment main_content = Some fragment
       /\ Media.videos media
          = firstn 3
              (match fragment with
               | Some fragment_soup => fragment_videos urljoin base_url fragment_soup
               | None => []
               end
               ++ match find_iframe soup with
                  | Some iframe => [urljoin base_url (attr_str (tag_attrs iframe) "src")]
                  | None => []
                  end).
Proof.
  unfold _extract_article_media.
  destruct (content_fragment main_content) as [fragment|]; simpl; [|discriminate].
  intros [= <-]. simpl.
  split; [apply firstn_le_length|]. split; [apply firstn_le_length|].
  exists fragment. split; [reflexivity|].
  destruct (find_iframe soup); [reflexivity | now rewrite app_nil_r].
Qed.

(** The filtered tree has no iframe left. *)
Lemma prepared_has_no_iframe soup : find_iframe (_prepare_content_soup soup) = None.
Proof.
  unfold find_iframe, find_all.
  destruct (prepared_is_clean soup) as [_ Hstrip].
  induction (descendants (_prepare_content_soup soup)) as [|e l IH]; [reflexivity|].
  inversion Hstrip as [|? ? He Hl]; subst.
  assert (Hn : name_in ["iframe"] e = false).
  { unfold name_in in *. simpl in *.
    destruct (String.eqb (tag_name e) "iframe"); [|reflexivity].
    rewrite !orb_true_r in He. discriminate. }
  change (List.filter (name_in ["iframe"]) (e :: l))
    with (if name_in ["iframe"] e then e :: List.filter (name_in ["iframe"]) l
          else List.filter (name_in ["iframe"]) l).
  rewrite Hn. apply IH, Hl.
Qed.

Lemma choose_long_readability rc blocks fallback_title w :
  dict_truthy rc = true ->
  get_number rc "word_count" (PInt 0) = Some w ->
  (80 <= w)%Q ->
  _choose_main_content rc blocks fallback_title
  = Some (setdefault "title" (PStr fallback_title) rc).
Proof.
  intros Htruthy Hwords Hle. unfold _choose_main_content. rewrite Htruthy, Hwords. simpl.
  apply Qle_bool_iff in Hle. rewrite Hle. reflexivity.
Qed.

Lemma choose_main_content_total document blocks fallback_title :
  exists main_content,
    _choose_main_content (_extract_main_content document) blocks fallback_title
    = Some main_content
    /\ chosen_content blocks fallback_title main_content.
Proof.
  destruct (extract_main_content_cases document) as [He | (d & ps & text & wc & He & Hwc)];
    rewrite He.
  - eexists. split; [apply choose_without_readability|].
    destruct blocks as [|best rest];
      [apply chosen_unknown | apply (chosen_heuristic _ _ best rest)]; reflexivity.
  - destruct (Qlt_le_dec (inject_Z wc) 80) as [Hlt | Hle].
    + eexists. split.
      * apply (choose_short_readability _ _ _ (inject_Z wc)); [reflexivity|reflexivity|exact Hlt].
      * destruct blocks as [|best rest];
          [apply chosen_readability; exact Hwc
          | apply (chosen_heuristic _ _ best rest); reflexivity].
    + eexists. split.
      * apply (choose_long_readability
                 (readability_result d ps text wc) blocks fallback_title (inject_Z wc));
          [reflexivity|reflexivity|exact Hle].
      * apply chosen_readability. exact Hwc.
Qed.

(** What an article reports comes from the dictionary the arbiter chose. *)
Lemma build_article_section_inv rc blocks fallback_title meta content_soup base_url article :
  _build_article_section urljoin netloc rc blocks fallback_title meta content_soup base_url
  = Some article ->
  exists main_content confidence,
    _choose_main_content rc blocks fallback_title = Some main_content
    /\ _extract_article_media urljoin main_content meta base_url content_soup
       = Some (Article.media article)
    /\ _extract_links_from_main urljoin netloc main_content base_url
       = Some (Article.links article)
    /\ get_number main_content "confidence" (PFloat (4 # 10)) = Some confidence
    /\ Stats.confidence (Article.stats article) = Py.round confidence 2
    /\ get_opt_str main_content "source" = Some (Body.source (Article.body article)).
Proof.
  unfold _build_article_section.
  destruct (_choose_main_content rc blocks fallback_title) as [mc|] eqn:Hchoose;
    cbn [mbind option_bind]; [|discriminate].
  destruct (_extract_article_media urljoin mc meta base_url content_soup) as [media|] eqn:Hmedia;
    cbn [mbind option_bind]; [|discriminate].
  destruct (get_list mc "paragraphs") as [paragraphs|];
    cbn [mbind option_bind]; [|discriminate].
  destruct (_extract_links_from_main urljoin netloc mc base_url) as [links|] eqn:Hlinks;
    cbn [mbind option_bind]; [|discriminate].
  destruct (get_str mc "text" "") as [text|];
    cbn [mbind option_bind]; [|discriminate].
  destruct (get_number mc "word_count" (PInt 0)) as [word_count|];
    cbn [mbind option_bind]; [|discriminate].
  destruct (get_number mc "reading_time_minutes" _) as [reading_time|];
    cbn [mbind option_bind]; [|discriminate].
  destruct (get_opt_str mc "source") as [source|] eqn:Hsource;
    cbn [mbind option_bind]; [|discriminate].
  destruct (content_fragment mc) as [html|];
    cbn [mbind option_bind]; [|discriminate].
  destruct (get_number mc "confidence" _) as [confidence|] eqn:Hconfidence;
    cbn [mbind option_bind]; [|discriminate].
  destruct (get_str mc "title" "") as [title|];
    cbn [mbind option_bind]; [|discriminate].
  intros [= <-]. exists mc, confidence. simpl. auto 10.
Qed.

(** On each dictionary the arbiter can choose, every read of the
    assembler succeeds. *)
Lemma build_article_section_chosen rc blocks fallback_title main_content meta
    content_soup base_url :
  _choose_main_content rc blocks fallback_title = Some main_content ->
  chosen_content blocks fallback_title main_content ->
  exists article,
    _build_article_section urljoin netloc rc blocks fallback_title meta content_soup base_url
    = Some article.
Proof.
  intros Hchoose Hshape. unfold _build_article_section. rewrite Hchoose.
  cbn [mbind option_bind].
  destruct Hshape as [d ps text wc Hwc | best rest -> | ->].
  - unfold readability_result, _estimate_reading_time.
    destruct (Qle_bool (inject_Z wc) 0); eexists; reflexivity.
  - unfold heuristic_content, _estimate_reading_time.
    destruct (Qle_bool _ 0); eexists; reflexivity.
  - eexists; reflexivity.
Qed.

(** [parse_html] does not fail, and its article is the one assembled from
    the dictionary the arbiter chose. *)
Lemma parse_html_some soup document url :
  exists parsed main_content,
    parse_html urljoin netloc soup document url = Some parsed
    /\ _choose_main_content (_extract_main_content document)
         (content_blocks (_prepare_content_soup soup)) (page_title soup)
       = Some main_content
    /\ chosen_content (content_blocks (_prepare_content_soup soup)) (page_title soup)
         main_content
    /\ _build_article_section urljoin netloc (_extract_main_content document)
         (content_blocks (_prepare_content_soup soup)) (page_title soup)
         (_extract_meta soup) (_prepare_content_soup soup) url
       = Some (Parsed.article parsed).
Proof.
  destruct (choose_main_content_total document
              (content_blocks (_prepare_content_soup soup)) (page_title soup))
    as (mc & Hchoose & Hshape).
  destruct (build_article_section_chosen _ _ _ _ (_extract_meta soup)
              (_prepare_content_soup soup) url Hchoose Hshape) as (article & Harticle).
  eexists _, mc. split; [|split; [exact Hchoose | split; [exact Hshape|]]].
  - unfold parse_html. cbn zeta. rewrite Harticle. reflexivity.
  - exact Harticle.
Qed.

(** C9. Cap enforcement: [parse_html] returns an article whose gallery
    has at most 5 images, whose videos are at most 3 and whose links are
    at most 40, whatever the page holds. *)
Theorem article_caps (soup : node) (document : option Readable.t) (url : string) :
  exists parsed,
    parse_html urljoin netloc soup document url = Some parsed
    /\ (length (Media.gallery (Article.media (Parsed.article parsed))) <= 5)%nat
    /\ (length (Media.videos (Article.media (Parsed.article parsed))) <= 3)%nat
    /\ (length (Article.links (Parsed.article parsed)) <= 40)%nat.
Proof.
  destruct (parse_html_some soup document url) as (parsed & mc & Hparse & _ & _ & Harticle).
  exists parsed. split; [exact Hparse|].
  apply build_article_section_inv in Harticle
    as (mc' & c & _ & Hmedia & Hlinks & _).
  apply extract_article_media_some in Hmedia as (Hgallery & Hvideos & _).
  apply extract_links_from_main_length in Hlinks. auto.
Qed.

(** The videos of an article are the first three of its fragment: the
    iframe lookup runs on the filtered tree, which has no iframe. *)
Lemma article_videos_from_fragment soup document url :
  exists parsed main_content fragment,
    parse_html urljoin netloc soup document url = Some parsed
    /\ _choose_main_content (_extract_main_content document)
         (content_blocks (_prepare_content_soup soup)) (page_title soup)
       = Some main_content
    /\ content_fragment main_content = Some fragment
    /\ Media.videos (Article.media (Parsed.article parsed))
       = firstn 3 match fragment with
                  | Some fragment_soup => fragment_videos urljoin url fragment_soup
                  | None => []
                  end.
Proof.
  destruct (parse_html_some soup document url) as (parsed & mc & Hparse & Hchoose & _ & Harticle).
  apply build_article_section_inv in Harticle as (mc' & c & Hchoose' & Hmedia & _).
  rewrite Hchoose in Hchoose'. injection Hchoose' as <-.
  apply extract_article_media_some in Hmedia as (_ & _ & fragment & Hfragment & Hvideos).
  exists parsed, mc, fragment. repeat split; try assumption.
  rewrite Hvideos, prepared_has_no_iframe, app_nil_r. reflexivity.
Qed.

Lemma score_block_nonneg word_count link_density paragraph_count heading :
  (0 <= word_count)%Z -> (0 <= paragraph_count)%Z ->
  (0 <= _score_block word_count link_density paragraph_count heading)%Q.
Proof.
  intros Hw Hp. unfold _score_block.
  apply Qmult_le_0_compat; [apply score_block_factor_nonneg; assumption|].
  destruct (Q.min_spec link_density (9 # 10)) as [[? ->] | [? ->]]; lra.
Qed.

Lemma built_score_nonneg soup block : built_from soup block -> (0 <= Block.score block)%Q.
Proof.
  intros (element & up & idx & _ & _ & H).
  apply build_block_info_some in H as (_ & H40 & _ & _ & ld & pc & Hpc & ->).
  apply round2_nonneg, score_block_nonneg; [lia | exact Hpc].
Qed.

(** The confidence and the source of each dictionary the arbiter can
    choose. *)
Lemma chosen_confidence blocks fallback_title main_content :
  chosen_content blocks fallback_title main_content ->
  (forall block, In block blocks -> (0 <= Block.score block)%Q) ->
  exists confidence source,
    get_number main_content "confidence" (PFloat (4 # 10)) = Some confidence
    /\ get_opt_str main_content "source" = Some (Some source)
    /\ ((source = "readability" /\ (6 # 10 <= confidence <= 95 # 100)%Q)
        \/ (source = "heuristic" /\ (4 # 10 <= confidence <= 85 # 100)%Q)
        \/ (source = "unknown" /\ confidence = 2 # 10)).
Proof.
  intros [d ps text wc Hwc | best rest -> | ->] Hscores.
  - eexists _, _. split; [reflexivity|]. split; [reflexivity|]. left. split; [reflexivity|].
    assert (0 <= inject_Z wc)%Q by (rewrite Zle_Qle in Hwc; exact Hwc).
    destruct (Q.min_spec (95 # 100) ((6 # 10) + inject_Z wc / 1500)) as [[? ->] | [? ->]];
      generalize dependent (inject_Z wc); intros; q_linear.
  - eexists _, _. split; [reflexivity|]. split; [reflexivity|]. right. left.
    split; [reflexivity|].
    pose proof (Hscores best (or_introl eq_refl)) as Hs.
    destruct (Q.min_spec (Block.score best / 1500) (45 # 100)) as [[? ->] | [? ->]];
      destruct (Q.min_spec (85 # 100) ((4 # 10) + Block.score best / 1500)) as [[? E] | [? E]];
      destruct (Q.min_spec (85 # 100) ((4 # 10) + (45 # 100))) as [[? E'] | [? E']];
      rewrite ?E, ?E'; q_linear.
  - eexists _, _. split; [reflexivity|]. split; [reflexivity|]. right. right.
    split; reflexivity.
Qed.

(** C10. Confidence bounds: [parse_html] returns an article whose
    reported confidence lies between 0.2 and 0.95; it is 0.2 exactly when
    the source is [unknown], the empty result of the last tier; it is at
    least 0.4 (and at most 0.85) when a heuristic block wins, and at
    least 0.6 when the readability output is returned. *)
Theorem confidence_bounds (soup : node) (document : option Readable.t) (url : string) :
  exists parsed,
    parse_html urljoin netloc soup document url = Some parsed
    /\ let confidence := Stats.confidence (Article.stats (Parsed.article parsed)) in
       let source := Body.source (Article.body (Parsed.article parsed)) in
       (2 # 10 <= confidence <= 95 # 100)%Q
       /\ ((confidence == 2 # 10)%Q <-> source = Some "unknown")
       /\ (source = Some "heuristic" -> (4 # 10 <= confidence <= 85 # 100)%Q)
       /\ (source = Some "readability" -> (6 # 10 <= confidence <= 95 # 100)%Q)
       /\ (source = Some "unknown" \/ source = Some "heuristic"
           \/ source = Some "readability").
Proof.
  destruct (parse_html_some soup document url)
    as (parsed & mc & Hparse & Hchoose & Hshape & Harticle).
  exists parsed. split; [exact Hparse|].
  apply build_article_section_inv in Harticle
    as (mc' & c & Hchoose' & _ & _ & Hc & -> & Hsource).
  rewrite Hchoose in Hchoose'. injection Hchoose' as <-.
  destruct (chosen_confidence _ _ _ Hshape) as (c' & source & Hc' & Hsource' & Hcases).
  { intros block Hin. apply (built_score_nonneg (_prepare_content_soup soup)).
    apply content_blocks_built, Hin. }
  rewrite Hc in Hc'. injection Hc' as <-.
  rewrite Hsource in Hsource'. injection Hsource' as ->.
  cbn zeta.
  assert (H20 : (Py.round (2 # 10) 2 == 2 # 10)%Q) by reflexivity.
  destruct Hcases as [[-> [Hlo Hhi]] | [[-> [Hlo Hhi]] | [-> ->]]].
  - pose proof (round2_ge 60 c) as Hge. pose proof (round2_le 95 c) as Hle.
    assert (60 # 100 <= Py.round c 2)%Q by (apply Hge; lra).
    assert (Py.round c 2 <= 95 # 100)%Q by (apply Hle; lra).
    repeat split; try lra; try discriminate; auto.
  - pose proof (round2_ge 40 c) as Hge. pose proof (round2_le 85 c) as Hle.
    assert (40 # 100 <= Py.round c 2)%Q by (apply Hge; lra).
    assert (Py.round c 2 <= 85 # 100)%Q by (apply Hle; lra).
    repeat split; try lra; try discriminate; auto.
  - rewrite H20. repeat split; try lra; try discriminate; auto; intros; reflexivity.
Qed.

(** C2, as amended. Tier-3 fall-through: with no candidate block and an
    empty readability output the arbiter returns the empty object of
    source [unknown] and confidence exactly 0.2; with no candidate block
    and a readability output that is not empty but below 80 words it
    returns that output. When, in the filtered tree, no article, main,
    section or div and no tag a selector of the schema strategy matches
    has 40 words, the candidate list is empty, and the reported
    confidence is exactly 0.2 if the readability output is empty. *)
Theorem tier3_fall_through :
  (forall fallback_title,
      _choose_main_content ∅ [] fallback_title = Some (unknown_content fallback_title)
      /\ unknown_content fallback_title !! "source" = Some (PStr "unknown")
      /\ unknown_content fallback_title !! "confidence" = Some (PFloat (2 # 10))
      /\ unknown_content fallback_title !! "text" = Some (PStr "")
      /\ unknown_content fallback_title !! "paragraphs" = Some (PList [])
      /\ unknown_content fallback_title !! "word_count" = Some (PInt 0))
  /\ (forall rc w fallback_title,
        dict_truthy rc = true ->
        get_number rc "word_count" (PInt 0) = Some w ->
        (w < 80)%Q ->
        _choose_main_content rc [] fallback_title = Some rc)
  /\ (forall soup,
        (forall element,
            In element (descendants soup) -> candidate_tag element = true ->
            (visible_words element < 40)%Z) ->
        content_blocks soup = [])
  /\ (forall soup document url,
        (forall element,
            In element (descendants (_prepare_content_soup soup)) ->
            candidate_tag element = true ->
            (visible_words element < 40)%Z) ->
        _extract_main_content document = ∅ ->
        exists parsed,
          parse_html urljoin netloc soup document url = Some parsed
          /\ Body.source (Article.body (Parsed.article parsed)) = Some "unknown"
          /\ (Stats.confidence (Article.stats (Parsed.article parsed)) == 2 # 10)%Q).
Proof.
  split; [intros fallback_title; repeat split|].
  split; [intros rc w fallback_title Htruthy Hwords Hlt;
          apply (choose_short_readability rc [] fallback_title w Htruthy Hwords Hlt)|].
  split; [intros soup Hshort; apply (content_blocks_empty soup Hshort)|].
  intros soup document url Hshort Hempty.
  destruct (parse_html_some soup document url) as (parsed & mc & Hparse & Hchoose & _ & Harticle).
  exists parsed. split; [exact Hparse|].
  destruct (content_blocks_empty _ Hshort) as (_ & _ & Hblocks).
  rewrite Hempty, Hblocks in Hchoose. rewrite choose_without_readability in Hchoose.
  injection Hchoose as <-.
  apply build_article_section_inv in Harticle
    as (mc' & c & Hchoose' & _ & _ & Hc & -> & Hsource).
  rewrite Hempty, Hblocks, choose_without_readability in Hchoose'.
  injection Hchoose' as <-.
  injection Hc as <-. injection Hsource as <-.
  split; reflexivity.
Qed.

End Pipeline.

(** ** Sample runs *)

(** With no block, the summary of three words is what the arbiter
    returns; and the page of two divs of 30 words, 60 words in all, has
    no candidate. *)
Lemma tier3_fall_through_witness :
  _choose_main_content (_extract_main_content (Some short_summary)) [] "Title"
  = Some (_extract_main_content (Some short_summary))
  /\ content_blocks (_prepare_content_soup two_divs_page) = [].
Proof.
  split.
  - apply (proj1 (proj2 (tier3_fall_through sample_urljoin sample_netloc))
             (_extract_main_content (Some short_summary)) (inject_Z 3) "Title");
      [vm_compute; reflexivity | vm_compute; reflexivity | reflexivity].
  - apply (proj1 (proj2 (proj2 (tier3_fall_through sample_urljoin sample_netloc)))
             (_prepare_content_soup two_divs_page)).
    intros element Hin Hcandidate. vm_compute in Hin.
    repeat (destruct Hin as [<- | Hin];
            [first [reflexivity | vm_compute in Hcandidate; discriminate]|]).
    destruct Hin.
Defined.

(** C2, as stated, fails. With no candidate block and a readability
    output of three words the arbiter returns that output, of source
    [readability] and confidence 0.602, and the page reports 0.6, not
    0.2. And a page none of whose article, main, section and div tags has
    40 words (it has none) still gets a candidate from the schema
    strategy, and reports a confidence above 0.4. *)
Lemma tier3_not_always_unknown :
  let rc := _extract_main_content (Some short_summary) in
  get_number rc "word_count" (PInt 0) = Some (inject_Z 3)
  /\ _choose_main_content rc [] "Title" = Some rc
  /\ rc !! "source" = Some (PStr "readability")
  /\ _choose_main_content rc [] "Title" <> Some (unknown_content "Title")
  /\ content_blocks (_prepare_content_soup short_page) = []
  /\ option_map (fun parsed => Stats.confidence (Article.stats (Parsed.article parsed)))
       (parse_html sample_urljoin sample_netloc short_page (Some short_summary)
          "https://example.com/a")
     = Some (60 # 100)
  /\ find_all STRUCTURAL_TAGS (_prepare_content_soup schema_only_page) = []
  /\ length (content_blocks (_prepare_content_soup schema_only_page)) = 1%nat
  /\ option_map (fun parsed => Stats.confidence (Article.stats (Parsed.article parsed)))
       (parse_html sample_urljoin sample_netloc schema_only_page None
          "https://example.com/a")
     = Some (43 # 100).
Proof.
  cbn zeta. repeat split; try (vm_compute; reflexivity).
  intros H. apply (f_equal (fun d => d ≫= (.!! "source"))) in H.
  vm_compute in H. discriminate.
Qed.

(** C8. Iframe video inclusion does not hold of the code: the lookup of
    the first iframe with a src runs on the filtered tree, from which
    [_prepare_content_soup] has removed every iframe, so it finds none on
    any page; on [iframe_page], whose iframe has a src, the article
    reports no video. *)
Theorem iframe_video_not_reported :
  (forall soup, find_iframe (_prepare_content_soup soup) = None)
  /\ option_map (fun iframe => attr_str (tag_attrs iframe) "src") (find_iframe iframe_page)
     = Some "https://player.example.com/embed/1"
  /\ option_map (fun parsed => Media.videos (Article.media (Parsed.article parsed)))
       (parse_html sample_urljoin sample_netloc iframe_page None "https://example.com/a")
     = Some []
  /\ option_map (fun parsed => Media.videos (Article.media (Parsed.article parsed)))
       (parse_html sample_urljoin sample_netloc iframe_page (Some short_summary)
          "https://example.com/a")
     = Some [].
Proof.
  split; [exact prepared_has_no_iframe|].
  repeat split; vm_compute; reflexivity.
Qed.

(** * Further properties *)

(** ** Words and white space *)

Lemma append_cons c (s t : string) : (String c s ++ t)%string = String c (s ++ t).
Proof. reflexivity. Qed.

Lemma append_empty_r (s : string) : (s ++ "")%string = s.
Proof.
  induction s as [|c s IH]; [reflexivity|]. rewrite append_cons. f_equal. exact IH.
Qed.

Lemma append_assoc (a b c : string) : ((a ++ b) ++ c)%string = (a ++ (b ++ c))%string.
Proof.
  induction a as [|x a IH]; [reflexivity|]. rewrite !append_cons. f_equal. exact IH.
Qed.

Lemma chars_of_list l : list_ascii_of_string (string_of_list_ascii l) = l.
Proof. apply list_ascii_of_string_of_list_ascii. Qed.

Lemma string_of_rev_app (w : string) (cur : list ascii) :
  string_of_list_ascii (List.rev (List.rev (list_ascii_of_string w) ++ cur))
  = (string_of_list_ascii (List.rev cur) ++ w)%string.
Proof.
  rewrite rev_app_distr, rev_involutive.
  induction (List.rev cur) as [|c l IH]; simpl.
  - apply string_of_list_ascii_of_string.
  - rewrite append_cons. f_equal. exact IH.
Qed.

(** Reading a word moves it to the run being read. *)
Lemma split_go_word (w rest : string) (cur : list ascii) :
  (forall c, In c (list_ascii_of_string w) -> Py.isspace c = false) ->
  Py.split_go cur (w ++ rest) = Py.split_go (List.rev (list_ascii_of_string w) ++ cur) rest.
Proof.
  revert cur. induction w as [|c w IH]; intros cur Hw; [reflexivity|].
  rewrite append_cons. simpl.
  rewrite (Hw c) by now left.
  rewrite IH by (intros d Hd; apply Hw; now right).
  now rewrite <- app_assoc.
Qed.

Lemma split_go_words (s : string) (cur : list ascii) :
  (forall c, In c cur -> Py.isspace c = false) ->
  Forall is_word (Py.split_go cur s).
Proof.
  assert (Hrun : forall cur', cur' <> [] -> (forall c, In c cur' -> Py.isspace c = false) ->
                 is_word (string_of_list_ascii (List.rev cur'))).
  { intros cur' Hne Hcur. split.
    - intros H. apply (f_equal list_ascii_of_string) in H.
      rewrite chars_of_list in H. simpl in H.
      apply (f_equal (@List.rev ascii)) in H. rewrite rev_involutive in H. auto.
    - intros c Hc. rewrite chars_of_list in Hc. apply Hcur, in_rev, Hc. }
  revert cur. induction s as [|c s IH]; intros cur Hcur; simpl.
  - destruct cur as [|d cur]; [constructor|].
    constructor; [apply Hrun; [discriminate | exact Hcur] | constructor].
  - destruct (Py.isspace c) eqn:Hc.
    + destruct cur as [|d cur]; [apply IH; intros ? []|].
      constructor; [apply Hrun; [discriminate | exact Hcur] | apply IH; intros ? []].
    + apply IH. intros d [<- | Hd]; auto.
Qed.

Lemma split_words (s : string) : Forall is_word (Py.split s).
Proof. apply split_go_words. intros ? []. Qed.

Lemma split_word (w : string) : is_word w -> Py.split w = [w].
Proof.
  intros [Hne Hw]. unfold Py.split.
  rewrite <- (append_empty_r w) at 1. rewrite split_go_word by exact Hw.
  simpl. rewrite app_nil_r.
  destruct (List.rev (list_ascii_of_string w)) as [|c l] eqn:Hrev.
  - exfalso. apply Hne. apply (f_equal (@List.rev ascii)) in Hrev.
    rewrite rev_involutive in Hrev. simpl in Hrev.
    rewrite <- (string_of_list_ascii_of_string w), Hrev. reflexivity.
  - rewrite <- Hrev, rev_involutive, string_of_list_ascii_of_string. reflexivity.
Qed.

Lemma space_is_space : Py.isspace " " = true.
Proof. reflexivity. Qed.

(** Words joined by one space split into these words again. *)
Lemma split_join (ws : list string) :
  Forall is_word ws -> Py.split (Py.join " " ws) = ws.
Proof.
  induction ws as [|w ws IH]; intros Hws; [reflexivity|].
  inversion Hws as [|? ? Hw Hrest]; subst.
  destruct ws as [|w2 ws]; [apply split_word, Hw|].
  change (Py.join " " (w :: w2 :: ws)) with (w ++ (" " ++ Py.join " " (w2 :: ws)))%string.
  unfold Py.split. rewrite split_go_word by apply Hw.
  rewrite app_nil_r. simpl Py.split_go.
  destruct (List.rev (list_ascii_of_string w)) as [|c l] eqn:Hrev.
  - exfalso. apply (proj1 Hw). apply (f_equal (@List.rev ascii)) in Hrev.
    rewrite rev_involutive in Hrev. simpl in Hrev.
    rewrite <- (string_of_list_ascii_of_string w), Hrev. reflexivity.
  - rewrite <- Hrev, rev_involutive, string_of_list_ascii_of_string.
    f_equal. apply (IH Hrest).
Qed.

Lemma clean_text_join (s : string) : clean_text s = Py.join " " (Py.split s).
Proof. unfold clean_text. destruct s; reflexivity. Qed.

(** ** Stripping *)

Lemma lstrip_is_chars s : Py.lstrip s = lstrip_chars Py.isspace s.
Proof. induction s as [|c s IH]; simpl; [reflexivity | now rewrite IH]. Qed.

Lemma rstrip_is_chars s : Py.rstrip s = rstrip_chars Py.isspace s.
Proof. induction s as [|c s IH]; simpl; [reflexivity | now rewrite IH]. Qed.

Lemma strip_is_chars s : Py.strip s = strip_chars Py.isspace s.
Proof. unfold Py.strip, strip_chars. now rewrite rstrip_is_chars, lstrip_is_chars. Qed.

Lemma left_clean_lstrip p s : left_clean p s -> lstrip_chars p s = s.
Proof. destruct s as [|c s]; simpl; [reflexivity | now intros ->]. Qed.

Lemma lstrip_left_clean p s : left_clean p (lstrip_chars p s).
Proof.
  induction s as [|c s IH]; simpl; [exact I|].
  destruct (p c) eqn:Hc; [exact IH | exact Hc].
Qed.

Lemma rstrip_left_clean p s : left_clean p s -> left_clean p (rstrip_chars p s).
Proof.
  destruct s as [|c s]; simpl; [auto|]. intros Hc.
  destruct (rstrip_chars p s); [rewrite Hc|]; exact Hc.
Qed.

Lemma rstrip_idempotent p s : rstrip_chars p (rstrip_chars p s) = rstrip_chars p s.
Proof.
  induction s as [|c s IH]; simpl; [reflexivity|].
  destruct (rstrip_chars p s) as [|d r] eqn:Hr.
  - destruct (p c) eqn:Hc; simpl; [reflexivity | now rewrite Hc].
  - simpl in *. now rewrite IH.
Qed.

(** Stripping twice is stripping once. *)
Lemma strip_chars_idempotent p s : strip_chars p (strip_chars p s) = strip_chars p s.
Proof.
  unfold strip_chars.
  rewrite (left_clean_lstrip p (rstrip_chars p (lstrip_chars p s)))
    by apply rstrip_left_clean, lstrip_left_clean.
  apply rstrip_idempotent.
Qed.

Lemma lstrip_chars_in p s c :
  In c (list_ascii_of_string (lstrip_chars p s)) -> In c (list_ascii_of_string s).
Proof.
  induction s as [|d s IH]; simpl; [auto|].
  destruct (p d); simpl; auto.
Qed.

Lemma rstrip_chars_in p s c :
  In c (list_ascii_of_string (rstrip_chars p s)) -> In c (list_ascii_of_string s).
Proof.
  induction s as [|d s IH]; simpl; [auto|].
  destruct (rstrip_chars p s) as [|e r].
  - destruct (p d); simpl; [tauto | intros [H | []]; auto].
  - simpl in *. intros [H | H]; auto.
Qed.

Lemma strip_chars_in p s c :
  In c (list_ascii_of_string (strip_chars p s)) -> In c (list_ascii_of_string s).
Proof. intros H. apply (lstrip_chars_in p), (rstrip_chars_in p), H. Qed.

(** A string none of whose characters is to be stripped stays. *)
Lemma strip_chars_none p s :
  (forall c, In c (list_ascii_of_string s) -> p c = false) -> strip_chars p s = s.
Proof.
  intros H. unfold strip_chars.
  assert (Hl : lstrip_chars p s = s).
  { apply left_clean_lstrip. destruct s; simpl; [exact I | apply H; now left]. }
  rewrite Hl. clear Hl.
  induction s as [|c s IH]; simpl; [reflexivity|].
  rewrite IH by (intros d Hd; apply H; now right).
  destruct s; [|reflexivity]. rewrite (H c) by now left. reflexivity.
Qed.

(** After a word nothing is stripped at the right end. *)
Lemma rstrip_word (w : string) : is_word w -> Py.rstrip w = w.
Proof.
  intros [Hne Hw]. rewrite rstrip_is_chars.
  assert (H : strip_chars Py.isspace w = w) by (apply strip_chars_none, Hw).
  unfold strip_chars in H. rewrite left_clean_lstrip in H; [exact H|].
  destruct w; simpl; [exact I | apply Hw; now left].
Qed.

Lemma rstrip_app_word (a w : string) : is_word w -> Py.rstrip (a ++ w) = (a ++ w)%string.
Proof.
  intros Hw. induction a as [|c a IH]; [apply rstrip_word, Hw|].
  rewrite append_cons. simpl. rewrite IH.
  destruct (a ++ w)%string eqn:E; [|reflexivity].
  exfalso. destruct a; [apply (proj1 Hw), E | discriminate].
Qed.

Lemma join_words_end (ws : list string) :
  Forall is_word ws -> ws <> [] ->
  exists a w, is_word w /\ Py.join " " ws = (a ++ w)%string.
Proof.
  induction ws as [|w ws IH]; intros Hws Hne; [congruence|].
  inversion Hws as [|? ? Hw Hrest]; subst.
  destruct ws as [|w2 ws]; [exists "", w; auto|].
  destruct (IH Hrest ltac:(discriminate)) as (a & w' & Hw' & E).
  exists (w ++ " " ++ a)%string, w'. split; [exact Hw'|].
  change (Py.join " " (w :: w2 :: ws)) with (w ++ (" " ++ Py.join " " (w2 :: ws)))%string.
  rewrite E, !append_assoc. reflexivity.
Qed.

Lemma join_words_left_clean (ws : list string) :
  Forall is_word ws -> left_clean Py.isspace (Py.join " " ws).
Proof.
  destruct ws as [|w ws]; intros Hws; [exact I|].
  inversion Hws as [|? ? [Hne Hw] Hrest]; subst.
  destruct w as [|c w]; [congruence|].
  assert (Hc : Py.isspace c = false) by (apply Hw; now left).
  destruct ws; simpl; exact Hc.
Qed.

Lemma clean_text_facts (text : string) :
  clean_text (clean_text text) = clean_text text
  /\ Py.split (clean_text text) = Py.split text
  /\ Py.strip (clean_text text) = clean_text text.
Proof.
  assert (Hsplit : Py.split (clean_text text) = Py.split text).
  { rewrite clean_text_join. apply split_join, split_words. }
  split; [|split; [exact Hsplit|]].
  - rewrite (clean_text_join (clean_text text)), Hsplit. symmetry. apply clean_text_join.
  - rewrite clean_text_join. unfold Py.strip.
    rewrite lstrip_is_chars, left_clean_lstrip by apply join_words_left_clean, split_words.
    destruct (Py.split text) as [|w ws] eqn:E; [reflexivity|].
    destruct (join_words_end (w :: ws)) as (a & w' & Hw' & Hj);
      [rewrite <- E; apply split_words | discriminate|].
    rewrite Hj. apply rstrip_app_word, Hw'.
Qed.

(** X1. [clean_text] gives a normal form: cleaning a clean text changes
    nothing; the clean text has the words of the text, in particular as
    many, and no white space at either end. *)
Theorem clean_text_normal_form (text : string) :
  clean_text (clean_text text) = clean_text text
  /\ Py.split (clean_text text) = Py.split text
  /\ length (Py.split (clean_text text)) = length (Py.split text)
  /\ Py.strip (clean_text text) = clean_text text.
Proof.
  destruct (clean_text_facts text) as (Hidem & Hsplit & Hstrip).
  rewrite Hsplit. auto.
Qed.

(** ** Comma-separated values *)

Lemma split_on_go_no_sep sep (s : string) (cur : list ascii) piece c :
  (forall d, In d cur -> Ascii.eqb d sep = false) ->
  In piece (split_on_go sep cur s) ->
  In c (list_ascii_of_string piece) -> Ascii.eqb c sep = false.
Proof.
  revert cur. induction s as [|d s IH]; intros cur Hcur; simpl.
  - intros [<- | []]. rewrite chars_of_list. intros Hc. apply Hcur, in_rev, Hc.
  - destruct (Ascii.eqb d sep) eqn:Hd.
    + intros [<- | Hin].
      * rewrite chars_of_list. intros Hc. apply Hcur, in_rev, Hc.
      * apply (IH []); [intros ? [] | exact Hin].
    + apply IH. intros e [<- | He]; auto.
Qed.

Lemma split_on_go_run sep (w rest : string) (cur : list ascii) :
  (forall c, In c (list_ascii_of_string w) -> Ascii.eqb c sep = false) ->
  split_on_go sep cur (w ++ rest)
  = split_on_go sep (List.rev (list_ascii_of_string w) ++ cur) rest.
Proof.
  revert cur. induction w as [|c w IH]; intros cur Hw; [reflexivity|].
  rewrite append_cons. simpl.
  rewrite (Hw c) by now left.
  rewrite IH by (intros d Hd; apply Hw; now right).
  now rewrite <- app_assoc.
Qed.

Lemma lstrip_spaces (pre x : string) :
  (forall c, In c (list_ascii_of_string pre) -> Py.isspace c = true) ->
  left_clean Py.isspace x ->
  lstrip_chars Py.isspace (pre ++ x) = x.
Proof.
  intros Hpre Hx. induction pre as [|c pre IH]; [apply left_clean_lstrip, Hx|].
  rewrite append_cons. simpl. rewrite (Hpre c) by now left.
  apply IH. intros d Hd. apply Hpre. now right.
Qed.

Lemma strip_spaces_entry (pre x : string) :
  (forall c, In c (list_ascii_of_string pre) -> Py.isspace c = true) ->
  Py.strip x = x -> Py.strip (pre ++ x) = x.
Proof.
  intros Hpre Hx. rewrite strip_is_chars in *. unfold strip_chars.
  rewrite lstrip_spaces; [| exact Hpre |].
  - rewrite <- Hx at 1. unfold strip_chars. rewrite rstrip_idempotent. exact Hx.
  - rewrite <- Hx. apply rstrip_left_clean, lstrip_left_clean.
Qed.

Lemma nonempty_true (s : string) : s <> "" -> Py.nonempty s = true.
Proof. destruct s; [congruence | reflexivity]. Qed.

Lemma chars_app (a b : string) :
  list_ascii_of_string (a ++ b) = list_ascii_of_string a ++ list_ascii_of_string b.
Proof.
  induction a as [|c a IH]; [reflexivity|]. rewrite append_cons. simpl. now rewrite IH.
Qed.

Lemma split_entries (items : list string) (pre : string) :
  Forall is_entry items -> items <> [] ->
  (forall c, In c (list_ascii_of_string pre) -> Py.isspace c = true) ->
  List.filter Py.nonempty (map Py.strip (split_on "," (pre ++ Py.join ", " items))) = items.
Proof.
  assert (Hcomma : forall pre x,
    (forall c, In c (list_ascii_of_string pre) -> Py.isspace c = true) -> is_entry x ->
    forall c, In c (list_ascii_of_string (pre ++ x)) -> Ascii.eqb c "," = false).
  { intros pre' x Hpre (_ & _ & Hx) c Hc. rewrite chars_app in Hc.
    apply in_app_or in Hc as [Hc | Hc]; [|auto].
    apply Hpre in Hc. destruct (Ascii.eqb_spec c ","); [subst; discriminate | reflexivity]. }
  revert pre. induction items as [|x items IH]; intros pre Hitems Hne Hpre; [congruence|].
  inversion Hitems as [|? ? Hx Hrest]; subst.
  destruct items as [|y items].
  - simpl Py.join. unfold split_on.
    rewrite <- (append_empty_r (pre ++ x)), split_on_go_run by (apply Hcomma; auto).
    simpl. rewrite app_nil_r, rev_involutive, string_of_list_ascii_of_string.
    rewrite strip_spaces_entry by (auto; apply Hx).
    rewrite nonempty_true by apply Hx. reflexivity.
  - change (Py.join ", " (x :: y :: items))
      with (x ++ (String "," (" " ++ Py.join ", " (y :: items))))%string.
    unfold split_on. rewrite <- append_assoc, split_on_go_run by (apply Hcomma; auto).
    simpl split_on_go. rewrite app_nil_r, rev_involutive, string_of_list_ascii_of_string.
    simpl. rewrite strip_spaces_entry by (auto; apply Hx).
    rewrite nonempty_true by apply Hx. f_equal.
    apply (IH " " Hrest); [discriminate|].
    intros c [<- | []]. reflexivity.
Qed.

(** X2. [_split_meta_values]: a missing or empty value gives no entry;
    every entry returned is not empty, has no white space at either end
    and no comma; and entries of that kind joined by a comma and a space
    are returned as they were. *)
Theorem split_meta_values_entries :
  _split_meta_values None = []
  /\ _split_meta_values (Some "") = []
  /\ (forall value, Forall is_entry (_split_meta_values (Some value)))
  /\ (forall items, Forall is_entry items ->
        _split_meta_values (Some (Py.join ", " items)) = items).
Proof.
  split; [reflexivity|]. split; [reflexivity|]. split.
  - intros value. unfold _split_meta_values.
    destruct (Py.nonempty value); [|constructor].
    apply List.Forall_forall. intros item Hin.
    apply filter_In in Hin as [Hin Hne]. apply in_map_iff in Hin as (piece & <- & Hpiece).
    split; [destruct (Py.strip piece); [discriminate | congruence]|].
    split; [rewrite !strip_is_chars; apply strip_chars_idempotent|].
    intros c Hc. rewrite strip_is_chars in Hc. apply strip_chars_in in Hc.
    apply (split_on_go_no_sep "," value [] piece c); [intros ? [] | exact Hpiece | exact Hc].
  - intros items Hitems. unfold _split_meta_values.
    destruct items as [|x items]; [reflexivity|].
    assert (Hj : Py.nonempty (Py.join ", " (x :: items)) = true).
    { inversion Hitems as [|? ? (Hx & _) _]; subst.
      destruct x; [congruence|]. destruct items; reflexivity. }
    rewrite Hj. apply (split_entries (x :: items) ""); [exact Hitems | discriminate | intros ? []].
Qed.

Lemma split_meta_values_entries_witness :
  _split_meta_values (Some "news, world affairs, tech") = ["news"; "world affairs"; "tech"].
Proof.
  apply (proj2 (proj2 (proj2 split_meta_values_entries)) ["news"; "world affairs"; "tech"]).
  repeat constructor; try discriminate;
    intros c Hc; simpl in Hc; repeat destruct Hc as [<- | Hc]; solve [reflexivity | destruct Hc].
Defined.

(** ** File names *)

Lemma sub_runs_safe in_run s : slug_safe (sub_runs in_run s).
Proof.
  revert in_run. induction s as [|c s IH]; intros in_run; simpl; [intros ? []|].
  destruct (slug_char c) eqn:Hc.
  - intros d [<- | Hd]; [exact Hc | apply (IH false d Hd)].
  - destruct in_run; [apply IH|].
    intros d [<- | Hd]; [reflexivity | apply (IH true d Hd)].
Qed.

Lemma sub_runs_of_safe in_run s : slug_safe s -> sub_runs in_run s = s.
Proof.
  revert in_run. induction s as [|c s IH]; intros in_run Hs; simpl; [reflexivity|].
  rewrite (Hs c) by now left. f_equal. apply IH. intros d Hd. apply Hs. now right.
Qed.

Lemma or_else_empty s : Py.or_else s "" = s.
Proof. destruct s; reflexivity. Qed.

Lemma slug_safe_app a b : slug_safe a -> slug_safe b -> slug_safe (a ++ b).
Proof.
  intros Ha Hb c Hc. rewrite chars_app in Hc. apply in_app_or in Hc as [Hc | Hc]; auto.
Qed.

Lemma sanitize_slug_is_safe value : slug_safe (sanitize_slug value).
Proof.
  unfold sanitize_slug. destruct (negb _); [intros ? []|].
  rewrite or_else_empty. intros c Hc. apply strip_chars_in in Hc.
  apply (sub_runs_safe false _ c Hc).
Qed.

(** X3. [sanitize_slug] returns a string made of letters, digits, dots,
    underscores and hyphens only (so without slash), with no underscore
    at either end, and leaves such a result as it is when applied
    again. *)
Theorem sanitize_slug_safe_idempotent (value : string) :
  (forall c, In c (list_ascii_of_string (sanitize_slug value)) -> slug_char c = true)
  /\ ~ In "/"%char (list_ascii_of_string (sanitize_slug value))
  /\ strip_chars (Ascii.eqb "_") (sanitize_slug value) = sanitize_slug value
  /\ sanitize_slug (sanitize_slug value) = sanitize_slug value.
Proof.
  pose proof (sanitize_slug_is_safe value) as Hsafe.
  assert (Hstrip : strip_chars (Ascii.eqb "_") (sanitize_slug value) = sanitize_slug value).
  { unfold sanitize_slug. destruct (negb _); [reflexivity|].
    rewrite or_else_empty. apply strip_chars_idempotent. }
  split; [exact Hsafe|]. split; [intros H; apply Hsafe in H; discriminate|].
  split; [exact Hstrip|].
  set (r := sanitize_slug value) in *.
  unfold sanitize_slug at 1.
  rewrite (strip_chars_none (Ascii.eqb "/") r).
  - destruct r as [|c r'] eqn:Er; [reflexivity|]. simpl negb. cbv iota.
    rewrite sub_runs_of_safe by exact Hsafe. rewrite Hstrip. reflexivity.
  - intros c Hc. apply Hsafe in Hc.
    destruct (Ascii.eqb_spec "/" c) as [<- | _]; [discriminate | reflexivity].
Qed.

Lemma uint_safe (d : Decimal.uint) : slug_safe (NilEmpty.string_of_uint d).
Proof.
  induction d; simpl; [intros ? [] | ..];
    intros c [<- | Hc]; solve [reflexivity | apply IHd, Hc].
Qed.

(** X4. [determine_output_path]: a path given on the command line is
    used as it is; otherwise the file goes into the output directory
    under a name that starts with [scrape_], ends with [.json] and,
    the time stamp being made of slug characters, has no character
    outside letters, digits, dot, underscore and hyphen, whatever the
    URL: no slash, so no way out of the directory. *)
Theorem output_file_name_safe
    (custom_output : option string) (output_dir : string) (content_domain : option string)
    (url_netloc url_path ts : string) (index : nat) :
  slug_safe ts ->
  match determine_output_path custom_output output_dir content_domain
          url_netloc url_path ts index with
  | CustomPath path => custom_output = Some path /\ path <> ""
  | InDirectory dir filename =>
      (custom_output = None \/ custom_output = Some "")
      /\ dir = output_dir
      /\ slug_safe filename
      /\ ~ In "/"%char (list_ascii_of_string filename)
      /\ exists stem, filename = ("scrape_" ++ stem ++ ".json")%string
  end.
Proof.
  intros Hts. unfold determine_output_path.
  set (domain := Py.or_else _ _). set (slug := Py.or_else (sanitize_slug url_path) "page").
  assert (Hslug : slug_safe slug).
  { unfold slug, Py.or_else. destruct (Py.nonempty _); [apply sanitize_slug_is_safe|].
    slug_literal. }
  assert (Hname : slug_safe ("scrape_" ++ sanitize_slug domain ++ "_" ++ slug ++ "_" ++ ts
                             ++ "_" ++ str_of_nat index ++ ".json")).
  { apply slug_safe_app; [slug_literal|].
    apply slug_safe_app; [apply sanitize_slug_is_safe|].
    apply slug_safe_app; [slug_literal|].
    apply slug_safe_app; [exact Hslug|].
    apply slug_safe_app; [slug_literal|].
    apply slug_safe_app; [exact Hts|].
    apply slug_safe_app; [slug_literal|].
    apply slug_safe_app; [apply uint_safe | slug_literal]. }
  assert (Hin : forall c, custom_output = c -> (c = None \/ c = Some "") ->
    (custom_output = None \/ custom_output = Some "")
    /\ output_dir = output_dir
    /\ slug_safe ("scrape_" ++ sanitize_slug domain ++ "_" ++ slug ++ "_" ++ ts
                  ++ "_" ++ str_of_nat index ++ ".json")
    /\ ~ In "/"%char (list_ascii_of_string
           ("scrape_" ++ sanitize_slug domain ++ "_" ++ slug ++ "_" ++ ts
            ++ "_" ++ str_of_nat index ++ ".json"))
    /\ exists stem, ("scrape_" ++ sanitize_slug domain ++ "_" ++ slug ++ "_" ++ ts
                     ++ "_" ++ str_of_nat index ++ ".json")%string
                    = ("scrape_" ++ stem ++ ".json")%string).
  { intros c -> Hc. split; [exact Hc|]. split; [reflexivity|]. split; [exact Hname|].
    split; [intros H; apply Hname in H; discriminate|].
    exists (sanitize_slug domain ++ "_" ++ slug ++ "_" ++ ts ++ "_" ++ str_of_nat index)%string.
    rewrite !append_assoc. reflexivity. }
  destruct custom_output as [[|c custom]|]; simpl Py.nonempty; cbv iota.
  - apply (Hin (Some "")); auto.
  - split; [reflexivity | discriminate].
  - apply (Hin None); auto.
Qed.

(** A URL path that tries to climb out of the directory. *)
Lemma output_file_name_safe_witness :
  match determine_output_path None "Results" (Some "example.com") "example.com"
          "/news/../../etc/passwd" "20261104_101500" 1 with
  | CustomPath path => None = Some path /\ path <> ""
  | InDirectory dir filename =>
      (@None string = None \/ None = Some "")
      /\ dir = "Results"
      /\ slug_safe filename
      /\ ~ In "/"%char (list_ascii_of_string filename)
      /\ exists stem, filename = ("scrape_" ++ stem ++ ".json")%string
  end.
Proof.
  apply (output_file_name_safe None "Results" (Some "example.com") "example.com"
           "/news/../../etc/passwd" "20261104_101500" 1).
  slug_literal.
Defined.

(** ** Ranking *)

Lemma insert_by_score_ranked b sorted : ranked sorted -> ranked (insert_by_score b sorted).
Proof.
  unfold ranked. induction sorted as [|c rest IH]; intros Hs; simpl.
  - constructor; constructor.
  - apply StronglySorted_inv in Hs as [Hrest Hc].
    destruct (Qle_bool (Block.score c) (Block.score b)) eqn:Hle.
    + apply Qle_bool_iff in Hle. constructor; [constructor; assumption|].
      constructor; [exact Hle|].
      rewrite List.Forall_forall in *. intros x Hx. specialize (Hc x Hx).
      eapply Qle_trans; eassumption.
    + assert (Hlt : (Block.score b < Block.score c)%Q).
      { apply Qnot_le_lt. intros H. apply Qle_bool_iff in H. congruence. }
      constructor; [apply IH, Hrest|].
      rewrite List.Forall_forall in *. intros x Hx.
      apply insert_by_score_in in Hx as [-> | Hx]; [apply Qlt_le_weak, Hlt | auto].
Qed.

Lemma sort_by_score_ranked candidates : ranked (sort_by_score candidates).
Proof.
  induction candidates as [|b rest IH]; simpl; [constructor|].
  apply insert_by_score_ranked, IH.
Qed.

Lemma firstn_ranked n blocks : ranked blocks -> ranked (firstn n blocks).
Proof.
  unfold ranked. revert n. induction blocks as [|b rest IH]; intros n Hs.
  - destruct n; constructor.
  - destruct n; simpl; [constructor|].
    apply StronglySorted_inv in Hs as [Hrest Hb].
    constructor; [apply IH, Hrest|].
    rewrite List.Forall_forall in *. intros x Hx. apply Hb, (firstn_in n), Hx.
Qed.

Lemma insert_by_score_length b sorted :
  length (insert_by_score b sorted) = S (length sorted).
Proof.
  induction sorted as [|c rest IH]; simpl; [reflexivity|].
  destruct (Qle_bool _ _); simpl; [reflexivity | now rewrite IH].
Qed.

Lemma sort_by_score_length candidates : length (sort_by_score candidates) = length candidates.
Proof.
  induction candidates as [|b rest IH]; simpl; [reflexivity|].
  now rewrite insert_by_score_length, IH.
Qed.

Lemma filter_filter {A} (p q : A -> bool) (l : list A) :
  List.filter p (List.filter q l) = List.filter (fun x => q x && p x) l.
Proof.
  induction l as [|x l IH]; [reflexivity|]. simpl.
  destruct (q x); simpl; [destruct (p x); now rewrite IH | exact IH].
Qed.

Lemma candidates_length (found : list (node * crumbs)) (start : nat) :
  length
    (flat_map
       (fun '(idx, (element, up)) =>
          if _should_skip_element element then []
          else match _build_block_info element up (str_of_nat idx) with
               | Some block => [block]
               | None => []
               end)
       (combine (seq start (length found)) found))
  = length (List.filter
              (fun e => is_tag (fst e) && negb (_should_skip_element (fst e))
                        && (40 <=? visible_words (fst e))%Z)
              found).
Proof.
  revert start. induction found as [|[element up] found IH]; intros start; [reflexivity|].
  simpl. rewrite length_app, IH.
  destruct element as [s | name attrs cs]; [reflexivity|]. simpl is_tag.
  destruct (_should_skip_element (Elem name attrs cs)); simpl; [reflexivity|].
  destruct (Z.leb_spec 40 (visible_words (Elem name attrs cs))) as [H40 | H40].
  - destruct (_build_block_info (Elem name attrs cs) up (str_of_nat start)) eqn:Hb;
      [reflexivity|].
    exfalso. unfold _build_block_info, visible_words in *. simpl in Hb.
    destruct (Z.ltb_spec (Z.of_nat (length (Py.split (clean_text
                (get_text_sep (Elem name attrs cs)))))) 40); [lia | discriminate].
  - rewrite (build_block_info_none _ _ _ H40). reflexivity.
Qed.

(** X5. Ranking: [_extract_content_blocks] returns its blocks in order of
    score, the highest first; it returns one block for each article,
    main, section or div that is not skipped and has 40 words, up to 10
    of them. *)
Theorem content_blocks_ranked (soup : node) :
  ranked (_extract_content_blocks soup)
  /\ length (_extract_content_blocks soup)
     = Nat.min 10 (length (List.filter is_candidate (located soup))).
Proof.
  unfold _extract_content_blocks. split.
  - apply firstn_ranked, sort_by_score_ranked.
  - rewrite length_firstn, sort_by_score_length. unfold enumerate.
    rewrite candidates_length, filter_filter. f_equal. f_equal.
    apply filter_ext. intros [e up]. unfold is_candidate. cbn [fst].
    destruct (name_in STRUCTURAL_TAGS e) eqn:Hn; [|reflexivity].
    destruct e; [discriminate | reflexivity].
Qed.

(** ** Blocks *)

(** The range of the exact score. The doubles of the code can fall
    short of the lower bound by a rounding error ([1.0 - 0.9] is a
    little less than a tenth); the rounding to two decimals in
    [_build_block_info] takes that away, and the bounds used further on
    are bounds of the rounded score. *)
Lemma score_block_bounds word_count link_density paragraph_count heading :
  (0 <= word_count)%Z -> (0 <= paragraph_count)%Z -> (0 <= link_density)%Q ->
  (inject_Z word_count * (1 # 10)
   <= _score_block word_count link_density paragraph_count heading
   <= inject_Z word_count * (15 # 8))%Q.
Proof.
  intros Hw Hp Hd. unfold _score_block.
  assert (H0 : (0 <= inject_Z word_count)%Q) by (rewrite Zle_Qle in Hw; exact Hw).
  assert (Hm : (0 <= inject_Z (Z.min paragraph_count 5) <= 5)%Q).
  { split.
    - assert (H : (0 <= Z.min paragraph_count 5)%Z) by lia. rewrite Zle_Qle in H. exact H.
    - assert (H : (Z.min paragraph_count 5 <= 5)%Z) by lia. rewrite Zle_Qle in H. exact H. }
  generalize dependent (inject_Z (Z.min paragraph_count 5)). intros m Hm.
  generalize dependent (inject_Z word_count). intros w H0.
  assert (Hl : (1 # 10 <= 1 - Qmin link_density (9 # 10) <= 1)%Q).
  { destruct (Q.min_spec link_density (9 # 10)) as [[? ->] | [? ->]]; lra. }
  generalize dependent (1 - Qmin link_density (9 # 10))%Q. intros l Hl.
  assert (Hh : (1 <= (if Py.nonempty heading then 125 # 100 else 1) <= 125 # 100)%Q)
    by (destruct (Py.nonempty heading); lra).
  generalize dependent (if Py.nonempty heading then 125 # 100 else 1%Q). intros h Hh.
  assert (Hp' : (1 <= 1 + m * (1 # 10) <= 15 # 10)%Q) by lra.
  generalize dependent (1 + m * (1 # 10))%Q. intros p Hp'.
  assert (Ha : (w <= w * h <= w * (125 # 100))%Q) by (split; nra).
  generalize dependent (w * h)%Q. intros a Ha.
  assert (Hb : (w <= a * p <= w * (15 # 8))%Q) by (split; nra).
  generalize dependent (a * p)%Q. intros b Hb.
  split; nra.
Qed.

Lemma build_block_info_fields element up idx block :
  _build_block_info element up idx = Some block ->
  let text := clean_text (get_text_sep element) in
  Block.text_preview block
  = (Py.take 280 text ++ (if (280 <? len text)%Z then "..." else ""))%string
  /\ Block.dom_path block = _compute_dom_path element up
  /\ Block.id block = ("block_" ++ idx)%string
  /\ Block.tag block = tag_name element
  /\ exists link_density paragraph_count,
       (0 <= link_density)%Q /\ (0 <= paragraph_count)%Z
       /\ Block.score block
          = Py.round (_score_block (visible_words element) link_density paragraph_count
                        (Block.heading block)) 2.
Proof.
  unfold _build_block_info, visible_words.
  destruct (is_tag element); simpl; [|discriminate].
  destruct (Z.ltb_spec (Z.of_nat (length (Py.split (clean_text (get_text_sep element))))) 40);
    [discriminate|].
  intros [= <-]. simpl. repeat split.
  eexists _, _. split; [|split; [|reflexivity]]; [|lia].
  apply Qle_shift_div_l.
  - assert (H1 : (0 < Z.max (len (clean_text (get_text_sep element))) 1)%Z) by lia.
    rewrite Zlt_Qlt in H1. exact H1.
  - rewrite Qmult_0_l. unfold len.
    assert (H0 : (0 <= Z.of_nat (String.length (Py.join " "
                    (map (fun a => clean_text (get_text_sep a)) (find_all ["a"] element)))))%Z)
      by lia.
    rewrite Zle_Qle in H0. exact H0.
Qed.

(** X6. Score range: the score [_build_block_info] stores in a block is
    at least 4 and at most 1.88 times the word count of the block. *)
Theorem block_score_range (element : node) (up : crumbs) (idx : string) (block : Block.t) :
  _build_block_info element up idx = Some block ->
  (4 <= Block.score block)%Q
  /\ (Block.score block <= (188 * Block.word_count block) # 100)%Q.
Proof.
  intros Hb.
  pose proof (build_block_info_some _ _ _ _ Hb) as (_ & H40 & Hwc & _).
  apply build_block_info_fields in Hb as (_ & _ & _ & _ & ld & pc & Hld & Hpc & ->).
  rewrite Hwc.
  destruct (score_block_bounds (visible_words element) ld pc (Block.heading block))
    as [Hlo Hhi]; [lia | exact Hpc | exact Hld |].
  assert (Hw : (40 <= inject_Z (visible_words element))%Q).
  { rewrite Zle_Qle in H40. exact H40. }
  split.
  - apply (Qle_trans _ (400 # 100)); [unfold Qle; simpl; lia|].
    apply round2_ge. generalize dependent (inject_Z (visible_words element)). intros; lra.
  - apply round2_le.
    assert (E : ((188 * visible_words element) # 100
                 == inject_Z (visible_words element) * (188 # 100))%Q).
    { unfold Qeq, inject_Z. simpl. lia. }
    rewrite E. generalize dependent (inject_Z (visible_words element)). intros; lra.
Qed.

(** A div whose 40 words are all in a link: its score is between the
    bounds. *)
Lemma block_score_range_witness :
  match _build_block_info (Elem "div" [] [Elem "a" [] [Text (lorem 40)]]) [] "0" with
  | Some block =>
      (4 <= Block.score block)%Q
      /\ (Block.score block <= (188 * Block.word_count block) # 100)%Q
  | None => False
  end.
Proof.
  destruct (_build_block_info (Elem "div" [] [Elem "a" [] [Text (lorem 40)]]) [] "0")
    as [block|] eqn:H.
  - apply (block_score_range _ _ _ _ H).
  - vm_compute in H. discriminate.
Defined.

Lemma take_length n s : String.length (Py.take n s) = Nat.min n (String.length s).
Proof.
  revert s. induction n as [|n IH]; intros s; [reflexivity|].
  destruct s as [|c s]; simpl; [reflexivity | now rewrite IH].
Qed.

Lemma take_all n s : (String.length s <= n)%nat -> Py.take n s = s.
Proof.
  revert s. induction n as [|n IH]; intros s H.
  - destruct s; [reflexivity | simpl in H; lia].
  - destruct s as [|c s]; [reflexivity|]. simpl in *. f_equal. apply IH. lia.
Qed.

Lemma append_length (a b : string) :
  String.length (a ++ b) = (String.length a + String.length b)%nat.
Proof.
  induction a as [|c a IH]; [reflexivity|]. rewrite append_cons. simpl. now rewrite IH.
Qed.

(** X7. Text preview: the preview of a block has at most 283 characters;
    it is the whole clean text of the element when that has at most 280
    characters, and its first 280 characters followed by three dots
    otherwise. *)
Theorem text_preview_bounded (element : node) (up : crumbs) (idx : string) (block : Block.t) :
  _build_block_info element up idx = Some block ->
  let text := clean_text (get_text_sep element) in
  (String.length (Block.text_preview block) <= 283)%nat
  /\ ((String.length text <= 280)%nat -> Block.text_preview block = text)
  /\ ((280 < String.length text)%nat ->
      Block.text_preview block = (Py.take 280 text ++ "...")%string
      /\ String.length (Block.text_preview block) = 283%nat).
Proof.
  intros Hb text. apply build_block_info_fields in Hb as (-> & _). fold text.
  unfold len. destruct (Z.ltb_spec 280 (Z.of_nat (String.length text))) as [Hlong | Hshort].
  - split; [|split].
    + rewrite append_length, take_length.
      change (String.length "...") with 3%nat. lia.
    + lia.
    + intros _. split; [reflexivity|]. rewrite append_length, take_length.
      change (String.length "...") with 3%nat. lia.
  - rewrite append_empty_r. split; [|split].
    + rewrite take_length. lia.
    + intros _. apply take_all. lia.
    + lia.
Qed.

Lemma text_preview_bounded_witness :
  match _build_block_info (Elem "div" [] [Text (lorem 40)]) [] "0" with
  | Some block => (String.length (Block.text_preview block) <= 283)%nat
  | None => False
  end.
Proof.
  destruct (_build_block_info (Elem "div" [] [Text (lorem 40)]) [] "0") as [block|] eqn:H.
  - apply (text_preview_bounded _ _ _ _ H).
  - vm_compute in H. discriminate.
Defined.

Lemma dom_path_parts_length fuel element up :
  length (dom_path_parts fuel element up) = Nat.min fuel (S (length up)).
Proof.
  revert element up. induction fuel as [|fuel IH]; intros element up; [reflexivity|].
  cbn [dom_path_parts length]. destruct up as [|[parent i] up]; cbn [length]; [lia|].
  rewrite IH. cbn [length]. lia.
Qed.

(** The descriptor after the first [k + 1] is that of the ancestor
    [k + 1] levels up, as long as the fuel lasts. *)
Lemma dom_path_parts_ancestor fuel element up k ancestor i :
  (S k < fuel)%nat ->
  nth_error up k = Some (ancestor, i) ->
  nth_error (dom_path_parts fuel element up) (S k)
  = Some (dom_descriptor ancestor (skipn (S k) up)).
Proof.
  revert fuel element up. induction k as [|k IH]; intros fuel element up Hfuel Hnth.
  - destruct up as [|[parent j] up']; [discriminate|].
    injection Hnth as -> ->.
    destruct fuel as [|[|fuel]]; [lia | lia | reflexivity].
  - destruct up as [|[parent j] up']; [discriminate|].
    destruct fuel as [|fuel]; [lia|].
    change (nth_error (dom_path_parts (S fuel) element ((parent, j) :: up')) (S (S k)))
      with (nth_error (dom_path_parts fuel parent up') (S k)).
    change (skipn (S (S k)) ((parent, j) :: up')) with (skipn (S k) up').
    apply IH; [lia | exact Hnth].
Qed.

Lemma located_below_way_up (P : node -> Prop) parent up :
  (forall c, P c ->
     forall up' e up_e, way_up c up' -> In (e, up_e) (located_from up' c) -> way_up e up_e) ->
  way_up parent up ->
  forall l i,
    (forall k c, nth_error l k = Some c -> nth_error (contents parent) (i + k) = Some c) ->
    Forall P l ->
    forall e up_e, In (e, up_e) (located_below parent up i l) -> way_up e up_e.
Proof.
  intros HP Hparent. induction l as [|c l IH]; intros i Hplace Hl e up_e Hin; [destruct Hin|].
  inversion Hl as [|? ? Hc Hrest]; subst.
  cbn [located_below] in Hin. apply in_app_or in Hin as [Hin | Hin].
  - apply (HP c Hc ((parent, i) :: up) e up_e); [|exact Hin].
    split; [|exact Hparent]. rewrite <- (Nat.add_0_r i). apply Hplace. reflexivity.
  - apply (IH (S i)); [|exact Hrest | exact Hin].
    intros k c' Hk. replace (S i + k)%nat with (i + S k)%nat by lia. apply Hplace. exact Hk.
Qed.

Lemma located_from_way_up n up e up_e :
  way_up n up -> In (e, up_e) (located_from up n) -> way_up e up_e.
Proof.
  revert up e up_e.
  induction n as [s | name attrs cs IH] using node_ind; intros up e up_e Hup Hin;
    [destruct Hin|].
  rewrite located_from_elem in Hin. destruct Hin as [[= <- <-] | Hin]; [exact Hup|].
  apply (located_below_way_up
           (fun c => forall up e up_e,
                way_up c up -> In (e, up_e) (located_from up c) -> way_up e up_e)
           (Elem name attrs cs) up (fun c Hc => Hc) Hup cs 0%nat);
    [intros k c Hk; exact Hk | exact IH | exact Hin].
Qed.

(** The way up [located] gives a tag of a page is the way from the tag
    to the page. *)
Lemma located_way_up soup e up : In (e, up) (located soup) -> way_up e up.
Proof.
  apply (located_below_way_up (fun _ => True) soup []
           (fun c _ up' e' up_e => located_from_way_up c up' e' up_e) I (contents soup) 0%nat).
  - intros k c Hk. exact Hk.
  - apply List.Forall_forall. intros; exact I.
Qed.

(** X8. The DOM path: [_compute_dom_path] joins with [ > ] the
    descriptor of the element and then those of its parent, of the
    parent of that and so on up to the fourth ancestor, each described
    with its own position under its own parent: one descriptor more
    than the element has ancestors, and five at most. For a tag of a
    page the way up is the one the page gives: each entry is the tag
    whose contents hold the tag before it. *)
Theorem dom_path_depth (element : node) (up : crumbs) :
  exists parts,
    _compute_dom_path element up = Py.join " > " parts
    /\ length parts = Nat.min 5 (S (length up))
    /\ nth_error parts 0 = Some (dom_descriptor element up)
    /\ (forall k ancestor i,
          (k < 4)%nat ->
          nth_error up k = Some (ancestor, i) ->
          nth_error parts (S k) = Some (dom_descriptor ancestor (skipn (S k) up)))
    /\ (forall k, (4 <= k)%nat -> nth_error parts (S k) = None)
    /\ (forall soup, In (element, up) (located soup) -> way_up element up).
Proof.
  exists (dom_path_parts 5 element up).
  split; [reflexivity|]. split; [apply dom_path_parts_length|]. split; [reflexivity|].
  split; [|split].
  - intros k ancestor i Hk Hnth.
    apply (dom_path_parts_ancestor 5 element up k ancestor i); [lia | exact Hnth].
  - intros k Hk. apply nth_error_None. rewrite dom_path_parts_length. lia.
  - intros soup. apply located_way_up.
Qed.



(** ** Reading time *)

(** X10. Reading time: [_estimate_reading_time] gives a number; it is 0
    for a word count that is not positive and at least 0.1 otherwise,
    and it never decreases when the word count grows. *)
Theorem reading_time_bounds (word_count : Q) :
  exists minutes,
    number_of (_estimate_reading_time word_count) = Some minutes
    /\ ((word_count <= 0)%Q -> _estimate_reading_time word_count = PInt 0 /\ (minutes == 0)%Q)
    /\ ((0 < word_count)%Q ->
        _estimate_reading_time word_count
        = PFloat (Py.round (Qmax (word_count / 200) (1 # 10)) 2)
        /\ (1 # 10 <= minutes)%Q)
    /\ (forall more minutes',
          (word_count <= more)%Q ->
          number_of (_estimate_reading_time more) = Some minutes' ->
          (minutes <= minutes')%Q).
Proof.
  assert (Hpos : forall x, (0 < x)%Q ->
             (1 # 10 <= Py.round (Qmax (x / 200) (1 # 10)) 2)%Q).
  { intros x Hx. apply (Qle_trans _ (10 # 100)); [unfold Qle; simpl; lia|].
    apply (round2_ge 10).
    apply (Qle_trans _ (1 # 10)); [unfold Qle; simpl; lia | apply Q.le_max_r]. }
  unfold _estimate_reading_time.
  destruct (Qle_bool word_count 0) eqn:Hle.
  - apply Qle_bool_iff in Hle. exists (inject_Z 0). split; [reflexivity|].
    split; [intros _; split; reflexivity|].
    split; [intros H; lra|].
    intros more minutes' Hmore. destruct (Qle_bool more 0) eqn:Hle'.
    + intros [= <-]. apply Qle_refl.
    + intros [= <-]. apply (Qle_trans _ (1 # 10)); [unfold Qle; simpl; lia|].
      apply Hpos. apply Qnot_le_lt. intros H. apply Qle_bool_iff in H. congruence.
  - assert (Hgt : (0 < word_count)%Q).
    { apply Qnot_le_lt. intros H. apply Qle_bool_iff in H. congruence. }
    eexists. split; [reflexivity|].
    split; [intros H; lra|].
    split; [intros _; split; [reflexivity | apply Hpos, Hgt]|].
    intros more minutes' Hmore. destruct (Qle_bool more 0) eqn:Hle'.
    + apply Qle_bool_iff in Hle'. lra.
    + intros [= <-]. apply round_mono. apply Q.max_le_compat_r.
      unfold Qdiv. apply Qmult_le_compat_r; [exact Hmore | unfold Qle; simpl; lia].
Qed.

(** ** The readability dictionary *)

Lemma split_go_app_space (a b : string) (c : ascii) (cur : list ascii) :
  Py.isspace c = true ->
  Py.split_go cur (a ++ String c b) = Py.split_go cur a ++ Py.split_go [] b.
Proof.
  intros Hc. revert cur. induction a as [|d a IH]; intros cur.
  - simpl. rewrite Hc. destruct cur; reflexivity.
  - rewrite append_cons. simpl. destruct (Py.isspace d).
    + destruct cur; simpl; now rewrite IH.
    + apply IH.
Qed.

Lemma split_lstrip (s : string) : Py.split (Py.lstrip s) = Py.split s.
Proof.
  unfold Py.split. induction s as [|c s IH]; [reflexivity|]. simpl.
  destruct (Py.isspace c) eqn:Hc; [exact IH|]. simpl. now rewrite Hc.
Qed.

Lemma split_go_cons (c : ascii) (s : string) (cur : list ascii) :
  Py.split_go cur (String c s)
  = if Py.isspace c then
      match cur with
      | [] => Py.split_go [] s
      | _ => string_of_list_ascii (List.rev cur) :: Py.split_go [] s
      end
    else Py.split_go (c :: cur) s.
Proof. reflexivity. Qed.

Lemma split_go_rstrip (s : string) (cur : list ascii) :
  Py.split_go cur (Py.rstrip s) = Py.split_go cur s.
Proof.
  revert cur. induction s as [|c s IH]; intros cur; [reflexivity|].
  simpl Py.rstrip. destruct (Py.rstrip s) as [|d r] eqn:Hr.
  - rewrite (split_go_cons c s). destruct (Py.isspace c) eqn:Hc.
    + rewrite <- (IH []). simpl. destruct cur; reflexivity.
    + rewrite <- (IH (c :: cur)). rewrite split_go_cons, Hc. reflexivity.
  - rewrite !(split_go_cons c). destruct (Py.isspace c); [destruct cur|]; now rewrite IH.
Qed.

Lemma split_strip (s : string) : Py.split (Py.strip s) = Py.split s.
Proof.
  unfold Py.strip, Py.split at 1. rewrite split_go_rstrip. apply split_lstrip.
Qed.

Lemma split_join_paragraphs (ps : list string) :
  Py.split (Py.join NL2 ps) = flat_map Py.split ps.
Proof.
  induction ps as [|p ps IH]; [reflexivity|].
  destruct ps as [|q ps]; [simpl; now rewrite app_nil_r|].
  change (Py.join NL2 (p :: q :: ps))
    with (p ++ String (ascii_of_nat 10) (String (ascii_of_nat 10) (Py.join NL2 (q :: ps))))%string.
  change (flat_map Py.split (p :: q :: ps)) with (Py.split p ++ flat_map Py.split (q :: ps)).
  rewrite <- IH. unfold Py.split. rewrite split_go_app_space by reflexivity.
  reflexivity.
Qed.

Lemma clean_texts_paragraphs (found : list node) : Forall is_paragraph (clean_texts found).
Proof.
  apply List.Forall_forall. intros p Hp. unfold clean_texts in Hp.
  apply filter_In in Hp as [Hin Hne]. apply in_map_iff in Hin as (e & <- & _).
  split; [destruct (clean_text (get_text e)); [discriminate | congruence]|].
  apply clean_text_facts.
Qed.

Lemma paragraph_has_words (p : string) : is_paragraph p -> Py.split p <> [].
Proof.
  intros [Hne Hclean] Hsplit. apply Hne. rewrite <- Hclean, clean_text_join, Hsplit.
  reflexivity.
Qed.

Lemma flat_map_length_ge {A B} (f : A -> list B) (l : list A) :
  (forall x, In x l -> f x <> []) -> (length l <= length (flat_map f l))%nat.
Proof.
  induction l as [|x l IH]; intros H; [reflexivity|]. simpl. rewrite length_app.
  assert (Hx : f x <> []) by (apply H; now left).
  destruct (f x); [congruence|]. simpl.
  assert (length l <= length (flat_map f l))%nat by (apply IH; intros; apply H; now right).
  lia.
Qed.

Lemma join_paragraphs_strip (ps : list string) :
  Forall is_paragraph ps -> Py.strip (Py.join NL2 ps) = Py.join NL2 ps.
Proof.
  intros Hps. destruct ps as [|p ps]; [reflexivity|].
  assert (Hend : forall qs, Forall is_paragraph qs -> qs <> [] ->
            exists a w, is_word w /\ Py.join NL2 qs = (a ++ w)%string).
  { induction qs as [|q qs IH]; intros Hqs Hne; [congruence|].
    inversion Hqs as [|? ? Hq Hrest]; subst.
    destruct qs as [|q2 qs].
    - destruct (join_words_end (Py.split q)) as (a & w & Hw & E);
        [apply split_words | apply paragraph_has_words, Hq|].
      exists a, w. split; [exact Hw|]. simpl. rewrite <- (proj2 Hq), clean_text_join. exact E.
    - destruct (IH Hrest ltac:(discriminate)) as (a & w & Hw & E).
      exists (q ++ NL2 ++ a)%string, w. split; [exact Hw|].
      change (Py.join NL2 (q :: q2 :: qs)) with (q ++ (NL2 ++ Py.join NL2 (q2 :: qs)))%string.
      rewrite E, !append_assoc. reflexivity. }
  destruct (Hend (p :: ps) Hps ltac:(discriminate)) as (a & w & Hw & E).
  unfold Py.strip. rewrite lstrip_is_chars, left_clean_lstrip.
  - rewrite E. apply rstrip_app_word, Hw.
  - inversion Hps as [|? ? Hp _]; subst.
    pose proof (join_words_left_clean (Py.split p) (split_words p)) as Hl.
    rewrite <- clean_text_join, (proj2 Hp) in Hl.
    destruct p as [|c p]; [destruct (proj1 Hp); reflexivity|].
    destruct ps; exact Hl.
Qed.

Lemma main_content_facts (document : option Readable.t) :
  _extract_main_content document = ∅
  \/ exists d paragraphs,
       document = Some d
       /\ paragraphs = clean_texts (find_all ["p"; "li"] (Readable.summary d))
       /\ paragraphs <> []
       /\ Forall is_paragraph paragraphs
       /\ _extract_main_content document
          = readability_result d paragraphs (Py.join NL2 paragraphs)
              (Z.of_nat (length (flat_map Py.split paragraphs)))
       /\ (length paragraphs <= length (flat_map Py.split paragraphs))%nat.
Proof.
  destruct document as [d|]; simpl; [|now left].
  set (paragraphs := clean_texts (find_all ["p"; "li"] (Readable.summary d))).
  pose proof (clean_texts_paragraphs (find_all ["p"; "li"] (Readable.summary d))) as Hps.
  fold paragraphs in Hps.
  rewrite (join_paragraphs_strip paragraphs Hps).
  destruct (Py.nonempty (Py.join NL2 paragraphs)) eqn:Hne; simpl; [|now left].
  right. exists d, paragraphs. split; [reflexivity|]. split; [reflexivity|].
  split; [intros E; rewrite E in Hne; discriminate|]. split; [exact Hps|].
  split; [now rewrite split_join_paragraphs|].
  apply flat_map_length_ge. intros p Hp. apply paragraph_has_words.
  rewrite List.Forall_forall in Hps. auto.
Qed.

(** X11. The readability dictionary: [_extract_main_content] returns an
    empty dictionary or one whose paragraphs are the clean, non-empty
    texts of the p and li tags of the summary, at least one, whose text
    is these paragraphs joined by blank lines, and whose word count is
    the number of words of the paragraphs together: at least one word
    for each paragraph. *)
Theorem main_content_invariants (document : option Readable.t) :
  _extract_main_content document = ∅
  \/ exists paragraphs text word_count,
       _extract_main_content document !! "paragraphs" = Some (PList paragraphs)
       /\ _extract_main_content document !! "text" = Some (PStr text)
       /\ _extract_main_content document !! "word_count" = Some (PInt word_count)
       /\ _extract_main_content document !! "source" = Some (PStr "readability")
       /\ paragraphs <> []
       /\ Forall (fun p => p <> "" /\ clean_text p = p) paragraphs
       /\ text = Py.join NL2 paragraphs
       /\ word_count = Z.of_nat (length (flat_map Py.split paragraphs))
       /\ (1 <= Z.of_nat (length paragraphs) <= word_count)%Z.
Proof.
  destruct (main_content_facts document)
    as [He | (d & paragraphs & _ & _ & Hne & Hps & -> & Hlen)]; [now left|].
  right. exists paragraphs, (Py.join NL2 paragraphs),
    (Z.of_nat (length (flat_map Py.split paragraphs))).
  repeat split; try reflexivity; try assumption.
  - destruct paragraphs; [congruence | simpl; lia].
  - lia.
Qed.

(** ** Confidence *)

(** X12. Confidence as a function of the evidence: the confidence of a
    heuristic result never decreases when the score of the block grows
    and is 0.85 exactly from the score 675 on; the confidence of a
    readability result never decreases when its word count grows and is
    0.95 exactly from 525 words on. *)
Theorem confidence_grows_and_saturates :
  (forall best fallback_title,
      heuristic_content best fallback_title !! "confidence"
      = Some (PFloat (heuristic_confidence (Block.score best))))
  /\ (forall document paragraphs text word_count,
        readability_result document paragraphs text word_count !! "confidence"
        = Some (PFloat (readability_confidence word_count)))
  /\ (forall s1 s2, (s1 <= s2)%Q -> (heuristic_confidence s1 <= heuristic_confidence s2)%Q)
  /\ (forall s, (heuristic_confidence s == 85 # 100)%Q <-> (675 <= s)%Q)
  /\ (forall w1 w2, (w1 <= w2)%Z -> (readability_confidence w1 <= readability_confidence w2)%Q)
  /\ (forall w, (readability_confidence w == 95 # 100)%Q <-> (525 <= w)%Z).
Proof.
  split; [reflexivity|]. split; [reflexivity|].
  assert (Hh : forall s,
    ((s < 675)%Q /\ (heuristic_confidence s == (4 # 10) + s * (1 # 1500))%Q)
    \/ ((675 <= s)%Q /\ (heuristic_confidence s == 85 # 100)%Q)).
  { intros s. unfold heuristic_confidence.
    destruct (Qlt_le_dec s 675) as [Hlt | Hge]; [left | right]; (split; [assumption|]).
    - destruct (Q.min_spec (s / 1500) (45 # 100)) as [[H1 E1] | [H1 E1]]; rewrite E1.
      + destruct (Q.min_spec (85 # 100) ((4 # 10) + s / 1500)) as [[H2 E2] | [H2 E2]];
          rewrite E2; q_linear.
      + q_linear.
    - destruct (Q.min_spec (s / 1500) (45 # 100)) as [[H1 E1] | [H1 E1]]; rewrite E1.
      + q_linear.
      + destruct (Q.min_spec (85 # 100) ((4 # 10) + (45 # 100))) as [[H2 E2] | [H2 E2]];
          rewrite E2; lra. }
  assert (Hr : forall w,
    ((w < 525)%Z /\ (readability_confidence w == (6 # 10) + inject_Z w * (1 # 1500))%Q)
    \/ ((525 <= w)%Z /\ (readability_confidence w == 95 # 100)%Q)).
  { intros w. unfold readability_confidence.
    destruct (Z_lt_le_dec w 525) as [Hlt | Hge]; [left | right]; (split; [assumption|]).
    - rewrite Zlt_Qlt in Hlt. change (inject_Z 525) with (525 # 1)%Q in Hlt.
      destruct (Q.min_spec (95 # 100) ((6 # 10) + inject_Z w / 1500)) as [[H2 E2] | [H2 E2]];
        rewrite E2; generalize dependent (inject_Z w); intros; q_linear.
    - rewrite Zle_Qle in Hge. change (inject_Z 525) with (525 # 1)%Q in Hge.
      destruct (Q.min_spec (95 # 100) ((6 # 10) + inject_Z w / 1500)) as [[H2 E2] | [H2 E2]];
        rewrite E2; generalize dependent (inject_Z w); intros; q_linear. }
  split; [|split; [|split]].
  - intros s1 s2 Hle.
    destruct (Hh s1) as [[H1 E1] | [H1 E1]], (Hh s2) as [[H2 E2] | [H2 E2]];
      rewrite E1, E2; lra.
  - intros s. destruct (Hh s) as [[H E] | [H E]]; rewrite E; split; intros; lra.
  - intros w1 w2 Hle. pose proof Hle as HleQ. rewrite Zle_Qle in HleQ.
    destruct (Hr w1) as [[H1 E1] | [H1 E1]], (Hr w2) as [[H2 E2] | [H2 E2]];
      rewrite E1, E2; [| |lia|lra].
    + generalize dependent (inject_Z w1); generalize dependent (inject_Z w2); intros; lra.
    + rewrite Zlt_Qlt in H1. change (inject_Z 525) with (525 # 1)%Q in H1.
      generalize dependent (inject_Z w1); intros; lra.
  - intros w. destruct (Hr w) as [[H E] | [H E]]; rewrite E; split; intros; try lia; try lra.
    rewrite Zlt_Qlt in H. change (inject_Z 525) with (525 # 1)%Q in H.
    generalize dependent (inject_Z w). intros; lra.
Qed.

(** ** What the article says about its body *)

(** The decision of the arbiter on an output of [_extract_main_content]. *)
Lemma choose_main_content_cases document blocks fallback_title :
  (_extract_main_content document = ∅
   /\ _choose_main_content (_extract_main_content document) blocks fallback_title
      = Some match blocks with
             | best :: _ => heuristic_content best fallback_title
             | [] => unknown_content fallback_title
             end)
  \/ (exists d paragraphs,
        let word_count := Z.of_nat (length (flat_map Py.split paragraphs)) in
        _extract_main_content document
        = readability_result d paragraphs (Py.join NL2 paragraphs) word_count
        /\ Forall is_paragraph paragraphs
        /\ (1 <= Z.of_nat (length paragraphs) <= word_count)%Z
        /\ _choose_main_content (_extract_main_content document) blocks fallback_title
           = Some (if (80 <=? word_count)%Z then _extract_main_content document
                   else match blocks with
                        | best :: _ => heuristic_content best fallback_title
                        | [] => _extract_main_content document
                        end)).
Proof.
  destruct (main_content_facts document)
    as [He | (d & paragraphs & _ & _ & Hne & Hclean & He & Hlen)].
  - left. split; [exact He|]. rewrite He. apply choose_without_readability.
  - right. exists d, paragraphs. cbn zeta. split; [exact He|]. split; [exact Hclean|].
    split; [destruct paragraphs; [congruence | simpl in *; lia]|].
    rewrite He. set (wc := Z.of_nat (length (flat_map Py.split paragraphs))).
    destruct (Z.leb_spec 80 wc) as [Hge | Hlt].
    + rewrite (choose_long_readability _ _ _ (inject_Z wc)); try reflexivity.
      rewrite Zle_Qle in Hge. exact Hge.
    + rewrite (choose_short_readability _ _ _ (inject_Z wc)); try reflexivity.
      rewrite Zlt_Qlt in Hlt. exact Hlt.
Qed.

Section Body.

Variable urljoin : string -> string -> string.
Variable netloc : string -> string.

Lemma build_article_section_body rc blocks fallback_title meta content_soup base_url article :
  _build_article_section urljoin netloc rc blocks fallback_title meta content_soup base_url
  = Some article ->
  exists main_content text,
    _choose_main_content rc blocks fallback_title = Some main_content
    /\ get_list main_content "paragraphs" = Some (Body.paragraphs (Article.body article))
    /\ get_number main_content "word_count" (PInt 0)
       = Some (Body.word_count (Article.body article))
    /\ get_str main_content "text" "" = Some text
    /\ Body.text (Article.body article) = Py.strip text
    /\ get_opt_str main_content "source" = Some (Body.source (Article.body article))
    /\ Stats.paragraph_count (Article.stats article)
       = length (Body.paragraphs (Article.body article))
    /\ Stats.has_links (Article.stats article) = list_truthy (Article.links article).
Proof.
  unfold _build_article_section.
  destruct (_choose_main_content rc blocks fallback_title) as [mc|] eqn:Hchoose;
    cbn [mbind option_bind]; [|discriminate].
  destruct (_extract_article_media urljoin mc meta base_url content_soup) as [media|];
    cbn [mbind option_bind]; [|discriminate].
  destruct (get_list mc "paragraphs") as [paragraphs|] eqn:Hps;
    cbn [mbind option_bind]; [|discriminate].
  destruct (_extract_links_from_main urljoin netloc mc base_url) as [links|];
    cbn [mbind option_bind]; [|discriminate].
  destruct (get_str mc "text" "") as [text|] eqn:Htext;
    cbn [mbind option_bind]; [|discriminate].
  destruct (get_number mc "word_count" (PInt 0)) as [word_count|] eqn:Hwc;
    cbn [mbind option_bind]; [|discriminate].
  destruct (get_number mc "reading_time_minutes" _) as [reading_time|];
    cbn [mbind option_bind]; [|discriminate].
  destruct (get_opt_str mc "source") as [source|] eqn:Hsource;
    cbn [mbind option_bind]; [|discriminate].
  destruct (content_fragment mc) as [html|];
    cbn [mbind option_bind]; [|discriminate].
  destruct (get_number mc "confidence" _) as [confidence|];
    cbn [mbind option_bind]; [|discriminate].
  destruct (get_str mc "title" "") as [title|];
    cbn [mbind option_bind]; [|discriminate].
  intros [= <-]. exists mc, text. simpl. auto 10.
Qed.

(** X13. Body and source agree: [parse_html] returns an article whose
    paragraph count is the number of its paragraphs; with the source
    [unknown] it has no word, no paragraph and no text; with the source
    [heuristic] its word count is that of the winning block, 40 at
    least; with the source [readability] it has a paragraph, and a word
    at least for each paragraph. *)
Theorem article_body_consistent (soup : node) (document : option Readable.t) (url : string) :
  exists parsed,
    parse_html urljoin netloc soup document url = Some parsed
    /\ let body := Article.body (Parsed.article parsed) in
       Stats.paragraph_count (Article.stats (Parsed.article parsed))
       = length (Body.paragraphs body)
       /\ (0 <= Body.word_count body)%Q
       /\ (Body.source body = Some "unknown" ->
           (Body.word_count body == 0)%Q /\ Body.paragraphs body = [] /\ Body.text body = "")
       /\ (Body.source body = Some "heuristic" ->
           (40 <= Body.word_count body)%Q
           /\ exists best rest,
                content_blocks (_prepare_content_soup soup) = best :: rest
                /\ Body.word_count body = inject_Z (Block.word_count best)
                /\ Body.paragraphs body = Block.paragraphs best)
       /\ (Body.source body = Some "readability" ->
           (1 <= length (Body.paragraphs body))%nat
           /\ (inject_Z (Z.of_nat (length (Body.paragraphs body))) <= Body.word_count body)%Q).
Proof.
  destruct (parse_html_some urljoin netloc soup document url)
    as (parsed & mc & Hparse & Hchoose & _ & Harticle).
  exists parsed. split; [exact Hparse|]. cbn zeta.
  apply build_article_section_body in Harticle
    as (mc' & text & Hchoose' & Hps & Hwc & Htext & Hbody & Hsource & Hcount & _).
  rewrite Hchoose in Hchoose'. injection Hchoose' as <-.
  split; [exact Hcount|].
  set (blocks := content_blocks (_prepare_content_soup soup)) in *.
  assert (Hheur : forall best rest, blocks = best :: rest ->
            mc = heuristic_content best (page_title soup) ->
            Body.source (Article.body (Parsed.article parsed)) = Some "heuristic"
            /\ Body.word_count (Article.body (Parsed.article parsed))
               = inject_Z (Block.word_count best)
            /\ Body.paragraphs (Article.body (Parsed.article parsed)) = Block.paragraphs best
            /\ (40 <= Block.word_count best)%Z).
  { intros best rest Hb ->.
    assert (H40 : (40 <= Block.word_count best)%Z).
    { destruct (content_blocks_built (_prepare_content_soup soup) best)
        as (e & up & idx & _ & _ & Hbuilt); [fold blocks; rewrite Hb; now left|].
      apply build_block_info_some in Hbuilt as (_ & H40 & -> & _). exact H40. }
    injection Hsource as <-. injection Hps as <-.
    unfold heuristic_content, get_number in Hwc.
    destruct (Z.eqb_spec (Block.word_count best) 0) as [E | _]; [lia|].
    injection Hwc as <-. auto. }
  assert (Hread : forall d paragraphs,
            mc = readability_result d paragraphs (Py.join NL2 paragraphs)
                   (Z.of_nat (length (flat_map Py.split paragraphs))) ->
            (1 <= Z.of_nat (length paragraphs)
             <= Z.of_nat (length (flat_map Py.split paragraphs)))%Z ->
            Body.source (Article.body (Parsed.article parsed)) = Some "readability"
            /\ Body.paragraphs (Article.body (Parsed.article parsed)) = paragraphs
            /\ Body.word_count (Article.body (Parsed.article parsed))
               = inject_Z (Z.of_nat (length (flat_map Py.split paragraphs)))).
  { intros d paragraphs -> _. injection Hsource as <-. injection Hps as <-.
    injection Hwc as <-. auto. }
  assert (Finish_heur : forall best rest, blocks = best :: rest ->
            mc = heuristic_content best (page_title soup) ->
    (0 <= Body.word_count (Article.body (Parsed.article parsed)))%Q
    /\ (Body.source (Article.body (Parsed.article parsed)) = Some "unknown" ->
        (Body.word_count (Article.body (Parsed.article parsed)) == 0)%Q
        /\ Body.paragraphs (Article.body (Parsed.article parsed)) = []
        /\ Body.text (Article.body (Parsed.article parsed)) = "")
    /\ (Body.source (Article.body (Parsed.article parsed)) = Some "heuristic" ->
        (40 <= Body.word_count (Article.body (Parsed.article parsed)))%Q
        /\ exists best rest,
             blocks = best :: rest
             /\ Body.word_count (Article.body (Parsed.article parsed))
                = inject_Z (Block.word_count best)
             /\ Body.paragraphs (Article.body (Parsed.article parsed)) = Block.paragraphs best)
    /\ (Body.source (Article.body (Parsed.article parsed)) = Some "readability" ->
        (1 <= length (Body.paragraphs (Article.body (Parsed.article parsed))))%nat
        /\ (inject_Z (Z.of_nat (length (Body.paragraphs (Article.body (Parsed.article parsed)))))
            <= Body.word_count (Article.body (Parsed.article parsed)))%Q)).
  { intros best rest Hb Hmc.
    destruct (Hheur best rest Hb Hmc) as (Hs & Hw & Hp & H40).
    assert (H40q : (40 <= inject_Z (Block.word_count best))%Q).
    { rewrite Zle_Qle in H40. exact H40. }
    rewrite Hs, Hw. split; [lra|]. split; [discriminate|].
    split; [|discriminate].
    intros _. split; [exact H40q|]. exists best, rest. auto. }
  assert (Finish_read : forall d paragraphs,
            mc = readability_result d paragraphs (Py.join NL2 paragraphs)
                   (Z.of_nat (length (flat_map Py.split paragraphs))) ->
            (1 <= Z.of_nat (length paragraphs)
             <= Z.of_nat (length (flat_map Py.split paragraphs)))%Z ->
    (0 <= Body.word_count (Article.body (Parsed.article parsed)))%Q
    /\ (Body.source (Article.body (Parsed.article parsed)) = Some "unknown" ->
        (Body.word_count (Article.body (Parsed.article parsed)) == 0)%Q
        /\ Body.paragraphs (Article.body (Parsed.article parsed)) = []
        /\ Body.text (Article.body (Parsed.article parsed)) = "")
    /\ (Body.source (Article.body (Parsed.article parsed)) = Some "heuristic" ->
        (40 <= Body.word_count (Article.body (Parsed.article parsed)))%Q
        /\ exists best rest,
             blocks = best :: rest
             /\ Body.word_count (Article.body (Parsed.article parsed))
                = inject_Z (Block.word_count best)
             /\ Body.paragraphs (Article.body (Parsed.article parsed)) = Block.paragraphs best)
    /\ (Body.source (Article.body (Parsed.article parsed)) = Some "readability" ->
        (1 <= length (Body.paragraphs (Article.body (Parsed.article parsed))))%nat
        /\ (inject_Z (Z.of_nat (length (Body.paragraphs (Article.body (Parsed.article parsed)))))
            <= Body.word_count (Article.body (Parsed.article parsed)))%Q)).
  { intros d paragraphs Hmc Hlen.
    destruct (Hread d paragraphs Hmc Hlen) as (Hs & Hp & Hw).
    rewrite Hs, Hw, Hp. split; [change 0%Q with (inject_Z 0); rewrite <- Zle_Qle; lia|].
    split; [discriminate|].
    split; [discriminate|]. intros _. split; [lia|]. rewrite <- Zle_Qle. lia. }
  destruct (choose_main_content_cases document blocks (page_title soup))
    as [[He Hc] | (d & paragraphs & He & _ & Hlen & Hc)];
    rewrite Hchoose in Hc; injection Hc as Hmc.
  - destruct blocks as [|best rest] eqn:Hb; [|apply (Finish_heur best rest eq_refl Hmc)].
    subst mc. injection Hsource as <-. injection Hps as <-. injection Hwc as <-.
    injection Htext as <-. rewrite Hbody.
    split; [apply Qle_refl|]. split; [intros _; repeat split; reflexivity|].
    split; discriminate.
  - cbn zeta in *. rewrite He in Hmc.
    destruct (80 <=? Z.of_nat (length (flat_map Py.split paragraphs)))%Z;
      [apply (Finish_read d paragraphs Hmc Hlen)|].
    destruct blocks as [|best rest] eqn:Hb;
      [apply (Finish_read d paragraphs Hmc Hlen) | apply (Finish_heur best rest eq_refl Hmc)].
Qed.

End Body.

(** ** Links *)

Section Links.

Variable urljoin : string -> string -> string.
Variable netloc : string -> string.

Lemma extract_links_loop_prefix base_url limit found links :
  extract_links_loop urljoin netloc base_url limit found links
  = links
    ++ map (anchor_link urljoin netloc base_url)
         (firstn (Z.to_nat (Z.max (limit - Z.of_nat (length links)) 1)) found).
Proof.
  revert links. induction found as [|link rest IH]; intros links.
  - simpl. rewrite firstn_nil, app_nil_r. reflexivity.
  - cbn [extract_links_loop]. fold (anchor_link urljoin netloc base_url link).
    rewrite length_app. cbn [length].
    destruct (Z.leb_spec limit (Z.of_nat (length links + 1))) as [Hfull | Hroom].
    + replace (Z.to_nat (Z.max (limit - Z.of_nat (length links)) 1)) with 1%nat by lia.
      reflexivity.
    + rewrite IH, length_app. cbn [length].
      replace (Z.to_nat (Z.max (limit - Z.of_nat (length links)) 1))
        with (S (Z.to_nat (Z.max (limit - Z.of_nat (length links + 1)) 1))) by lia.
      cbn [firstn map]. rewrite <- app_assoc. reflexivity.
Qed.

Lemma anchor_link_text base_url link :
  clean_text (Link.text (anchor_link urljoin netloc base_url link))
  = Link.text (anchor_link urljoin netloc base_url link).
Proof. apply clean_text_facts. Qed.

(** X14. The links of a page are those of its first anchors with an
    [href], in document order: as many as the limit allows, and one even
    when the limit is zero or negative. Each text is
    whitespace-normalised, each [is_external] flag compares the host of
    the link with the host of the page. *)
Theorem extract_links_prefix (soup : node) (base_url : string) (limit : Z) :
  let anchors := List.filter (has_attr "href") (find_all ["a"] soup) in
  let links := _extract_links urljoin netloc soup base_url limit in
  links = map (anchor_link urljoin netloc base_url)
            (firstn (Z.to_nat (Z.max limit 1)) anchors)
  /\ length links = Nat.min (Z.to_nat (Z.max limit 1)) (length anchors)
  /\ Forall (fun link =>
               clean_text (Link.text link) = Link.text link
               /\ Link.is_external link
                  = negb (String.eqb (netloc base_url) (netloc (Link.href link))))
       links.
Proof.
  cbn zeta. unfold _extract_links. rewrite extract_links_loop_prefix.
  cbn [length app Z.of_nat]. rewrite Z.sub_0_r.
  split; [reflexivity|]. split.
  - rewrite length_map, length_firstn. reflexivity.
  - apply List.Forall_forall. intros link Hin. apply in_map_iff in Hin as (a & <- & _).
    split; [apply anchor_link_text | reflexivity].
Qed.

Lemma related_links_loop_prefix seen links related :
  (length related < 15)%nat ->
  related_links_loop seen links related
  = firstn 15 (related ++ List.filter (related_candidate seen) links).
Proof.
  revert related. induction links as [|link rest IH]; intros related Hlt.
  - simpl. rewrite app_nil_r, firstn_all2; [reflexivity | lia].
  - cbn [related_links_loop List.filter]. unfold related_candidate at 1.
    destruct (existsb (String.eqb (Link.href link)) seen || negb (Py.nonempty (Link.text link)))
      eqn:Hskip; cbn [negb].
    + apply IH, Hlt.
    + destruct (Nat.leb_spec 15 (length (related ++ [link]))) as [Hfull | Hroom].
      * rewrite length_app in Hfull. simpl in Hfull.
        change (link :: List.filter (related_candidate seen) rest)
          with ([link] ++ List.filter (related_candidate seen) rest).
        rewrite app_assoc, firstn_app.
        replace (15 - length (related ++ [link]))%nat with 0%nat
          by (rewrite length_app; simpl; lia).
        rewrite firstn_all2 by (rewrite length_app; simpl; lia).
        simpl. rewrite app_nil_r. reflexivity.
      * rewrite IH by exact Hroom. rewrite <- app_assoc. reflexivity.
Qed.

(** X15. The related links are the first 15 links, among the first 60
    of the page, that have a text and whose address is not the address
    of a primary link: at most 15, in the order of the page, none
    without text and none that repeats a primary link. *)
Theorem related_links_selection (soup : node) (base_url : string)
    (primary_links : list Link.t) :
  let seen := map Link.href primary_links in
  let related := _build_related_links urljoin netloc soup base_url primary_links in
  related
  = firstn 15 (List.filter (related_candidate seen)
                 (_extract_links urljoin netloc soup base_url 60))
  /\ (length related <= 15)%nat
  /\ Forall (fun link =>
               Link.text link <> ""
               /\ ~ In (Link.href link) (map Link.href primary_links)
               /\ In link (_extract_links urljoin netloc soup base_url 60))
       related.
Proof.
  cbn zeta. unfold _build_related_links.
  rewrite related_links_loop_prefix by (simpl; lia). cbn [app].
  split; [reflexivity|]. split; [rewrite length_firstn; lia|].
  apply List.Forall_forall. intros link Hin. apply firstn_in in Hin.
  apply filter_In in Hin as [Hin Hok]. unfold related_candidate in Hok.
  apply negb_true_iff, orb_false_iff in Hok as [Hseen Htext].
  apply negb_false_iff in Htext.
  split; [intros E; rewrite E in Htext; discriminate|]. split; [|exact Hin].
  intros Hprimary. apply not_true_iff_false in Hseen. apply Hseen.
  apply existsb_exists. exists (Link.href link). split; [exact Hprimary | apply String.eqb_refl].
Qed.

End Links.

(** ** Metadata *)

(** What [_extract_meta] keeps of one meta tag: a key and a value. *)
Lemma extract_meta_entries (found : list node) (meta_tags : gmap string string)
    (P : string -> string -> Prop) :
  (forall key value, meta_tags !! key = Some value -> P key value) ->
  (forall tag key value,
     In tag found -> meta_entry tag = Some (key, value) -> P key value) ->
  forall key value,
    fold_left meta_step found meta_tags !! key = Some value -> P key value.
Proof.
  revert meta_tags. induction found as [|tag rest IH]; intros meta_tags Hold Hnew; [exact Hold|].
  cbn [fold_left]. apply IH; [|intros; eapply Hnew; [right|]; eassumption].
  intros key value. unfold meta_step.
  destruct (meta_entry tag) as [[k v]|] eqn:Hentry; [|apply Hold].
  destruct (decide (k = key)) as [-> | Hne].
  - rewrite lookup_insert_eq. intros [= <-]. apply (Hnew tag); [now left | exact Hentry].
  - rewrite lookup_insert_ne by exact Hne. apply Hold.
Qed.

Lemma fold_left_ext {A B} (f g : A -> B -> A) (l : list B) (a : A) :
  (forall a b, f a b = g a b) -> fold_left f l a = fold_left g l a.
Proof.
  intros H. revert a. induction l as [|b l IH]; intros a; simpl; [reflexivity|].
  rewrite H. apply IH.
Qed.

Lemma extract_meta_fold soup :
  _extract_meta soup = fold_left meta_step (find_all ["meta"] soup) ∅.
Proof.
  unfold _extract_meta. apply fold_left_ext. intros meta_tags tag.
  unfold meta_step, meta_entry. cbn zeta.
  repeat match goal with |- context [if ?b then _ else _] => destruct b end; reflexivity.
Qed.

Lemma nonempty_spec (s : string) : Py.nonempty s = true <-> s <> "".
Proof. destruct s; simpl; split; intros; congruence. Qed.

Lemma meta_entry_nonempty tag key value :
  meta_entry tag = Some (key, value) -> key <> "" /\ value <> "".
Proof.
  unfold meta_entry. cbn zeta.
  destruct (Py.nonempty (attr_str (tag_attrs tag) "name")
            && Py.nonempty (attr_str (tag_attrs tag) "content")) eqn:H1.
  { intros [= <- <-]. apply andb_true_iff in H1 as [Hk Hv].
    split; apply nonempty_spec; assumption. }
  destruct (Py.nonempty (attr_str (tag_attrs tag) "property")
            && Py.nonempty (attr_str (tag_attrs tag) "content")) eqn:H2.
  { intros [= <- <-]. apply andb_true_iff in H2 as [Hk Hv].
    split; apply nonempty_spec; assumption. }
  destruct (Py.nonempty (attr_str (tag_attrs tag) "charset")) eqn:H3; [|discriminate].
  intros [= <- <-]. split; [discriminate | apply nonempty_spec, H3].
Qed.

Lemma fold_meta_last (post : list node) (meta_tags : gmap string string) key value :
  meta_tags !! key = Some value ->
  (forall later v, In later post -> meta_entry later <> Some (key, v)) ->
  fold_left meta_step post meta_tags !! key = Some value.
Proof.
  revert meta_tags. induction post as [|tag rest IH]; intros meta_tags Hhere Hlater; [exact Hhere|].
  cbn [fold_left]. apply IH; [|intros; apply Hlater; now right].
  unfold meta_step. destruct (meta_entry tag) as [[k v]|] eqn:Hentry; [|exact Hhere].
  destruct (decide (k = key)) as [-> | Hne].
  - exfalso. apply (Hlater tag v); [now left | exact Hentry].
  - rewrite lookup_insert_ne by exact Hne. exact Hhere.
Qed.

(** X16. Every entry of the metadata has a name and a value that are
    not empty and comes from a meta tag of the page; of the tags that
    give the same name the last one of the page decides; a name no tag
    gives is missing. *)
Theorem extract_meta_entries_sound (soup : node) :
  (forall key value,
     _extract_meta soup !! key = Some value ->
     key <> "" /\ value <> ""
     /\ exists tag, In tag (find_all ["meta"] soup) /\ meta_entry tag = Some (key, value))
  /\ (forall before tag after key value,
        find_all ["meta"] soup = before ++ tag :: after ->
        meta_entry tag = Some (key, value) ->
        (forall later v, In later after -> meta_entry later <> Some (key, v)) ->
        _extract_meta soup !! key = Some value)
  /\ (forall key,
        (forall tag v, In tag (find_all ["meta"] soup) -> meta_entry tag <> Some (key, v)) ->
        _extract_meta soup !! key = None).
Proof.
  rewrite extract_meta_fold. split; [|split].
  - intros key value.
    apply (extract_meta_entries (find_all ["meta"] soup) ∅
             (fun key value =>
                key <> "" /\ value <> ""
                /\ exists tag, In tag (find_all ["meta"] soup)
                               /\ meta_entry tag = Some (key, value))).
    + intros k v H. rewrite lookup_empty in H. discriminate.
    + intros tag k v Hin Hentry.
      destruct (meta_entry_nonempty tag k v Hentry) as [Hk Hv]. eauto.
  - intros before tag after key value Hsplit Hentry Hlater.
    rewrite Hsplit, fold_left_app. cbn [fold_left].
    apply fold_meta_last; [|exact Hlater].
    unfold meta_step at 1. rewrite Hentry. apply lookup_insert_eq.
  - intros key Hnone.
    destruct (fold_left meta_step (find_all ["meta"] soup) ∅ !! key) as [value|] eqn:Hlookup;
      [|reflexivity].
    exfalso.
    assert (Hfrom : forall k v,
              fold_left meta_step (find_all ["meta"] soup) ∅ !! k = Some v -> k <> key).
    { apply (extract_meta_entries (find_all ["meta"] soup) ∅ (fun k v => k <> key)).
      - intros k v H. rewrite lookup_empty in H. discriminate.
      - intros tag k v Hin Hentry ->. exact (Hnone tag v Hin Hentry). }
    exact (Hfrom key value Hlookup eq_refl).
Qed.

(** ** Authors *)

Lemma existsb_eqb_in (x : string) (l : list string) :
  existsb (String.eqb x) l = true <-> In x l.
Proof.
  rewrite existsb_exists. split.
  - intros (y & Hin & E). apply String.eqb_eq in E. subst. exact Hin.
  - intros Hin. exists x. split; [exact Hin | apply String.eqb_refl].
Qed.

Lemma fromkeys_loop_nodup keys items : NoDup keys -> NoDup (fromkeys_loop keys items).
Proof.
  revert keys. induction items as [|item rest IH]; intros keys Hkeys; simpl; [exact Hkeys|].
  destruct (existsb (String.eqb item) keys) eqn:Hseen; [apply IH, Hkeys|].
  apply IH. apply NoDup_app. split; [exact Hkeys|]. split; [|apply NoDup_singleton].
  intros x Hx Hitem. apply list_elem_of_singleton in Hitem. subst x.
  apply not_true_iff_false in Hseen. apply Hseen, existsb_eqb_in, list_elem_of_In, Hx.
Qed.

Lemma fromkeys_loop_in keys items x :
  In x (fromkeys_loop keys items) <-> In x keys \/ In x items.
Proof.
  revert keys. induction items as [|item rest IH]; intros keys; simpl; [tauto|].
  destruct (existsb (String.eqb item) keys) eqn:Hseen; rewrite IH.
  - apply existsb_eqb_in in Hseen. split; [tauto|]. intros [H | [<- | H]]; auto.
  - rewrite in_app_iff. simpl. tauto.
Qed.

Lemma fromkeys_nodup items : NoDup (fromkeys items).
Proof. apply fromkeys_loop_nodup, NoDup_nil_2. Qed.

Lemma fromkeys_in items x : In x (fromkeys items) <-> In x items.
Proof. unfold fromkeys. rewrite fromkeys_loop_in. simpl. tauto. Qed.

Lemma strip_idempotent s : Py.strip (Py.strip s) = Py.strip s.
Proof. rewrite !strip_is_chars. apply strip_chars_idempotent. Qed.

Lemma stripped_names_in value name :
  In name (List.filter Py.nonempty (map Py.strip (split_on "," value))) ->
  name <> "" /\ Py.strip name = name.
Proof.
  intros H. apply filter_In in H as [Hin Hne]. apply in_map_iff in Hin as (piece & <- & _).
  split; [apply nonempty_spec, Hne | apply strip_idempotent].
Qed.

Lemma list_truthy_spec {A} (l : list A) : list_truthy l = true <-> l <> [].
Proof. destruct l; simpl; split; intros; congruence. Qed.

(** The authors the page itself names. *)
Lemma find_authors_unfold soup meta :
  _find_authors soup meta
  = let named :=
      _split_meta_values (meta !! "author")
      ++ _split_meta_values (meta !! "article:author")
      ++ _split_meta_values (meta !! "parsely-author") in
    if list_truthy named then fromkeys named
    else fromkeys
           (flat_map
              (fun element =>
                 let text := clean_text (get_text element) in
                 if Py.nonempty text
                    && negb (existsb (String.eqb (Py.lower text)) ["di"; "by"])
                 then [text] else [])
              (select AUTHOR_SELECTORS soup)).
Proof.
  unfold _find_authors, _split_meta_values. cbn zeta. cbn [flat_map].
  rewrite app_nil_r. reflexivity.
Qed.

(** X17. The authors are distinct, none is empty and none has white
    space around it. When the metadata names an author, the authors are
    the names of the metadata and the page is not looked at; otherwise
    they are the cleaned texts of the tags the author selectors match,
    the bare words [di] and [by] left out. *)
Theorem find_authors_distinct (soup : node) (meta : gmap string string) :
  let authors := _find_authors soup meta in
  let named :=
    _split_meta_values (meta !! "author")
    ++ _split_meta_values (meta !! "article:author")
    ++ _split_meta_values (meta !! "parsely-author") in
  NoDup authors
  /\ Forall (fun name => name <> "" /\ Py.strip name = name) authors
  /\ (named <> [] ->
      (forall name, In name authors <-> In name named)
      /\ forall other_soup, _find_authors other_soup meta = authors)
  /\ (named = [] ->
      forall name,
        In name authors <->
        name <> "" /\ Py.lower name <> "di" /\ Py.lower name <> "by"
        /\ exists element,
             In element (select AUTHOR_SELECTORS soup)
             /\ name = clean_text (get_text element)).
Proof.
  cbn zeta. rewrite find_authors_unfold. cbv zeta.
  set (named := _split_meta_values (meta !! "author")
                ++ _split_meta_values (meta !! "article:author")
                ++ _split_meta_values (meta !! "parsely-author")).
  assert (Hnamed : Forall (fun name => name <> "" /\ Py.strip name = name) named).
  { unfold named. rewrite !Forall_app. repeat split;
      (match goal with |- Forall _ (_split_meta_values ?v) => destruct v as [value|] end;
       [|constructor]; unfold _split_meta_values;
       destruct (Py.nonempty value); [|constructor];
       apply List.Forall_forall; intros name; apply stripped_names_in). }
  destruct (list_truthy named) eqn:Htruthy.
  - apply list_truthy_spec in Htruthy.
    split; [apply fromkeys_nodup|]. split.
    { apply List.Forall_forall. intros name Hin. apply (proj1 (fromkeys_in _ _)) in Hin.
      rewrite List.Forall_forall in Hnamed. apply Hnamed, Hin. }
    split; [|intros E; contradiction].
    intros _. split; [intros name; apply fromkeys_in|].
    intros other_soup. rewrite find_authors_unfold. cbv zeta. fold named.
    rewrite (proj2 (list_truthy_spec named) Htruthy). reflexivity.
  - assert (Hnil : named = []) by (destruct named; [reflexivity | discriminate]).
    assert (Hdom : forall name,
              In name (fromkeys
                         (flat_map
                            (fun element =>
                               let text := clean_text (get_text element) in
                               if Py.nonempty text
                                  && negb (existsb (String.eqb (Py.lower text)) ["di"; "by"])
                               then [text] else [])
                            (select AUTHOR_SELECTORS soup))) <->
              name <> "" /\ Py.lower name <> "di" /\ Py.lower name <> "by"
              /\ exists element,
                   In element (select AUTHOR_SELECTORS soup)
                   /\ name = clean_text (get_text element)).
    { intros name. rewrite fromkeys_in, in_flat_map. cbn zeta. split.
      - intros (element & Hin & Hname).
        destruct (Py.nonempty (clean_text (get_text element))
                  && negb (existsb (String.eqb (Py.lower (clean_text (get_text element))))
                             ["di"; "by"])) eqn:Hok; [|destruct Hname].
        destruct Hname as [<- | []].
        apply andb_true_iff in Hok as [Hne Hword]. apply negb_true_iff in Hword.
        cbn [existsb] in Hword. rewrite orb_false_r in Hword.
        apply orb_false_iff in Hword as [Hdi Hby].
        apply String.eqb_neq in Hdi, Hby. apply nonempty_spec in Hne. eauto 10.
      - intros (Hne & Hdi & Hby & element & Hin & ->). exists element. split; [exact Hin|].
        apply nonempty_spec in Hne. apply String.eqb_neq in Hdi, Hby.
        rewrite Hne. cbn [existsb]. rewrite Hdi, Hby. now left. }
    split; [apply fromkeys_nodup|]. split.
    { apply List.Forall_forall. intros name Hin. apply (proj1 (Hdom name)) in Hin
        as (Hne & _ & _ & element & _ & ->).
      split; [exact Hne | apply clean_text_facts]. }
    split; [intros Hne; contradiction|]. intros _. exact Hdom.
Qed.

(** ** Lists and tables *)

Lemma list_items_clean l :
  Forall (fun item => item <> "" /\ clean_text item = item) (list_items l).
Proof.
  apply List.Forall_forall. intros item Hin. unfold list_items in Hin.
  apply filter_In in Hin as [Hin Hne]. apply in_map_iff in Hin as (li & <- & _).
  split; [apply nonempty_spec, Hne | apply clean_text_facts].
Qed.

Lemma flat_map_length_le {A B} (f : A -> list B) (l : list A) :
  (forall x, length (f x) <= 1)%nat -> (length (flat_map f l) <= length l)%nat.
Proof.
  intros H. induction l as [|x l IH]; simpl; [lia|].
  rewrite length_app. specialize (H x). lia.
Qed.

(** X18. No list of the article is empty and no item of a list is: an
    item is the whitespace-normalised text of a list entry that has
    some, and a list of which no entry has text is left out. An empty
    fragment has no list. *)
Theorem extract_lists_no_blank (html_fragment : option node) :
  let lists := _extract_lists html_fragment in
  Forall (fun items =>
            items <> [] /\ Forall (fun item => item <> "" /\ clean_text item = item) items)
    (Lists.ul lists ++ Lists.ol lists)
  /\ match html_fragment with
     | None => Lists.ul lists = [] /\ Lists.ol lists = []
     | Some soup =>
         (length (Lists.ul lists) <= length (find_all ["ul"] soup))%nat
         /\ (length (Lists.ol lists) <= length (find_all ["ol"] soup))%nat
         /\ forall name l,
              In name ["ul"; "ol"] -> In l (find_all [name] soup) -> list_items l <> [] ->
              In (list_items l) (Lists.ul lists ++ Lists.ol lists)
     end.
Proof.
  cbn zeta. destruct html_fragment as [soup|]; simpl; [|split; [constructor | split; reflexivity]].
  assert (Hlists : forall name,
            Forall (fun items =>
                      items <> []
                      /\ Forall (fun item => item <> "" /\ clean_text item = item) items)
              (flat_map (fun l => if list_truthy (list_items l) then [list_items l] else [])
                 (find_all [name] soup))).
  { intros name. apply List.Forall_forall. intros items Hin.
    apply in_flat_map in Hin as (l & _ & Hin).
    destruct (list_truthy (list_items l)) eqn:Htruthy; [|destruct Hin].
    destruct Hin as [<- | []]. split; [apply list_truthy_spec, Htruthy | apply list_items_clean]. }
  split; [apply Forall_app; split; apply Hlists|].
  split; [|split].
  - apply flat_map_length_le. intros l. destruct (list_truthy (list_items l)); simpl; lia.
  - apply flat_map_length_le. intros l. destruct (list_truthy (list_items l)); simpl; lia.
  - intros name l Hname Hin Hitems. apply in_or_app.
    assert (Hthere : In (list_items l)
              (flat_map (fun l => if list_truthy (list_items l) then [list_items l] else [])
                 (find_all [name] soup))).
    { apply in_flat_map. exists l. split; [exact Hin|].
      rewrite (proj2 (list_truthy_spec _) Hitems). now left. }
    destruct Hname as [<- | [<- | []]]; [left | right]; exact Hthere.
Qed.

Lemma enumerate_fst {A} (l : list A) : map fst (enumerate l) = seq 0 (length l).
Proof.
  unfold enumerate. generalize 0%nat.
  induction l as [|x l IH]; intros start; simpl; [reflexivity|].
  rewrite IH. reflexivity.
Qed.

(** X19. The tables of the article are numbered from 0 in the order of
    the page, one for each table tag; no row of a table is empty, and
    every cell and every header is a whitespace-normalised text. An
    empty fragment has no table. *)
Theorem extract_tables_rows (html_fragment : option node) :
  let tables := _extract_tables html_fragment in
  map Table.id tables = seq 0 (length tables)
  /\ length tables
     = match html_fragment with
       | Some soup => length (find_all ["table"] soup)
       | None => 0%nat
       end
  /\ Forall (fun table =>
               Forall (fun header => clean_text header = header) (Table.headers table)
               /\ Forall (fun row =>
                            row <> [] /\ Forall (fun cell => clean_text cell = cell) row)
                    (Table.rows table))
       tables.
Proof.
  cbn zeta. destruct html_fragment as [soup|]; simpl; [|repeat split; constructor].
  set (found := find_all ["table"] soup).
  assert (Hlen : length (enumerate found) = length found).
  { unfold enumerate. rewrite length_combine, length_seq. lia. }
  split; [|split].
  - rewrite length_map, Hlen, <- enumerate_fst, map_map.
    apply map_ext. intros [i table]. reflexivity.
  - rewrite length_map. exact Hlen.
  - apply List.Forall_forall. intros table Hin.
    apply in_map_iff in Hin as ([i t] & <- & _). simpl. split.
    + apply List.Forall_forall. intros header Hin.
      apply in_map_iff in Hin as (h & <- & _). apply clean_text_facts.
    + apply List.Forall_forall. intros row Hin.
      apply in_flat_map in Hin as (r & _ & Hin).
      destruct (list_truthy _) eqn:Htruthy in Hin; [|destruct Hin].
      destruct Hin as [<- | []]. split; [apply list_truthy_spec, Htruthy|].
      apply List.Forall_forall. intros cell Hin.
      apply in_map_iff in Hin as (c & <- & _). apply clean_text_facts.
Qed.

(** ** User agents *)

Lemma realistic_user_agents_usable :
  Forall (fun ua => ua <> "" /\ Py.strip ua = ua) REALISTIC_USER_AGENTS.
Proof. repeat constructor; try discriminate; vm_compute; reflexivity. Qed.

(** X20. The parser always has a user agent to send: the list is never
    empty, and no agent of it is blank or has white space around it.
    The agents the caller gives are used, stripped, in the order given,
    the blank ones and those that are no strings left out; only when
    none is left does the parser use its own. *)
Theorem normalize_user_agents_usable (user_agent : user_agent_arg) :
  let given :=
    match user_agent with
    | OneUserAgent ua => List.filter Py.nonempty [Py.strip ua]
    | UserAgents items =>
        List.filter Py.nonempty (map Py.strip (omap (fun ua => ua) items))
    | NoUserAgent => []
    end in
  let ua_list := _normalize_user_agents user_agent in
  ua_list <> []
  /\ (exists first, hd_error ua_list = Some first)
  /\ Forall (fun ua => ua <> "" /\ Py.strip ua = ua) ua_list
  /\ ua_list = match given with [] => REALISTIC_USER_AGENTS | _ => given end.
Proof.
  cbn zeta.
  assert (Hgiven : _normalize_user_agents user_agent
                   = match match user_agent with
                           | OneUserAgent ua => List.filter Py.nonempty [Py.strip ua]
                           | UserAgents items =>
                               List.filter Py.nonempty
                                 (map Py.strip (omap (fun ua => ua) items))
                           | NoUserAgent => []
                           end with
                     | [] => REALISTIC_USER_AGENTS
                     | given => given
                     end).
  { unfold _normalize_user_agents. cbn zeta.
    destruct user_agent as [ua | items |]; [| |reflexivity].
    - cbn [List.filter]. destruct (Py.nonempty (Py.strip ua)); reflexivity.
    - replace (flat_map _ items)
        with (List.filter Py.nonempty (map Py.strip (omap (fun ua => ua) items))).
      + destruct (List.filter _ _); reflexivity.
      + induction items as [|[ua|] items IH]; [reflexivity| |exact IH].
        cbn [omap list_omap map List.filter flat_map]. rewrite IH.
        destruct (Py.nonempty (Py.strip ua)); reflexivity. }
  set (given := match user_agent with
                | OneUserAgent ua => List.filter Py.nonempty [Py.strip ua]
                | UserAgents items =>
                    List.filter Py.nonempty (map Py.strip (omap (fun ua => ua) items))
                | NoUserAgent => []
                end) in *.
  assert (Hclean : Forall (fun ua => ua <> "" /\ Py.strip ua = ua) given).
  { apply List.Forall_forall. intros ua Hin. unfold given in Hin.
    destruct user_agent as [one | items |]; [| |destruct Hin];
      apply filter_In in Hin as [Hin Hne]; apply nonempty_spec in Hne;
      (split; [exact Hne|]).
    - destruct Hin as [<- | []]. apply strip_idempotent.
    - apply in_map_iff in Hin as (x & <- & _). apply strip_idempotent. }
  rewrite Hgiven. destruct given as [|ua rest].
  - split; [discriminate|]. split; [eexists; reflexivity|].
    split; [apply realistic_user_agents_usable | reflexivity].
  - split; [discriminate|]. split; [eexists; reflexivity|].
    split; [exact Hclean | reflexivity].
Qed.

(** ** What the filter keeps *)

Lemma decompose_all_strings p n :
  strings_of (decompose_all p n) `sublist_of` strings_of n.
Proof.
  induction n as [s | name attrs cs IH] using node_ind; simpl; [reflexivity|].
  induction cs as [|c cs IHcs]; [constructor|].
  inversion IH as [|? ? IHc IHrest]; subst.
  rewrite decompose_children_cons, flat_map_app. cbn [flat_map].
  destruct (p c).
  - simpl. apply sublist_inserts_l. auto.
  - simpl. rewrite app_nil_r. apply sublist_app; auto.
Qed.

(** X21. The noise filter only takes away: the strings of the filtered
    page are strings of the page, in their order. A page none of whose
    tags is a stripped tag or is skipped comes out as it is. *)
Theorem noise_filter_only_removes (soup : node) :
  strings_of (_prepare_content_soup soup) `sublist_of` strings_of soup
  /\ (Forall (fun element =>
                name_in STRIPPED_TAGS element = false
                /\ _should_skip_element element = false)
        (descendants soup) ->
      _prepare_content_soup soup = soup).
Proof.
  rewrite prepare_content_soup_all. split.
  - etransitivity; apply decompose_all_strings.
  - intros Hclean. apply Forall_and in Hclean as [Hstripped Hskip].
    rewrite (decompose_all_id (name_in STRIPPED_TAGS) soup); [|reflexivity | exact Hstripped].
    apply decompose_all_id; [reflexivity | exact Hskip].
Qed.

Lemma noise_filter_only_removes_witness :
  _prepare_content_soup short_page = short_page.
Proof.
  apply (proj2 (noise_filter_only_removes short_page)).
  repeat constructor.
Defined.

(** ** Title and excerpt of the article *)

Lemma extract_meta_value soup key value :
  _extract_meta soup !! key = Some value -> value <> "".
Proof.
  rewrite extract_meta_fold.
  apply (extract_meta_entries (find_all ["meta"] soup) ∅ (fun _ value => value <> "")).
  - intros k v H. rewrite lookup_empty in H. discriminate.
  - intros tag k v _ Hentry. apply (meta_entry_nonempty tag k v Hentry).
Qed.

Lemma first_truthy_head (meta : gmap string string) key keys value :
  meta !! key = Some value -> value <> "" -> first_truthy meta (key :: keys) = value.
Proof.
  intros Hlookup Hne. simpl. rewrite Hlookup, (proj2 (nonempty_spec value) Hne). reflexivity.
Qed.

Lemma first_truthy_skip (meta : gmap string string) key keys :
  meta !! key = None -> first_truthy meta (key :: keys) = first_truthy meta keys.
Proof. intros Hlookup. simpl. rewrite Hlookup. reflexivity. Qed.

Lemma first_truthy_empty (meta : gmap string string) keys :
  (forall key value, meta !! key = Some value -> value <> "") ->
  first_truthy meta keys = "" ->
  Forall (fun key => meta !! key = None) keys.
Proof.
  intros Hvalues. induction keys as [|key keys IH]; intros Hempty; [constructor|].
  simpl in Hempty. destruct (meta !! key) as [value|] eqn:Hlookup.
  - exfalso. pose proof (Hvalues key value Hlookup) as Hne.
    rewrite (proj2 (nonempty_spec value) Hne) in Hempty. contradiction.
  - constructor; [exact Hlookup | apply IH, Hempty].
Qed.

Lemma or_else_empty_inv x y : Py.or_else x y = "" -> x = "" /\ y = "".
Proof. destruct x; simpl; [tauto | discriminate]. Qed.

Lemma build_block_info_paragraphs element up idx block :
  _build_block_info element up idx = Some block ->
  Block.paragraphs block = clean_texts (find_all ["p"] element).
Proof.
  unfold _build_block_info.
  destruct (is_tag element); simpl; [|discriminate].
  destruct (_ <? 40)%Z; [discriminate|].
  intros [= <-]. reflexivity.
Qed.

Section Excerpt.

Variable urljoin : string -> string -> string.
Variable netloc : string -> string.

Lemma build_article_section_head rc blocks fallback_title meta content_soup base_url article :
  _build_article_section urljoin netloc rc blocks fallback_title meta content_soup base_url
  = Some article ->
  exists main_content title,
    _choose_main_content rc blocks fallback_title = Some main_content
    /\ get_str main_content "title" "" = Some title
    /\ get_list main_content "paragraphs" = Some (Body.paragraphs (Article.body article))
    /\ Article.title article
       = Py.or_else title
           (Py.or_else (first_truthy meta ["og:title"; "twitter:title"; "title"])
              fallback_title)
    /\ Article.excerpt article
       = let excerpt_value :=
           Py.or_else (first_truthy meta ["description"; "og:description"])
             (List.hd "" (Body.paragraphs (Article.body article))) in
         if Py.nonempty excerpt_value then clean_text excerpt_value else "".
Proof.
  unfold _build_article_section.
  destruct (_choose_main_content rc blocks fallback_title) as [mc|] eqn:Hchoose;
    cbn [mbind option_bind]; [|discriminate].
  destruct (_extract_article_media urljoin mc meta base_url content_soup) as [media|];
    cbn [mbind option_bind]; [|discriminate].
  destruct (get_list mc "paragraphs") as [paragraphs|] eqn:Hps;
    cbn [mbind option_bind]; [|discriminate].
  destruct (_extract_links_from_main urljoin netloc mc base_url) as [links|];
    cbn [mbind option_bind]; [|discriminate].
  destruct (get_str mc "text" "") as [text|];
    cbn [mbind option_bind]; [|discriminate].
  destruct (get_number mc "word_count" (PInt 0)) as [word_count|];
    cbn [mbind option_bind]; [|discriminate].
  destruct (get_number mc "reading_time_minutes" _) as [reading_time|];
    cbn [mbind option_bind]; [|discriminate].
  destruct (get_opt_str mc "source") as [source|];
    cbn [mbind option_bind]; [|discriminate].
  destruct (content_fragment mc) as [html|];
    cbn [mbind option_bind]; [|discriminate].
  destruct (get_number mc "confidence" _) as [confidence|];
    cbn [mbind option_bind]; [|discriminate].
  destruct (get_str mc "title" "") as [title|] eqn:Htitle;
    cbn [mbind option_bind]; [|discriminate].
  intros [= <-]. exists mc, title. cbn [Article.title Article.excerpt Article.body Body.paragraphs].
  split; [reflexivity|]. split; [exact Htitle|]. split; [exact Hps|]. split; [reflexivity|].
  destruct paragraphs; reflexivity.
Qed.

(** The paragraphs of the dictionary the arbiter chooses in [parse_html]
    are clean and not empty. *)
Lemma chosen_paragraphs_clean soup document main_content paragraphs :
  _choose_main_content (_extract_main_content document)
    (content_blocks (_prepare_content_soup soup)) (page_title soup) = Some main_content ->
  get_list main_content "paragraphs" = Some paragraphs ->
  Forall is_paragraph paragraphs.
Proof.
  intros Hchoose Hps.
  set (blocks := content_blocks (_prepare_content_soup soup)) in *.
  assert (Hheur : forall best rest, blocks = best :: rest ->
            main_content = heuristic_content best (page_title soup) ->
            Forall is_paragraph paragraphs).
  { intros best rest Hb ->.
    assert (E : paragraphs = Block.paragraphs best)
      by (change (Some (Block.paragraphs best) = Some paragraphs) in Hps; congruence).
    subst paragraphs.
    destruct (content_blocks_built (_prepare_content_soup soup) best)
      as (e & up & idx & _ & _ & Hbuilt); [fold blocks; rewrite Hb; now left|].
    rewrite (build_block_info_paragraphs _ _ _ _ Hbuilt). apply clean_texts_paragraphs. }
  destruct (choose_main_content_cases document blocks (page_title soup))
    as [[He Hc] | (d & ps & He & Hclean & _ & Hc)];
    rewrite Hchoose in Hc; injection Hc as Hmc.
  - destruct blocks as [|best rest] eqn:Hb; [|apply (Hheur best rest eq_refl Hmc)].
    subst main_content.
    assert (E : paragraphs = [])
      by (change (Some (@nil string) = Some paragraphs) in Hps; congruence).
    subst paragraphs. constructor.
  - cbn zeta in Hmc. rewrite He in Hmc.
    assert (Hread : main_content
                    = readability_result d ps (Py.join NL2 ps)
                        (Z.of_nat (length (flat_map Py.split ps))) ->
                    Forall is_paragraph paragraphs).
    { intros ->.
      assert (E : paragraphs = ps)
        by (change (Some ps = Some paragraphs) in Hps; congruence).
      subst paragraphs. exact Hclean. }
    destruct (80 <=? _)%Z; [exact (Hread Hmc)|].
    destruct blocks as [|best rest] eqn:Hb;
      [exact (Hread Hmc) | apply (Hheur best rest eq_refl Hmc)].
Qed.

(** X22. Title and excerpt of the article [parse_html] returns. The
    title is empty only if the page has no title and its metadata no
    [og:title], [twitter:title] or [title]. The excerpt is a
    whitespace-normalised text: that of the [description] of the
    metadata if there is one, else that of the [og:description], else
    the first paragraph of the body, and the empty text if the body has
    no paragraph. *)
Theorem article_title_and_excerpt (soup : node) (document : option Readable.t) (url : string) :
  exists parsed,
    parse_html urljoin netloc soup document url = Some parsed
    /\ let article := Parsed.article parsed in
       let meta := _extract_meta soup in
       (Article.title article = "" ->
        page_title soup = ""
        /\ meta !! "og:title" = None /\ meta !! "twitter:title" = None
        /\ meta !! "title" = None)
       /\ clean_text (Article.excerpt article) = Article.excerpt article
       /\ (forall description,
             meta !! "description" = Some description ->
             Article.excerpt article = clean_text description)
       /\ (forall description,
             meta !! "description" = None ->
             meta !! "og:description" = Some description ->
             Article.excerpt article = clean_text description)
       /\ (meta !! "description" = None ->
           meta !! "og:description" = None ->
           Article.excerpt article = List.hd "" (Body.paragraphs (Article.body article))).
Proof.
  destruct (parse_html_some urljoin netloc soup document url)
    as (parsed & mc & Hparse & Hchoose & _ & Harticle).
  exists parsed. split; [exact Hparse|]. cbn zeta.
  apply build_article_section_head in Harticle
    as (mc' & title & Hchoose' & Htitle & Hps & -> & ->).
  rewrite Hchoose in Hchoose'. injection Hchoose' as <-.
  pose proof (chosen_paragraphs_clean soup document mc _ Hchoose Hps) as Hclean.
  pose proof (extract_meta_value soup) as Hvalues.
  set (meta := _extract_meta soup) in *.
  set (paragraphs := Body.paragraphs (Article.body (Parsed.article parsed))) in *.
  assert (Hfirst : clean_text (List.hd "" paragraphs) = List.hd "" paragraphs).
  { destruct paragraphs as [|p ps]; [reflexivity|].
    inversion Hclean as [|? ? [_ Hp] _]; subst. exact Hp. }
  split; [|split; [|split; [|split]]].
  - intros Hempty. apply or_else_empty_inv in Hempty as [_ Hempty].
    apply or_else_empty_inv in Hempty as [Hmeta Hpage].
    apply (first_truthy_empty meta _ Hvalues) in Hmeta.
    inversion Hmeta as [|? ? H1 Hmeta']; subst.
    inversion Hmeta' as [|? ? H2 Hmeta'']; subst.
    inversion Hmeta'' as [|? ? H3 _]; subst. auto.
  - cbn zeta. destruct (Py.nonempty _); [apply clean_text_facts | reflexivity].
  - intros description Hd. cbn zeta.
    rewrite (first_truthy_head meta _ _ description Hd (Hvalues _ _ Hd)).
    pose proof (Hvalues _ _ Hd) as Hne. destruct description; [contradiction | reflexivity].
  - intros description Hnone Hd. cbn zeta.
    rewrite (first_truthy_skip meta _ _ Hnone).
    rewrite (first_truthy_head meta _ _ description Hd (Hvalues _ _ Hd)).
    pose proof (Hvalues _ _ Hd) as Hne. destruct description; [contradiction | reflexivity].
  - intros Hnone Hnone'. cbn zeta.
    rewrite (first_truthy_skip meta _ _ Hnone), (first_truthy_skip meta _ _ Hnone').
    cbn [first_truthy Py.or_else Py.nonempty].
    destruct (List.hd "" paragraphs) eqn:Hhd; [reflexivity|].
    cbn [Py.nonempty]. exact Hfirst.
Qed.

End Excerpt.
